(** * Timer scheduler and its WebSocket front end

    A shallow embedding of
      - [src/vercel_ai/src/server/timerScheduler.ts]  (the scheduler),
      - [src/vercel_ai/src/server/timerWsServer.ts]   (the connection layer),
      - [waitFor] inside [executeTimerAction] of the chat route
        (the caller-side request correlator),
      - of the same route: the normalisers of timer actions, the
        [timer_create] tool's validator, [withRequestId], the predicates of
        the three waits, and [coerceMessages],
      - [joinUrlPath] of the gateway route,
      - [src/vercel_ai/src/server/memoryStore.ts]  ([ensureLoaded]'s loop
        and [addMemory]),
    followed by the properties of the specification that concern them and
    by further properties of the code.

    Conventions.
      - A JavaScript number is a [number]: the three non-finite doubles and
        the finite ones, the latter written as the rational they denote.
        Sums and differences of finite numbers are exact (no rounding, no
        signed zero); that is what doubles do on integers below 2^53, the
        range of millisecond timestamps and periods.
      - Effects are explicit: an operation is a function from the state to an
        outcome (a value or a thrown exception) and the state it leaves; the
        state a [throw] leaves behind is kept, as in JavaScript.
      - Closures handed to [setTimeout]/[setInterval] are first-order
        [callback] descriptors carrying their captured variables. *)

From Stdlib Require Import ZArith QArith Qround String Ascii List Bool Lia.
Import ListNotations.
Local Open Scope string_scope.
Local Open Scope Z_scope.

Set Implicit Arguments.
Set Warnings "-register-all".

(* ===================================================================== *)
(** ** JavaScript numbers *)
(* ===================================================================== *)

Inductive number : Type :=
| NaN
| PosInf
| NegInf
| Fin (q : Q).

Definition of_Z (z : Z) : number := Fin (inject_Z z).

Definition Qlt_bool (p q : Q) : bool := negb (Qle_bool q p).

(** [Number.isFinite] on a value already known to be a number. *)
Definition num_isFinite (n : number) : bool :=
  match n with Fin _ => true | _ => false end.

(** The relational operator [a < b]. *)
Definition num_lt (a b : number) : bool :=
  match a, b with
  | NaN, _ | _, NaN => false
  | _, NegInf => false
  | PosInf, _ => false
  | NegInf, _ => true
  | Fin _, PosInf => true
  | Fin p, Fin q => Qlt_bool p q
  end.

(** The relational operator [a >= b]. *)
Definition num_ge (a b : number) : bool :=
  match a, b with
  | NaN, _ | _, NaN => false
  | _, _ => negb (num_lt a b)
  end.

(** [Math.floor]. *)
Definition Math_floor (n : number) : number :=
  match n with
  | Fin q => of_Z (Qfloor q)
  | _ => n
  end.

(** [Math.max] of two numbers. *)
Definition Math_max (a b : number) : number :=
  match a, b with
  | NaN, _ | _, NaN => NaN
  | _, _ => if num_lt a b then b else a
  end.

(** [a + b]. *)
Definition num_add (a b : number) : number :=
  match a, b with
  | NaN, _ | _, NaN => NaN
  | PosInf, NegInf | NegInf, PosInf => NaN
  | PosInf, _ | _, PosInf => PosInf
  | NegInf, _ | _, NegInf => NegInf
  | Fin p, Fin q => Fin (p + q)
  end.

(** [a - b]. *)
Definition num_sub (a b : number) : number :=
  match a, b with
  | NaN, _ | _, NaN => NaN
  | PosInf, PosInf | NegInf, NegInf => NaN
  | PosInf, _ | _, NegInf => PosInf
  | NegInf, _ | _, PosInf => NegInf
  | Fin p, Fin q => Fin (p - q)
  end.

(* ===================================================================== *)
(** ** JavaScript values *)
(* ===================================================================== *)

(** The values the code handles untyped: what [JSON.parse] returns
    ([VNull], booleans, numbers, strings, arrays, plain objects with their
    own properties in order), [undefined] for a missing property, and
    BigInts, which a caller of the scheduler may attach as [task.data]. *)
Inductive value : Type :=
| VUndefined
| VNull
| VBool (b : bool)
| VNum (n : number)
| VStr (s : string)
| VBigInt (z : Z)
| VArr (items : list value)
| VObj (fields : list (string * value)).

(** Thrown things: an [Error] with its message, or any other value, kept
    as the text [String(e)] gives for it. *)
Inductive exn : Type :=
| ErrorObj (message : string)
| NonError (text : string).

Inductive result (A : Type) : Type :=
| Ok (a : A)
| Throw (e : exn).
Arguments Ok {A} a.
Arguments Throw {A} e.

(** [e instanceof Error ? e.message : String(e)] *)
Definition exn_message (e : exn) : string :=
  match e with
  | ErrorObj m => m
  | NonError t => t
  end.

Fixpoint own_property (fields : list (string * value)) (k : string) : option value :=
  match fields with
  | [] => None
  | (k', v) :: rest => if String.eqb k k' then Some v else own_property rest k
  end.

(** [v.k] for the property names the code reads ([type], [id], [timer],
    [mode], [runAt], [everyMs], [startAt], [task], [message], [data]):
    none of them is inherited from a prototype, so only a plain object can
    have one; reading a property of [undefined] or [null] throws. *)
Definition get_prop (v : value) (k : string) : result value :=
  match v with
  | VUndefined =>
      Throw (ErrorObj ("Cannot read properties of undefined (reading '" ++ k ++ "')"))
  | VNull =>
      Throw (ErrorObj ("Cannot read properties of null (reading '" ++ k ++ "')"))
  | VObj fields =>
      match own_property fields k with
      | Some x => Ok x
      | None => Ok VUndefined
      end
  | _ => Ok VUndefined
  end.

(** [!v] is false. *)
Definition truthy (v : value) : bool :=
  match v with
  | VUndefined | VNull => false
  | VBool b => b
  | VNum NaN => false
  | VNum (Fin q) => negb (Qeq_bool q 0)
  | VNum _ => true
  | VStr s => negb (String.eqb s "")
  | VBigInt z => negb (Z.eqb z 0)
  | VArr _ | VObj _ => true
  end.

(** [typeof v === 'object'] *)
Definition typeof_object (v : value) : bool :=
  match v with
  | VNull | VArr _ | VObj _ => true
  | _ => false
  end.

(** [Number.isFinite(v)]: no coercion, so false off numbers. *)
Definition Number_isFinite (v : value) : bool :=
  match v with
  | VNum n => num_isFinite n
  | _ => false
  end.

(** [v === 'lit'] for a string literal. *)
Definition is_string (v : value) (lit : string) : bool :=
  match v with
  | VStr s => String.eqb s lit
  | _ => false
  end.

(* ===================================================================== *)
(** ** The host: what the runtime, not the repository, decides *)
(* ===================================================================== *)

Record Host : Type := mkHost {
  (** the n-th reading of [Date.now()] *)
  Date_now : nat -> Z;
  (** the n-th identifier [createId()] produces *)
  randomUUID : nat -> string;
  (** [JSON.stringify]; throws on BigInts and cyclic structures *)
  JSON_stringify : value -> result string;
  (** [JSON.parse]; [None] when it throws a [SyntaxError] *)
  JSON_parse : string -> option value;
  (** [String.prototype.trim] *)
  String_trim : string -> string;
  (** [Number.prototype.toString], [BigInt.prototype.toString] *)
  Number_toString : number -> string;
  BigInt_toString : Z -> string
}.

Fixpoint join_comma (parts : list string) : string :=
  match parts with
  | [] => ""
  | [p] => p
  | p :: rest => p ++ "," ++ join_comma rest
  end.

Fixpoint sequence_result {A : Type} (rs : list (result A)) : result (list A) :=
  match rs with
  | [] => Ok []
  | Ok a :: rest =>
      match sequence_result rest with
      | Ok l => Ok (a :: l)
      | Throw e => Throw e
      end
  | Throw e :: _ => Throw e
  end.

(** [String(v)]. A parsed object has no callable [toString] of its own:
    with an own property of that name the conversion to a primitive fails,
    without one [Object.prototype.toString] answers. An array joins the
    conversions of its items, empty for [undefined] and [null]. *)
Fixpoint js_String (h : Host) (v : value) : result string :=
  match v with
  | VUndefined => Ok "undefined"
  | VNull => Ok "null"
  | VBool true => Ok "true"
  | VBool false => Ok "false"
  | VNum n => Ok (Number_toString h n)
  | VStr s => Ok s
  | VBigInt z => Ok (BigInt_toString h z)
  | VArr items =>
      match sequence_result
              (map (fun x => match x with
                             | VUndefined | VNull => Ok ""
                             | _ => js_String h x
                             end) items) with
      | Ok parts => Ok (join_comma parts)
      | Throw e => Throw e
      end
  | VObj fields =>
      match own_property fields "toString" with
      | Some _ => Throw (ErrorObj "Cannot convert object to primitive value")
      | None => Ok "[object Object]"
      end
  end.

(* ===================================================================== *)
(** ** timerScheduler.ts: data *)
(* ===================================================================== *)

Inductive TaskType : Type := notify | log.

Record TimerTask : Type := mkTask {
  task_type : TaskType;
  task_message : string;
  (** [data?: unknown]; [VUndefined] when absent *)
  task_data : value
}.

Inductive TimerMode : Type := once | interval.

Inductive TimerCreateInput : Type :=
| CreateOnce (runAt : number) (task : TimerTask)
| CreateInterval (everyMs : number) (startAt : option number) (task : TimerTask).

Record TimerInfo : Type := mkInfo {
  id : string;
  mode : TimerMode;
  createdAt : number;
  nextRunAt : number;
  everyMs : option number;
  lastRunAt : option number;
  task : TimerTask
}.

Inductive TimerEvent : Type :=
| timer_created (timer : TimerInfo)
| timer_canceled (id : string) (ok : bool)
| timer_fired (timer : TimerInfo) (firedAt : number)
| timer_error (id : option string) (message : string)
| timer_list (timers : list TimerInfo).

Record InternalTimer : Type := mkInternal {
  info : TimerInfo;
  handle : nat
}.

(** The three closures the scheduler hands to the host, with the variables
    they capture. *)
Inductive callback : Type :=
| OnceHook (id : string)
| IntervalFirstHook (id : string) (everyMs : number)
| IntervalTickHook (id : string) (everyMs : number).

Inductive HostTimerKind : Type := ByTimeout | ByInterval.

(** One entry of the host's timer table: how it was registered, with which
    delay or period, and what it runs. *)
Record HostTimer : Type := mkHostTimer {
  ht_kind : HostTimerKind;
  ht_delay : number;
  ht_callback : callback
}.

(* ===================================================================== *)
(** ** [Map<string, V>]: keys in insertion order *)
(* ===================================================================== *)

Section JsMap.
Variable V : Type.

Fixpoint map_get (m : list (string * V)) (k : string) : option V :=
  match m with
  | [] => None
  | (k', v) :: rest => if String.eqb k k' then Some v else map_get rest k
  end.

(** [m.set(k, v)]: an existing key keeps its place. *)
Fixpoint map_set (m : list (string * V)) (k : string) (v : V) : list (string * V) :=
  match m with
  | [] => [(k, v)]
  | (k', v') :: rest =>
      if String.eqb k k' then (k, v) :: rest else (k', v') :: map_set rest k v
  end.

Fixpoint map_delete (m : list (string * V)) (k : string) : list (string * V) :=
  match m with
  | [] => []
  | (k', v') :: rest =>
      if String.eqb k k' then map_delete rest k else (k', v') :: map_delete rest k
  end.

Definition map_values (m : list (string * V)) : list V := map snd m.

End JsMap.

(** The host's timer table, by handle. *)
Fixpoint table_get (t : list (nat * HostTimer)) (h : nat) : option HostTimer :=
  match t with
  | [] => None
  | (h', x) :: rest => if Nat.eqb h h' then Some x else table_get rest h
  end.

Fixpoint table_remove (t : list (nat * HostTimer)) (h : nat) : list (nat * HostTimer) :=
  match t with
  | [] => []
  | (h', x) :: rest =>
      if Nat.eqb h h' then table_remove rest h else (h', x) :: table_remove rest h
  end.

(* ===================================================================== *)
(** ** timerScheduler.ts: state and effects *)
(* ===================================================================== *)

Section Scheduler.

(** What the subscribers own (for the connection layer: its connections).
    A listener reads the event, changes that, and returns or throws; it does
    not call back into the scheduler. *)
Variable W : Type.

Definition Listener : Type := TimerEvent -> W -> result unit * W.

Record state : Type := mkState {
  (** [const timers = new Map<string, InternalTimer>()] *)
  timers : list (string * InternalTimer);
  (** [const listeners = new Set<TimerEventListener>()], a key standing
      for the identity of the function object *)
  listeners : list (nat * Listener);
  (** every event [emit] was called with, oldest first *)
  emitted : list TimerEvent;
  (** the host's table of armed timers and the next handle it gives out *)
  host_timers : list (nat * HostTimer);
  next_handle : nat;
  (** how often the clock and the identifier source were consulted *)
  clock_reads : nat;
  id_draws : nat;
  (** lines written by [console.log] *)
  console : list string;
  ext : W
}.

Definition with_timers (f : list (string * InternalTimer) -> list (string * InternalTimer))
  (s : state) : state :=
  mkState (f (timers s)) (listeners s) (emitted s) (host_timers s) (next_handle s)
          (clock_reads s) (id_draws s) (console s) (ext s).

Definition with_listeners (f : list (nat * Listener) -> list (nat * Listener))
  (s : state) : state :=
  mkState (timers s) (f (listeners s)) (emitted s) (host_timers s) (next_handle s)
          (clock_reads s) (id_draws s) (console s) (ext s).

Definition with_emitted (f : list TimerEvent -> list TimerEvent) (s : state) : state :=
  mkState (timers s) (listeners s) (f (emitted s)) (host_timers s) (next_handle s)
          (clock_reads s) (id_draws s) (console s) (ext s).

Definition with_host_timers (f : list (nat * HostTimer) -> list (nat * HostTimer))
  (s : state) : state :=
  mkState (timers s) (listeners s) (emitted s) (f (host_timers s)) (next_handle s)
          (clock_reads s) (id_draws s) (console s) (ext s).

Definition with_next_handle (n : nat) (s : state) : state :=
  mkState (timers s) (listeners s) (emitted s) (host_timers s) n
          (clock_reads s) (id_draws s) (console s) (ext s).

Definition with_clock_reads (n : nat) (s : state) : state :=
  mkState (timers s) (listeners s) (emitted s) (host_timers s) (next_handle s)
          n (id_draws s) (console s) (ext s).

Definition with_id_draws (n : nat) (s : state) : state :=
  mkState (timers s) (listeners s) (emitted s) (host_timers s) (next_handle s)
          (clock_reads s) n (console s) (ext s).

Definition with_console (f : list string -> list string) (s : state) : state :=
  mkState (timers s) (listeners s) (emitted s) (host_timers s) (next_handle s)
          (clock_reads s) (id_draws s) (f (console s)) (ext s).

Definition with_ext (w : W) (s : state) : state :=
  mkState (timers s) (listeners s) (emitted s) (host_timers s) (next_handle s)
          (clock_reads s) (id_draws s) (console s) w.

(** A computation: the outcome and the state left behind, also on a throw. *)
Definition M (A : Type) : Type := state -> result A * state.

Definition ret {A : Type} (a : A) : M A := fun s => (Ok a, s).

Definition throw {A : Type} (e : exn) : M A := fun s => (Throw e, s).

Definition bind {A B : Type} (m : M A) (k : A -> M B) : M B :=
  fun s =>
    match m s with
    | (Ok a, s1) => k a s1
    | (Throw e, s1) => (Throw e, s1)
    end.

(** [try { m } catch (e) { h e }] *)
Definition try_catch {A : Type} (m : M A) (h : exn -> M A) : M A :=
  fun s =>
    match m s with
    | (Ok a, s1) => (Ok a, s1)
    | (Throw e, s1) => h e s1
    end.

(** [try { m } finally { f }]: [f] always runs; its own throw wins. *)
Definition try_finally {A : Type} (m : M A) (f : M unit) : M A :=
  fun s =>
    match m s with
    | (r, s1) =>
        match f s1 with
        | (Ok _, s2) => (r, s2)
        | (Throw e, s2) => (Throw e, s2)
        end
    end.

(** A pure step that may throw. *)
Definition lift_result {A : Type} (r : result A) : M A := fun s => (r, s).

End Scheduler.

Arguments ret {W A} a _.
Arguments throw {W A} e _.
Arguments lift_result {W A} r _.

Declare Scope js_scope.
Delimit Scope js_scope with js.
Notation "x <- m ;; k" := (bind m (fun x => k))
  (at level 100, m at next level, right associativity) : js_scope.
Notation "m ;;; k" := (bind m (fun _ => k))
  (at level 100, right associativity) : js_scope.
Local Open Scope js_scope.

(* ===================================================================== *)
(** ** timerScheduler.ts: operations *)
(* ===================================================================== *)

Section SchedulerOps.

Variable host : Host.
Variable W : Type.

Local Abbreviation state := (state W).
Local Abbreviation M := (M W).

(** Each listener in turn; the first that throws ends the loop. *)
Fixpoint notify_all (ls : list (nat * Listener W)) (event : TimerEvent) : M unit :=
  match ls with
  | [] => ret tt
  | (_, listener) :: rest =>
      (fun s =>
         match listener event (ext s) with
         | (Ok _, w) => notify_all rest event (with_ext w s)
         | (Throw e, w) => (Throw e, with_ext w s)
         end)
  end.

(** [emit(event)] *)
Definition emit (event : TimerEvent) : M unit :=
  fun s =>
    notify_all (listeners s) event (with_emitted (fun l => (l ++ [event])%list) s).

(** [onEvent(listener)]: adds the listener; the returned function is
    [unsubscribe key]. *)
Definition onEvent (key : nat) (listener : Listener W) : M unit :=
  fun s =>
    if existsb (fun kl => Nat.eqb (fst kl) key) (listeners s)
    then (Ok tt, s)
    else (Ok tt, with_listeners (fun l => (l ++ [(key, listener)])%list) s).

(** [() => listeners.delete(listener)] *)
Definition unsubscribe (key : nat) : M unit :=
  fun s =>
    (Ok tt,
     with_listeners (filter (fun kl => negb (Nat.eqb (fst kl) key))) s).

(** [createId()] *)
Definition createId : M string :=
  fun s => (Ok (randomUUID host (id_draws s)), with_id_draws (S (id_draws s)) s).

(** [safeNow()] *)
Definition safeNow : M number :=
  fun s => (Ok (of_Z (Date_now host (clock_reads s))),
            with_clock_reads (S (clock_reads s)) s).

(** [clampMin(value, min)] *)
Definition clampMin (value min : number) : number :=
  if num_lt value min then min else value.

(** [setTimeout(cb, delay)] and [setInterval(cb, period)]: the host notes
    the request under a fresh handle. *)
Definition setTimeout (cb : callback) (delay : number) : M nat :=
  fun s =>
    let h := next_handle s in
    (Ok h,
     with_next_handle (S h)
       (with_host_timers (fun t => (t ++ [(h, mkHostTimer ByTimeout delay cb)])%list) s)).

Definition setInterval (cb : callback) (period : number) : M nat :=
  fun s =>
    let h := next_handle s in
    (Ok h,
     with_next_handle (S h)
       (with_host_timers (fun t => (t ++ [(h, mkHostTimer ByInterval period cb)])%list) s)).

(** [clearTimeout(h)] and [clearInterval(h)] disarm a handle whichever way
    it was armed. *)
Definition clearTimeout (h : nat) : M unit :=
  fun s => (Ok tt, with_host_timers (fun t => table_remove t h) s).

Definition clearInterval (h : nat) : M unit :=
  fun s => (Ok tt, with_host_timers (fun t => table_remove t h) s).

(** [console.log(line)] *)
Definition console_log (line : string) : M unit :=
  fun s => (Ok tt, with_console (fun l => (l ++ [line])%list) s).

(** [timers.get(k)], [timers.set(k, t)], [timers.delete(k)] *)
Definition timers_get (k : string) : M (option InternalTimer) :=
  fun s => (Ok (map_get (timers s) k), s).

Definition timers_set (k : string) (t : InternalTimer) : M unit :=
  fun s => (Ok tt, with_timers (fun m => map_set m k t) s).

Definition timers_delete (k : string) : M unit :=
  fun s => (Ok tt, with_timers (fun m => map_delete m k) s).

(** [runTask(task)] *)
Definition runTask (t : TimerTask) : M unit :=
  match task_type t with
  | log =>
      data <- (match task_data t with
               | VUndefined => ret ""
               | d => text <- lift_result (JSON_stringify host d) ;; ret (" data=" ++ text)
               end) ;;
      console_log ("[timer] " ++ task_message t ++ data)
  | notify => ret tt
  end.

(** An info after [lastRunAt = firedAt] and [nextRunAt = next]. *)
Definition fired (firedAt next : number) (i : TimerInfo) : TimerInfo :=
  mkInfo (id i) (mode i) (createdAt i) next (everyMs i) (Some firedAt) (task i).

(** [existing.info.lastRunAt = firedAt; existing.info.nextRunAt = next]:
    the object written to is the one the map entry under [k] holds. *)
Definition timers_touch (k : string) (firedAt next : number) : M unit :=
  fun s =>
    match map_get (timers s) k with
    | Some t =>
        (Ok tt,
         with_timers
           (fun m => map_set m k (mkInternal (fired firedAt next (info t)) (handle t))) s)
    | None => (Ok tt, s)
    end.

(** The body of the [setTimeout] callback of [createOnceTimer]. *)
Definition once_hook (k : string) : M unit :=
  existing <- timers_get k ;;
  match existing with
  | None => ret tt
  | Some existing =>
      firedAt <- safeNow ;;
      timers_touch k firedAt firedAt ;;;
      let snapshot := fired firedAt firedAt (info existing) in
      try_finally
        (try_catch
           (runTask (task snapshot) ;;;
            emit (timer_fired snapshot firedAt))
           (fun e => emit (timer_error (Some k) (exn_message e))))
        (timers_delete k)
  end.

(** The body of the [setInterval] callback of [createIntervalTimer]. *)
Definition interval_tick_hook (k : string) (every : number) : M unit :=
  current <- timers_get k ;;
  match current with
  | None => ret tt
  | Some current =>
      firedAt <- safeNow ;;
      timers_touch k firedAt (num_add firedAt every) ;;;
      let snapshot := fired firedAt (num_add firedAt every) (info current) in
      try_catch
        (runTask (task snapshot) ;;;
         emit (timer_fired snapshot firedAt))
        (fun e => emit (timer_error (Some k) (exn_message e)))
  end.

(** The body of the [setTimeout] callback of [createIntervalTimer]. *)
Definition interval_first_hook (k : string) (every : number) : M unit :=
  existing <- timers_get k ;;
  match existing with
  | None => ret tt
  | Some existing =>
      intervalHandle <- setInterval (IntervalTickHook k every) every ;;
      timers_set k (mkInternal (info existing) intervalHandle) ;;;
      firedAt <- safeNow ;;
      timers_touch k firedAt (num_add firedAt every) ;;;
      let snapshot := fired firedAt (num_add firedAt every) (info existing) in
      try_catch
        (runTask (task snapshot) ;;;
         emit (timer_fired snapshot firedAt))
        (fun e => emit (timer_error (Some k) (exn_message e)))
  end.

(** [createOnceTimer(input)] *)
Definition createOnceTimer (runAt : number) (t : TimerTask) : M TimerInfo :=
  k <- createId ;;
  created <- safeNow ;;
  let next := clampMin runAt created in
  let i := mkInfo k once created next None None t in
  now <- safeNow ;;
  let delay := clampMin (num_sub next now) (of_Z 0) in
  h <- setTimeout (OnceHook k) delay ;;
  timers_set k (mkInternal i h) ;;;
  emit (timer_created i) ;;;
  ret i.

(** [createIntervalTimer(input)] *)
Definition createIntervalTimer (every0 : number) (startAt0 : option number) (t : TimerTask)
  : M TimerInfo :=
  k <- createId ;;
  created <- safeNow ;;
  let every := clampMin (Math_floor every0) (of_Z 50) in
  let startAt := match startAt0 with Some x => x | None => created end in
  let i := mkInfo k interval created (clampMin startAt created) (Some every) None t in
  now <- safeNow ;;
  let firstDelay := clampMin (num_sub (nextRunAt i) now) (of_Z 0) in
  h <- setTimeout (IntervalFirstHook k every) firstDelay ;;
  timers_set k (mkInternal i h) ;;;
  emit (timer_created i) ;;;
  ret i.

(** [createTimer(input)] *)
Definition createTimer (input : TimerCreateInput) : M TimerInfo :=
  match input with
  | CreateOnce runAt t => createOnceTimer runAt t
  | CreateInterval every startAt t => createIntervalTimer every startAt t
  end.

(** [cancelTimer(id)] *)
Definition cancelTimer (k : string) : M bool :=
  existing <- timers_get k ;;
  match existing with
  | None =>
      emit (timer_canceled k false) ;;;
      ret false
  | Some existing =>
      clearTimeout (handle existing) ;;;
      clearInterval (handle existing) ;;;
      timers_delete k ;;;
      emit (timer_canceled k true) ;;;
      ret true
  end.

(** [listTimers()] *)
Definition listTimers : M (list TimerInfo) :=
  fun s => (Ok (map info (map_values (timers s))), s).

(** Calling a closure handed to the host. *)
Definition run_callback (cb : callback) : M unit :=
  match cb with
  | OnceHook k => once_hook k
  | IntervalFirstHook k every => interval_first_hook k every
  | IntervalTickHook k every => interval_tick_hook k every
  end.

(** The host running what is armed under [h]: a timeout is spent by
    firing, an interval stays armed, a cleared handle runs nothing. An
    exception that leaves the callback is the host's to deal with. *)
Definition host_fire (h : nat) : M unit :=
  fun s =>
    match table_get (host_timers s) h with
    | None => (Ok tt, s)
    | Some t =>
        run_callback (ht_callback t)
          (match ht_kind t with
           | ByTimeout => with_host_timers (fun tb => table_remove tb h) s
           | ByInterval => s
           end)
    end.

(** [createTimerScheduler()]: nothing tracked, nobody listening. *)
Definition createTimerScheduler (w : W) : state :=
  mkState [] [] [] [] 0%nat 0%nat 0%nat [] w.

End SchedulerOps.

(* ===================================================================== *)
(** ** timerWsServer.ts *)
(* ===================================================================== *)

Inductive ReadyState : Type := CONNECTING | OPEN | CLOSING | CLOSED.

Definition is_open (r : ReadyState) : bool :=
  match r with OPEN => true | _ => false end.

Inductive WsServerToClient : Type :=
| WsHello (now : number) (path : string) (port : number)
| WsPong (id : option string)
| WsError (message : string) (requestType : option string)
| WsTimerCreated (timer : TimerInfo)
| WsTimerCanceled (id : string) (ok : bool)
| WsTimerFired (timer : TimerInfo) (firedAt : number)
| WsTimerList (timers : list TimerInfo)
| WsTimerError (id : option string) (message : string).

(** A parsed request; [timer] is whatever object the client sent, the cast
    to [TimerCreateInput] checks nothing. *)
Inductive WsClientToServer : Type :=
| ReqPing (id : option string)
| ReqTimerList
| ReqTimerCancel (id : string)
| ReqTimerCreate (timer : value).

Definition request_type (r : WsClientToServer) : string :=
  match r with
  | ReqPing _ => "ping"
  | ReqTimerList => "timer.list"
  | ReqTimerCancel _ => "timer.cancel"
  | ReqTimerCreate _ => "timer.create"
  end.

(** What the connection layer owns: [clients], the ready state of every
    socket, and the frames handed to [ws.send], oldest first, each with the
    socket it went to. A frame is kept as the message it was built from;
    the scheduler behind the server is private and filled from parsed JSON
    only, which [JSON.stringify] always serialises. *)
Record Connections : Type := mkConnections {
  clients : list nat;
  readyState : nat -> ReadyState;
  sent : list (nat * WsServerToClient)
}.

(** [send(ws, message)] *)
Definition send (ws : nat) (message : WsServerToClient) (c : Connections) : Connections :=
  if is_open (readyState c ws)
  then mkConnections (clients c) (readyState c) (sent c ++ [(ws, message)])%list
  else c.

Fixpoint send_each (targets : list nat) (message : WsServerToClient) (c : Connections)
  : Connections :=
  match targets with
  | [] => c
  | ws :: rest => send_each rest message (send ws message c)
  end.

(** [broadcast(message)] *)
Definition broadcast (message : WsServerToClient) (c : Connections) : Connections :=
  send_each (clients c) message c.

(** [mapTimerEvent(event)] *)
Definition mapTimerEvent (event : TimerEvent) : WsServerToClient :=
  match event with
  | timer_created t => WsTimerCreated t
  | timer_canceled k ok => WsTimerCanceled k ok
  | timer_fired t firedAt => WsTimerFired t firedAt
  | timer_list ts => WsTimerList ts
  | timer_error k m => WsTimerError k m
  end.

(** The listener of [scheduler.onEvent((event) => ...)] *)
Definition broadcast_listener : Listener Connections :=
  fun event c => (Ok tt, broadcast (mapTimerEvent event) c).

(** [x ?? ''] *)
Definition or_empty (v : value) : value :=
  match v with
  | VUndefined | VNull => VStr ""
  | _ => v
  end.

(** The number a value is, read only under [Number.isFinite]. *)
Definition number_of (v : value) : number :=
  match v with
  | VNum n => n
  | _ => NaN
  end.

(** The frames addressed to [ws] among [frames]. *)
Definition frames_to (ws : nat) (frames : list (nat * WsServerToClient))
  : list WsServerToClient :=
  map snd (filter (fun f => Nat.eqb (fst f) ws) frames).

Section Server.

Variable host : Host.
Variable path : string.
Variable port : number.

Local Abbreviation ServerState := (state Connections).
Local Abbreviation S_ := (M Connections).

(** An effect on the connections alone. *)
Definition on_connections (f : Connections -> Connections) : S_ unit :=
  fun s => (Ok tt, with_ext (f (ext s)) s).

(** [parseClientMessage(data)], the frame taken as its text. *)
Definition parseClientMessage (data : string) : option WsClientToServer :=
  let trimmed := String_trim host data in
  if String.eqb trimmed "" then None
  else
    match JSON_parse host trimmed with
    | None => None
    | Some parsed =>
        if negb (truthy parsed) || negb (typeof_object parsed) then None
        else
          match get_prop parsed "type" with
          | Ok (VStr type) =>
              if String.eqb type "ping" then
                match get_prop parsed "id" with
                | Ok (VStr k) => Some (ReqPing (Some k))
                | _ => Some (ReqPing None)
                end
              else if String.eqb type "timer.list" then Some ReqTimerList
              else if String.eqb type "timer.cancel" then
                match get_prop parsed "id" with
                | Ok (VStr k) => if String.eqb k "" then None else Some (ReqTimerCancel k)
                | _ => None
                end
              else if String.eqb type "timer.create" then
                match get_prop parsed "timer" with
                | Ok timer =>
                    if negb (truthy timer) || negb (typeof_object timer) then None
                    else Some (ReqTimerCreate timer)
                | Throw _ => None
                end
              else None
          | _ => None
          end
    end.

(** [normalizeTask(task)] *)
Definition normalizeTask (t : value) : result TimerTask :=
  match get_prop t "type" with
  | Throw e => Throw e
  | Ok ty =>
      match get_prop t "message" with
      | Throw e => Throw e
      | Ok m =>
          match js_String host (or_empty m) with
          | Throw e => Throw e
          | Ok text =>
              match get_prop t "data" with
              | Throw e => Throw e
              | Ok d =>
                  if is_string ty "log" then Ok (mkTask log text d)
                  else Ok (mkTask notify text d)
              end
          end
      end
  end.

(** [normalizeTimerCreateInput(input)] *)
Definition normalizeTimerCreateInput (input : value) : S_ TimerCreateInput :=
  m <- lift_result (get_prop input "mode") ;;
  if is_string m "once" then
    r <- lift_result (get_prop input "runAt") ;;
    runAt <- (if Number_isFinite r then ret (Math_floor (number_of r))
              else safeNow host (W := Connections)) ;;
    t <- lift_result (get_prop input "task") ;;
    t' <- lift_result (normalizeTask t) ;;
    ret (CreateOnce runAt t')
  else
    e <- lift_result (get_prop input "everyMs") ;;
    let every := if Number_isFinite e then Math_max (of_Z 50) (Math_floor (number_of e))
                 else of_Z 1000 in
    a <- lift_result (get_prop input "startAt") ;;
    let startAt := match a with
                   | VUndefined => None
                   | _ => if Number_isFinite a then Some (Math_floor (number_of a)) else None
                   end in
    t <- lift_result (get_prop input "task") ;;
    t' <- lift_result (normalizeTask t) ;;
    ret (CreateInterval every startAt t').

(** [handleRequest({ ws, request })] *)
Definition handleRequest (ws : nat) (request : WsClientToServer) : S_ unit :=
  match request with
  | ReqPing k => on_connections (send ws (WsPong k))
  | ReqTimerList =>
      ts <- listTimers (W := Connections) ;;
      on_connections (send ws (WsTimerList ts))
  | ReqTimerCancel k =>
      cancelTimer k ;;;
      ret tt
  | ReqTimerCreate timer =>
      normalized <- normalizeTimerCreateInput timer ;;
      createTimer host normalized ;;;
      ret tt
  end.

(** [ws.on('message', (data) => ...)] *)
Definition on_message (ws : nat) (data : string) : S_ unit :=
  match parseClientMessage data with
  | None => on_connections (send ws (WsError "无法解析消息（需要 JSON）" None))
  | Some request =>
      try_catch (handleRequest ws request)
        (fun e =>
           on_connections
             (send ws (WsError (exn_message e) (Some (request_type request)))))
  end.

(** [wss.on('connection', (ws) => ...)] up to the registration of the
    socket's handlers. *)
Definition on_connection (ws : nat) : S_ unit :=
  on_connections
    (fun c =>
       if existsb (Nat.eqb ws) (clients c) then c
       else mkConnections (clients c ++ [ws])%list (readyState c) (sent c)) ;;;
  now <- safeNow host (W := Connections) ;;
  on_connections (send ws (WsHello now path port)) ;;;
  ts <- listTimers (W := Connections) ;;
  on_connections (send ws (WsTimerList ts)).

(** [ws.on('close', () => clients.delete(ws))] *)
Definition on_close (ws : nat) : S_ unit :=
  on_connections
    (fun c =>
       mkConnections (filter (fun x => negb (Nat.eqb x ws)) (clients c))
                     (readyState c) (sent c)).

(** [ws.close()]: an open or connecting socket starts closing. *)
Definition ws_close (ws : nat) (c : Connections) : Connections :=
  mkConnections (clients c)
    (fun x =>
       if Nat.eqb x ws then
         match readyState c x with
         | OPEN | CONNECTING => CLOSING
         | r => r
         end
       else readyState c x)
    (sent c).

(** [close()] of the running server, up to closing the listeners:
    [for (const ws of clients) ws.close()]. *)
Definition close : S_ unit :=
  on_connections (fun c => fold_left (fun acc ws => ws_close ws acc) (clients c) c).

(** [startTimerWsServer()]: a fresh scheduler with the broadcasting
    listener subscribed, no client yet. *)
Definition startTimerWsServer (ready : nat -> ReadyState) : ServerState :=
  snd (onEvent 0%nat broadcast_listener
         (createTimerScheduler (mkConnections [] ready []))).

End Server.

(* ===================================================================== *)
(** ** Histories of the scheduler *)
(* ===================================================================== *)

Section Histories.

Variable host : Host.
Variable W : Type.

(** What can happen to a scheduler: a call of its interface, or the host
    running what was armed under a handle. *)
Inductive Action : Type :=
| ActCreate (input : TimerCreateInput)
| ActCancel (k : string)
| ActList
| ActSubscribe (key : nat) (listener : Listener W)
| ActUnsubscribe (key : nat)
| ActFire (h : nat).

Definition perform (a : Action) : M W unit :=
  match a with
  | ActCreate input => createTimer host input ;;; ret tt
  | ActCancel k => cancelTimer k ;;; ret tt
  | ActList => listTimers (W := W) ;;; ret tt
  | ActSubscribe key listener => onEvent key listener
  | ActUnsubscribe key => unsubscribe key
  | ActFire h => host_fire host h
  end.

(** The state after a history; an exception that escapes an action is the
    caller's or the host's to deal with, the scheduler's state stays. *)
Fixpoint run (acts : list Action) (s : state W) : state W :=
  match acts with
  | [] => s
  | a :: rest => run rest (snd (perform a s))
  end.

Definition reachable (s : state W) : Prop :=
  exists (w : W) (acts : list Action), s = run acts (createTimerScheduler w).

(** No listener of [s] ever throws. *)
Definition quiet (s : state W) : Prop :=
  forall key l event w, In (key, l) (listeners s) -> fst (l event w) = Ok tt.

(** Some listener of [s] throws [x] when handed [event]. *)
Definition listener_throws (s : state W) (event : TimerEvent) (x : exn) : Prop :=
  exists key l w, In (key, l) (listeners s) /\ fst (l event w) = Throw x.

End Histories.

Arguments ActCreate {W} input.
Arguments ActCancel {W} k.
Arguments ActList {W}.
Arguments ActUnsubscribe {W} key.
Arguments ActFire {W} h.

(* ===================================================================== *)
(** ** The request correlator: [waitFor] in [executeTimerAction] *)
(* ===================================================================== *)

Module Correlator.

Section WaitFor.

Variable host : Host.
(** [timeoutMs] of [getTimerWsConfig()] *)
Variable timeoutMs : number.
(** what the wait resolves to, and the [predicate] it was given *)
Variable T : Type.
Variable predicate : value -> option T.

Inductive Promise : Type :=
| Pending
| Resolved (v : T)
| Rejected (e : exn).

(** The wait: its promise, whether its timeout is still armed, and which
    of its three listeners are still on the socket. *)
Record Wait : Type := mkWait {
  promise : Promise;
  timer_armed : bool;
  message_listener : bool;
  error_listener : bool;
  close_listener : bool
}.

(** What the host may deliver while the wait exists. *)
Inductive Event : Type :=
| TimerElapsed
| Message (text : string)
| ConnError
| ConnClose.

Definition timeout_error : exn :=
  ErrorObj ("定时器服务超时（" ++ Number_toString host timeoutMs ++ "ms）").

Definition error_error : exn := ErrorObj "定时器服务连接错误".

Definition close_error : exn := ErrorObj "定时器服务连接已关闭".

(** [resolve]/[reject]: only the first call settles the promise. *)
Definition settle (outcome : Promise) (w : Wait) : Wait :=
  match promise w with
  | Pending =>
      mkWait outcome (timer_armed w) (message_listener w) (error_listener w)
             (close_listener w)
  | _ => w
  end.

(** [cleanup()] *)
Definition cleanup (w : Wait) : Wait := mkWait (promise w) false false false false.

(** the [setTimeout] callback *)
Definition onTimeout (w : Wait) : Wait := settle (Rejected timeout_error) (cleanup w).

(** [onMessage(event)], the frame taken as its text *)
Definition onMessage (text : string) (w : Wait) : Wait :=
  match JSON_parse host text with
  | None => w
  | Some parsed =>
      match predicate parsed with
      | Some found => settle (Resolved found) (cleanup w)
      | None => w
      end
  end.

Definition onError (w : Wait) : Wait := settle (Rejected error_error) (cleanup w).

Definition onClose (w : Wait) : Wait := settle (Rejected close_error) (cleanup w).

(** [waitFor(predicate)] right after the promise's executor ran. *)
Definition waitFor : Wait := mkWait Pending true true true true.

(** The host delivers an event to whoever is still registered for it. *)
Definition deliver (ev : Event) (w : Wait) : Wait :=
  match ev with
  | TimerElapsed => if timer_armed w then onTimeout w else w
  | Message text => if message_listener w then onMessage text w else w
  | ConnError => if error_listener w then onError w else w
  | ConnClose => if close_listener w then onClose w else w
  end.

Fixpoint deliver_all (evs : list Event) (w : Wait) : Wait :=
  match evs with
  | [] => w
  | ev :: rest => deliver_all rest (deliver ev w)
  end.

(** A frame that does not end the wait: not JSON, or not the reply. *)
Definition no_match (ev : Event) : Prop :=
  match ev with
  | Message text =>
      match JSON_parse host text with
      | None => True
      | Some parsed => predicate parsed = None
      end
  | _ => False
  end.

(** While the promise is pending the timeout is armed and the three
    listeners are on the socket; once it is settled none of them is. *)
Definition consistent (w : Wait) : Prop :=
  match promise w with
  | Pending =>
      timer_armed w = true /\ message_listener w = true /\
      error_listener w = true /\ close_listener w = true
  | _ =>
      timer_armed w = false /\ message_listener w = false /\
      error_listener w = false /\ close_listener w = false
  end.

End WaitFor.

Arguments Pending {T}.
Arguments Rejected {T} e.
Arguments waitFor {T}.

End Correlator.

(* ===================================================================== *)
(** ** Vocabulary of the specification *)
(* ===================================================================== *)

(** The request shapes section 4.2 of the specification recognises: an
    object whose [type] is [ping], [timer.list], [timer.cancel] with a
    non-empty string [id], or [timer.create] with an object [timer]. *)
Definition recognized_shape (parsed : value) : bool :=
  match parsed with
  | VObj fields =>
      match own_property fields "type" with
      | Some (VStr ty) =>
          if String.eqb ty "ping" then true
          else if String.eqb ty "timer.list" then true
          else if String.eqb ty "timer.cancel" then
            match own_property fields "id" with
            | Some (VStr k) => negb (String.eqb k "")
            | _ => false
            end
          else if String.eqb ty "timer.create" then
            match own_property fields "timer" with
            | Some (VObj _) => true
            | _ => false
            end
          else false
      | _ => false
      end
  | _ => false
  end.

(** The JSON value a frame holds, if it holds one. *)
Definition frame_json (host : Host) (data : string) : option value :=
  if String.eqb (String_trim host data) "" then None
  else JSON_parse host (String_trim host data).

(** A frame that is not valid JSON or not of a recognised shape. *)
Definition malformed (host : Host) (data : string) : Prop :=
  match frame_json host data with
  | None => True
  | Some parsed => recognized_shape parsed = false
  end.

(** Every numeric field of a create input is finite. *)
Definition finite_input (input : TimerCreateInput) : bool :=
  match input with
  | CreateOnce runAt _ => num_isFinite runAt
  | CreateInterval every startAt _ =>
      num_isFinite every &&
      match startAt with
      | Some a => num_isFinite a
      | None => true
      end
  end.


Definition is_NaN (n : number) : bool :=
  match n with NaN => true | _ => false end.

(** Between [s] and [s'] the host was asked to arm a timer with delay
    [delta]: a handle is armed in [s'] that the host had not given out. *)
Definition armed_between {W : Type} (s s' : state W) (delta : number) : Prop :=
  exists h t,
    (next_handle s <= h)%nat /\
    In (h, t) (host_timers s') /\
    ht_delay t = delta.

(** [s'] differs from [s] at most in what the listeners own, the record
    of emitted events and the console. *)
Definition same_schedule {W : Type} (s s' : state W) : Prop :=
  timers s' = timers s /\
  listeners s' = listeners s /\
  host_timers s' = host_timers s /\
  next_handle s' = next_handle s /\
  clock_reads s' = clock_reads s /\
  id_draws s' = id_draws s.

(** Every entry of the map sits under the identifier its info carries. *)
Definition ids_agree (m : list (string * InternalTimer)) : Prop :=
  forall k t, In (k, t) m -> id (info t) = k.

(** From [s] to [s'] the map stays well-formed, at most one identifier
    is drawn, and an identifier that is absent and is not the one drawn
    stays absent. *)
Definition keeps_out (host : Host) {W : Type} (k : string) (s s' : state W) : Prop :=
  (ids_agree (timers s) -> ids_agree (timers s')) /\
  (id_draws s <= id_draws s' <= S (id_draws s))%nat /\
  (map_get (timers s) k = None ->
   randomUUID host (id_draws s) <> k ->
   map_get (timers s') k = None).

(** A live timer with identifier [k] exists. *)
Definition tracked {W : Type} (s : state W) (k : string) : bool :=
  match map_get (timers s) k with
  | Some _ => true
  | None => false
  end.

(** [v.k] for a [v] that is an object or an array. *)
Definition field (v : value) (k : string) : value :=
  match get_prop v k with
  | Ok x => x
  | Throw _ => VUndefined
  end.

(** What [parseClientMessage] lets through as [timer]: [timer] is truthy
    and [typeof timer === 'object']. *)
Definition is_object (v : value) : bool := truthy v && typeof_object v.

(** The task the specification describes for a wire task [t] that is not
    [undefined] or [null]: kind [log] only when [type] says so, the message
    coerced to a string (the empty one when missing), the data as sent. *)
Definition task_as_specified (text : string) (t : value) : TimerTask :=
  mkTask (if is_string (field t "type") "log" then log else notify) text (field t "data").

(** The create input the specification describes for a wire payload:
    a non-finite [runAt] replaced by the current time, a non-finite
    [everyMs] by 1000, finite ones floored and [everyMs] raised to 50, a
    finite [startAt] floored and any other dropped. *)
Definition input_as_specified (now : number) (input : value) (t : TimerTask)
  : TimerCreateInput :=
  if is_string (field input "mode") "once" then
    CreateOnce
      (if Number_isFinite (field input "runAt")
       then Math_floor (number_of (field input "runAt"))
       else now)
      t
  else
    CreateInterval
      (if Number_isFinite (field input "everyMs")
       then Math_max (of_Z 50) (Math_floor (number_of (field input "everyMs")))
       else of_Z 1000)
      (if Number_isFinite (field input "startAt")
       then Some (Math_floor (number_of (field input "startAt")))
       else None)
      t.

(** The state after [normalizeTimerCreateInput]: the clock was read once
    when, and only when, a one-shot payload had no finite [runAt]. *)
Definition after_normalize (input : value) (s : state Connections) : state Connections :=
  if is_string (field input "mode") "once" && negb (Number_isFinite (field input "runAt"))
  then with_clock_reads (S (clock_reads s)) s
  else s.

(** The reply [handleRequest] sends straight to the requester, for the
    two requests that have one. *)
Definition direct_reply (s : state Connections) (request : WsClientToServer)
  : option WsServerToClient :=
  match request with
  | ReqPing k => Some (WsPong k)
  | ReqTimerList => Some (WsTimerList (map info (map_values (timers s))))
  | _ => None
  end.

(** What one [send(ws, message)] changes on the server: nothing of the
    scheduler, no client, no ready state, no frame for another socket, and
    for [ws] the one frame if it is open. *)
Definition only_unicast (ws : nat) (message : WsServerToClient)
  (s s' : state Connections) : Prop :=
  same_schedule s s' /\
  emitted s' = emitted s /\
  clients (ext s') = clients (ext s) /\
  readyState (ext s') = readyState (ext s) /\
  (forall other, other <> ws ->
                 frames_to other (sent (ext s')) = frames_to other (sent (ext s))) /\
  frames_to ws (sent (ext s')) =
    (frames_to ws (sent (ext s)) ++
     (if is_open (readyState (ext s) ws) then [message] else []))%list.

(* ===================================================================== *)
(** ** A concrete host and concrete runs *)
(* ===================================================================== *)

Fixpoint tally (n : nat) : string :=
  match n with
  | O => ""
  | S m => "I" ++ tally m
  end.

(** A clock that advances 7 ms per reading from 1000, identifiers
    [timer_], [timer_I], [timer_II], ..., a serialiser that refuses BigInts,
    a parser that knows three texts, and a [trim] with nothing to trim. *)
Definition demo_host : Host :=
  mkHost
    (fun n => 1000 + 7 * Z.of_nat n)
    (fun n => "timer_" ++ tally n)
    (fun v => match v with
              | VBigInt _ => Throw (ErrorObj "Do not know how to serialize a BigInt")
              | _ => Ok "{}"
              end)
    (fun text =>
       if String.eqb text "null" then Some VNull
       else if String.eqb text "[]" then Some (VArr [])
       else if String.eqb text "{}" then Some (VObj [])
       else None)
    (fun text => text)
    (fun _ => "2000")
    (fun _ => "0").

Definition tick_task : TimerTask := mkTask notify "tick" VUndefined.


(** A scheduler with one recording subscriber. *)
Definition recorder : Listener (list TimerEvent) :=
  fun event seen => (Ok tt, (seen ++ [event])%list).

Definition demo_scheduler : state (list TimerEvent) :=
  snd (onEvent 0%nat recorder (createTimerScheduler [])).

(** ... after [createTimer({mode:'interval', everyMs:10, task})] ... *)
Definition demo_interval_created : state (list TimerEvent) :=
  run demo_host [ActCreate (CreateInterval (of_Z 10) None tick_task)] demo_scheduler.

(** ... and after the host ran its first timeout. *)
Definition demo_interval_started : state (list TimerEvent) :=
  run demo_host [ActFire 0%nat] demo_interval_created.

(** A scheduler after [createTimer({mode:'once', runAt:0, task})]. *)
Definition demo_once_created : state (list TimerEvent) :=
  run demo_host [ActCreate (CreateOnce (of_Z 0) tick_task)] demo_scheduler.


(** [{mode:'once', runAt:Infinity, task:{type:'log'}}] as parsed. *)
Definition demo_payload : value :=
  VObj [("mode", VStr "once"); ("runAt", VNum PosInf); ("task", VObj [("type", VStr "log")])].

(** A server with two open sockets, 1 and 2. *)
Definition demo_server : state Connections :=
  snd (on_connection demo_host "/ws" (of_Z 3001) 2%nat
         (snd (on_connection demo_host "/ws" (of_Z 3001) 1%nat
                 (startTimerWsServer (fun _ => OPEN))))).

(* ===================================================================== *)
(** ** The scheduler's two tables, side by side *)
(* ===================================================================== *)

(** The identifier a closure captured. *)
Definition callback_id (cb : callback) : string :=
  match cb with
  | OnceHook k | IntervalFirstHook k _ | IntervalTickHook k _ => k
  end.

(** How the code arms each of its closures: the one-shot hook and the
    first hook of an interval timer by [setTimeout], the tick hook by
    [setInterval] with the period it captured. *)
Definition armed_as_written (t : HostTimer) : Prop :=
  match ht_callback t with
  | OnceHook _ | IntervalFirstHook _ _ => ht_kind t = ByTimeout
  | IntervalTickHook _ every => ht_kind t = ByInterval /\ ht_delay t = every
  end.

(** The host timer [t] is the one a timer with info [i] waits on. *)
Definition backs (t : HostTimer) (i : TimerInfo) : Prop :=
  match ht_callback t with
  | OnceHook k => k = id i /\ mode i = once
  | IntervalFirstHook k every | IntervalTickHook k every =>
      k = id i /\ mode i = interval /\ everyMs i = Some every
  end.

(** The map of live timers and the host's table of armed timers match
    one to one: keys and handles are not repeated, every entry sits under
    its own identifier and holds a handle that is armed with its own hook,
    every armed handle is the one its timer holds, and every identifier in
    use was drawn from [createId]. *)
Definition in_step (host : Host) {W : Type} (s : state W) : Prop :=
  NoDup (map fst (timers s)) /\
  ids_agree (timers s) /\
  NoDup (map fst (host_timers s)) /\
  (forall h t, In (h, t) (host_timers s) ->
               (h < next_handle s)%nat /\ armed_as_written t) /\
  (forall k e, In (k, e) (timers s) ->
               exists t, In (handle e, t) (host_timers s) /\ backs t (info e)) /\
  (forall h t, In (h, t) (host_timers s) ->
               exists e, In (callback_id (ht_callback t), e) (timers s) /\ handle e = h) /\
  (forall k e, In (k, e) (timers s) ->
               exists n, (n < id_draws s)%nat /\ randomUUID host n = k).

(** [createId()] never returns the same identifier twice. *)
Definition fresh_ids (host : Host) : Prop :=
  forall a b, randomUUID host a = randomUUID host b -> a = b.

(** What [listTimers()] returns in [s]. *)
Definition snapshot {W : Type} (s : state W) : list TimerInfo :=
  map info (map_values (timers s)).
(* ===================================================================== *)
(** ** timerWsServer.ts: the upgrade gate and the server's life *)
(* ===================================================================== *)

(** [s.split(sep)] for a one-character separator: never empty, the empty
    string gives one empty piece. *)
Fixpoint split_on (sep : ascii) (s : string) : list string :=
  match s with
  | EmptyString => [""]
  | String c rest =>
      if Ascii.eqb c sep then "" :: split_on sep rest
      else
        match split_on sep rest with
        | [] => [String c ""]
        | first :: more => String c first :: more
        end
  end.

(** The origins allowed when [TIMER_WS_ALLOWED_ORIGINS] names none. *)
Definition default_origins : list string :=
  ["http://localhost:3000"; "http://127.0.0.1:3000"].

(** [parseAllowedOrigins(raw)] *)
Definition parseAllowedOrigins (host : Host) (raw : option string) : list string :=
  let items :=
    filter (fun x => negb (String.eqb x ""))
      (map (String_trim host)
         (split_on "," (match raw with Some r => r | None => "" end))) in
  match items with
  | [] => default_origins
  | _ :: _ => items
  end.

(** [isOriginAllowed({ origin, allowedOrigins })] *)
Definition isOriginAllowed (host : Host) (origin : string) (allowedOrigins : list string)
  : bool :=
  let origin := String_trim host origin in
  if String.eqb origin "" then true
  else existsb (String.eqb origin) allowedOrigins.

(** The host moving a socket to another ready state. *)
Definition set_readyState (ws : nat) (r : ReadyState) (c : Connections) : Connections :=
  mkConnections (clients c)
    (fun x => if Nat.eqb x ws then r else readyState c x)
    (sent c).

Section ServerLife.

Variable host : Host.
Variable path : string.
Variable port : number.
Variable allowedOrigins : list string.

(** [server.on('upgrade', (req, socket, head) => ...)]: [url] is
    [req.url], [origin] the [Origin] header if there is one, [ws] the
    socket [handleUpgrade] would produce. A destroyed socket never becomes
    a client. *)
Definition on_upgrade (ws : nat) (url origin : option string) : M Connections unit :=
  if negb (match url with Some u => String.eqb u path | None => false end) then ret tt
  else if negb (isOriginAllowed host (match origin with Some o => o | None => "" end)
                  allowedOrigins) then ret tt
  else on_connection host path port ws.

(** What can happen to a running server. *)
Inductive ServerAction : Type :=
| SrvUpgrade (ws : nat) (url origin : option string)
| SrvMessage (ws : nat) (data : string)
| SrvSocketClosed (ws : nat)
| SrvReadyState (ws : nat) (r : ReadyState)
| SrvFire (h : nat)
| SrvShutdown.

Definition server_perform (a : ServerAction) : M Connections unit :=
  match a with
  | SrvUpgrade ws url origin => on_upgrade ws url origin
  | SrvMessage ws data => on_message host ws data
  | SrvSocketClosed ws => on_close ws
  | SrvReadyState ws r => on_connections (set_readyState ws r)
  | SrvFire h => host_fire host h
  | SrvShutdown => close
  end.

Fixpoint server_run (acts : list ServerAction) (s : state Connections) : state Connections :=
  match acts with
  | [] => s
  | a :: rest => server_run rest (snd (server_perform a s))
  end.

Definition server_reachable (s : state Connections) : Prop :=
  exists (ready : nat -> ReadyState) (acts : list ServerAction),
    s = server_run acts (startTimerWsServer ready).

(** The socket an action is about, if it is about one as a peer. *)
Definition concerns (ws : nat) (a : ServerAction) : bool :=
  match a with
  | SrvUpgrade x _ _ | SrvMessage x _ => Nat.eqb x ws
  | _ => false
  end.

End ServerLife.

(** [x] is a client with an open socket. *)
Definition open_client (c : Connections) (x : nat) : bool :=
  existsb (Nat.eqb x) (clients c) && is_open (readyState c x).

(** What a server state must satisfy: the one subscriber is the
    broadcasting listener and no client is listed twice. *)
Definition serving (s : state Connections) : Prop :=
  listeners s = [(0%nat, broadcast_listener)] /\ NoDup (clients (ext s)).
(** [c'] is [c] after some frames were sent, each either to [who] alone or
    to every client. *)
Inductive spoke (who : nat) : Connections -> Connections -> Prop :=
| spoke_nothing c : spoke who c c
| spoke_unicast c c' m : spoke who c c' -> spoke who c (send who m c')
| spoke_broadcast c c' m : spoke who c c' -> spoke who c (broadcast m c').

(** The info [createTimer] builds for [input], given the identifier it
    drew and the time it read. *)
Definition created_info (input : TimerCreateInput) (k : string) (created : number)
  : TimerInfo :=
  match input with
  | CreateOnce runAt t => mkInfo k once created (clampMin runAt created) None None t
  | CreateInterval every startAt t =>
      mkInfo k interval created
        (clampMin (match startAt with Some a => a | None => created end) created)
        (Some (clampMin (Math_floor every) (of_Z 50))) None t
  end.

(** The task and the mode a create input names. *)
Definition input_task (input : TimerCreateInput) : TimerTask :=
  match input with
  | CreateOnce _ t | CreateInterval _ _ t => t
  end.

Definition input_mode (input : TimerCreateInput) : TimerMode :=
  match input with
  | CreateOnce _ _ => once
  | CreateInterval _ _ _ => interval
  end.

(** Two frames as a client writes them, and a host whose parser knows
    them besides what [demo_host]'s knows. *)
Definition quoted (s : string) : string :=
  String "034"%char s ++ String "034"%char "".

Definition cancel_frame_text : string :=
  "{" ++ quoted "type" ++ ":" ++ quoted "timer.cancel" ++ "," ++
  quoted "id" ++ ":" ++ quoted "timer_" ++ "}".

Definition create_frame_text : string :=
  "{" ++ quoted "type" ++ ":" ++ quoted "timer.create" ++ "," ++
  quoted "timer" ++ ":{" ++ quoted "mode" ++ ":" ++ quoted "once" ++ "," ++
  quoted "runAt" ++ ":5000," ++
  quoted "task" ++ ":{" ++ quoted "type" ++ ":" ++ quoted "notify" ++ "," ++
  quoted "message" ++ ":" ++ quoted "tick" ++ "}}}".

Definition create_frame_payload : value :=
  VObj [("mode", VStr "once"); ("runAt", VNum (of_Z 5000));
        ("task", VObj [("type", VStr "notify"); ("message", VStr "tick")])].

Definition demo_wire_host : Host :=
  mkHost (Date_now demo_host) (randomUUID demo_host) (JSON_stringify demo_host)
    (fun text =>
       if String.eqb text cancel_frame_text
       then Some (VObj [("type", VStr "timer.cancel"); ("id", VStr "timer_")])
       else if String.eqb text create_frame_text
       then Some (VObj [("type", VStr "timer.create"); ("timer", create_frame_payload)])
       else JSON_parse demo_host text)
    (String_trim demo_host) (Number_toString demo_host) (BigInt_toString demo_host).

(** [demo_server] after the second frame arrived from socket 1. *)
Definition demo_server_created : state Connections :=
  snd (on_message demo_wire_host 1%nat create_frame_text demo_server).

(* ===================================================================== *)
(** ** The chat route: timer actions and their replies *)
(* ===================================================================== *)

Module Route.

Inductive TimerAction : Type :=
| ListAction
| CancelAction (id : string)
| CreateAction (timer : TimerCreateInput).

(** [normalizeTimerTask(input)] *)
Definition normalizeTimerTask (input : value) : option TimerTask :=
  if negb (truthy input) || negb (typeof_object input) then None
  else
    match field input "message" with
    | VStr message =>
        if is_string (field input "type") "log"
        then Some (mkTask log message (field input "data"))
        else if is_string (field input "type") "notify"
        then Some (mkTask notify message (field input "data"))
        else None
    | _ => None
    end.

(** [normalizeTimerCreateInput(input)] of the route: it rejects where the
    server's function of the same name substitutes a default. *)
Definition normalizeTimerCreateInput (input : value) : option TimerCreateInput :=
  if negb (truthy input) || negb (typeof_object input) then None
  else
    match normalizeTimerTask (field input "task") with
    | None => None
    | Some t =>
        if is_string (field input "mode") "once" then
          if Number_isFinite (field input "runAt")
          then Some (CreateOnce (Math_floor (number_of (field input "runAt"))) t)
          else None
        else if is_string (field input "mode") "interval" then
          if Number_isFinite (field input "everyMs")
          then Some (CreateInterval
                       (Math_max (of_Z 50) (Math_floor (number_of (field input "everyMs"))))
                       (if Number_isFinite (field input "startAt")
                        then Some (Math_floor (number_of (field input "startAt")))
                        else None)
                       t)
          else None
        else None
    end.

(** [normalizeTimerAction(input)] *)
Definition normalizeTimerAction (input : value) : option TimerAction :=
  if negb (truthy input) || negb (typeof_object input) then None
  else if is_string (field input "name") "timer.list" then Some ListAction
  else if is_string (field input "name") "timer.cancel" then
    match field input "id" with
    | VStr k => if String.eqb k "" then None else Some (CancelAction k)
    | _ => None
    end
  else if is_string (field input "name") "timer.create" then
    match normalizeTimerCreateInput (field input "timer") with
    | Some n => Some (CreateAction n)
    | None => None
    end
  else None.

(** [{ ...fields, k: v }]: an existing key keeps its place. *)
Fixpoint set_property (fields : list (string * value)) (k : string) (v : value)
  : list (string * value) :=
  match fields with
  | [] => [(k, v)]
  | (k', v') :: rest =>
      if String.eqb k k' then (k, v) :: rest else (k', v') :: set_property rest k v
  end.

(** [withRequestId(task, requestId)] *)
Definition withRequestId (t : TimerTask) (requestId : string) : TimerTask :=
  match task_data t with
  | VObj original =>
      mkTask (task_type t) (task_message t)
        (VObj (set_property original "__requestId" (VStr requestId)))
  | VUndefined =>
      mkTask (task_type t) (task_message t) (VObj [("__requestId", VStr requestId)])
  | original =>
      mkTask (task_type t) (task_message t)
        (VObj [("value", original); ("__requestId", VStr requestId)])
  end.

(** [{ ...action.timer, task: withRequestId(action.timer.task, requestId) }] *)
Definition tagged (n : TimerCreateInput) (requestId : string) : TimerCreateInput :=
  match n with
  | CreateOnce runAt t => CreateOnce runAt (withRequestId t requestId)
  | CreateInterval every startAt t => CreateInterval every startAt (withRequestId t requestId)
  end.

(** The predicate of the [timer.list] wait. *)
Definition list_predicate (msg : value) : option (list value) :=
  if negb (truthy msg) || negb (typeof_object msg) then None
  else if negb (is_string (field msg "type") "timer.list") then None
  else
    match field msg "timers" with
    | VArr timers => Some timers
    | _ => None
    end.

(** The predicate of the [timer.cancel] wait, for [action.id]. *)
Definition canceled_predicate (action_id : string) (msg : value) : option bool :=
  if negb (truthy msg) || negb (typeof_object msg) then None
  else if negb (is_string (field msg "type") "timer.canceled") then None
  else if negb (is_string (field msg "id") action_id) then None
  else
    match field msg "ok" with
    | VBool ok => Some ok
    | _ => None
    end.

Record Created : Type := mkCreated {
  created_id : string;
  created_message : string;
  created_mode : string;
  created_everyMs : option number
}.

(** The predicate of the [timer.create] wait, for [requestId]. *)
Definition created_predicate (requestId : string) (msg : value) : option Created :=
  if negb (truthy msg) || negb (typeof_object msg) then None
  else if negb (is_string (field msg "type") "timer.created") then None
  else
    let t := field msg "timer" in
    if negb (truthy t) || negb (typeof_object t) then None
    else
      let tk := field t "task" in
      if negb (truthy tk) || negb (typeof_object tk) then None
      else
        let data := field tk "data" in
        let rid := if truthy data && typeof_object data
                   then field data "__requestId" else VUndefined in
        if negb (is_string rid requestId) then None
        else
          match field t "id", field t "mode", field tk "message" with
          | VStr k, VStr md, VStr message =>
              Some (mkCreated k message md
                      (match field t "everyMs" with
                       | VNum n => Some n
                       | _ => None
                       end))
          | _, _, _ => None
          end.

(** What a tool's [validate] returns: [{ success: true, value }] or
    [{ success: false, error: new Error(message) }]. *)
Inductive Validation (A : Type) : Type :=
| Accepted (value : A)
| Refused (message : string).
Arguments Accepted {A} value.
Arguments Refused {A} message.

(** [value && typeof value === 'object' && !Array.isArray(value)] *)
Definition is_plain_object (v : value) : bool :=
  match v with
  | VObj _ => true
  | _ => false
  end.

(** [validate] of the [timer_create] tool; what it accepts goes to
    [executeTimerAction] as it is. *)
Definition validate_timer_create (host : Host) (v : value) : Validation TimerCreateInput :=
  if negb (is_plain_object v) then Refused "timer_create 参数必须是对象"
  else if negb (is_string (field v "mode") "once") &&
          negb (is_string (field v "mode") "interval")
  then Refused "timer_create.mode 必须是 once 或 interval"
  else if negb (is_plain_object (field v "task"))
  then Refused "timer_create.task 必须是对象"
  else
    let taskObj := field v "task" in
    if negb (is_string (field taskObj "type") "notify") &&
       negb (is_string (field taskObj "type") "log")
    then Refused "timer_create.task.type 必须是 notify 或 log"
    else
      match field taskObj "message" with
      | VStr message =>
          if String.eqb (String_trim host message) ""
          then Refused "timer_create.task.message 必须是非空字符串"
          else
            let normalizedTask :=
              mkTask (if is_string (field taskObj "type") "log" then log else notify)
                (String_trim host message) (field taskObj "data") in
            if is_string (field v "mode") "once" then
              if Number_isFinite (field v "runAt")
              then Accepted (CreateOnce (number_of (field v "runAt")) normalizedTask)
              else Refused "timer_create.runAt 必须是有限数字"
            else if negb (Number_isFinite (field v "everyMs"))
            then Refused "timer_create.everyMs 必须是有限数字"
            else
              match field v "startAt" with
              | VUndefined =>
                  Accepted (CreateInterval (number_of (field v "everyMs")) None normalizedTask)
              | startAt =>
                  if Number_isFinite startAt
                  then Accepted (CreateInterval (number_of (field v "everyMs"))
                                   (Some (number_of startAt)) normalizedTask)
                  else Refused "timer_create.startAt 必须是有限数字"
              end
      | _ => Refused "timer_create.task.message 必须是非空字符串"
      end.

End Route.

(* ===================================================================== *)
(** ** What crosses the wire *)
(* ===================================================================== *)

(** The value [JSON.parse] gives back for what [JSON.stringify] wrote, for
    the shapes the two sides exchange: a property whose value is
    [undefined] is left out, a number that is not finite comes back as
    [null]. Task data is taken as it is: on either side it was itself
    parsed from JSON, or built from such values by [withRequestId]. *)
Definition json_of_number (n : number) : value :=
  if num_isFinite n then VNum n else VNull.

Definition json_of_task (t : TimerTask) : value :=
  VObj ([("type", VStr (match task_type t with log => "log" | notify => "notify" end));
         ("message", VStr (task_message t))] ++
        match task_data t with
        | VUndefined => []
        | d => [("data", d)]
        end)%list.

Definition json_of_mode (m : TimerMode) : value :=
  VStr (match m with once => "once" | interval => "interval" end).

Definition json_of_input (n : TimerCreateInput) : value :=
  match n with
  | CreateOnce runAt t =>
      VObj [("mode", VStr "once"); ("runAt", json_of_number runAt); ("task", json_of_task t)]
  | CreateInterval every startAt t =>
      VObj ([("mode", VStr "interval"); ("everyMs", json_of_number every)] ++
            match startAt with
            | Some a => [("startAt", json_of_number a)]
            | None => []
            end ++
            [("task", json_of_task t)])%list
  end.

Definition json_of_info (i : TimerInfo) : value :=
  VObj ([("id", VStr (id i)); ("mode", json_of_mode (mode i));
         ("createdAt", json_of_number (createdAt i));
         ("nextRunAt", json_of_number (nextRunAt i))] ++
        match everyMs i with
        | Some e => [("everyMs", json_of_number e)]
        | None => []
        end ++
        [("task", json_of_task (task i))] ++
        match lastRunAt i with
        | Some a => [("lastRunAt", json_of_number a)]
        | None => []
        end)%list.

Definition json_of_optional (k : string) (v : option string) : list (string * value) :=
  match v with
  | Some x => [(k, VStr x)]
  | None => []
  end.

(** A frame of the server as a client parses it. *)
Definition json_of_frame (m : WsServerToClient) : value :=
  match m with
  | WsHello now path port =>
      VObj [("type", VStr "hello"); ("now", json_of_number now);
            ("ws", VObj [("path", VStr path); ("port", json_of_number port)])]
  | WsPong k => VObj (("type", VStr "pong") :: json_of_optional "id" k)
  | WsError message requestType =>
      VObj ([("type", VStr "error"); ("message", VStr message)] ++
            json_of_optional "requestType" requestType)%list
  | WsTimerCreated t => VObj [("type", VStr "timer.created"); ("timer", json_of_info t)]
  | WsTimerCanceled k ok =>
      VObj [("type", VStr "timer.canceled"); ("id", VStr k); ("ok", VBool ok)]
  | WsTimerFired t firedAt =>
      VObj [("type", VStr "timer.fired"); ("timer", json_of_info t);
            ("firedAt", json_of_number firedAt)]
  | WsTimerList ts => VObj [("type", VStr "timer.list"); ("timers", VArr (map json_of_info ts))]
  | WsTimerError k message =>
      VObj (("type", VStr "timer.error") ::
            (json_of_optional "id" k ++ [("message", VStr message)])%list)
  end.

(** The request the route writes for an action, as the server parses it. *)
Definition json_of_action (a : Route.TimerAction) (requestId : string) : value :=
  match a with
  | Route.ListAction => VObj [("type", VStr "timer.list")]
  | Route.CancelAction k => VObj [("type", VStr "timer.cancel"); ("id", VStr k)]
  | Route.CreateAction n =>
      VObj [("type", VStr "timer.create"); ("timer", json_of_input (Route.tagged n requestId))]
  end.

(** The request the server should read from it. *)
Definition request_of_action (a : Route.TimerAction) (requestId : string) : WsClientToServer :=
  match a with
  | Route.ListAction => ReqTimerList
  | Route.CancelAction k => ReqTimerCancel k
  | Route.CreateAction n => ReqTimerCreate (json_of_input (Route.tagged n requestId))
  end.

(** What the server's normalisation makes of an input whose numbers are
    finite: times floored, the period floored and raised to 50. *)
Definition floored (n : TimerCreateInput) : TimerCreateInput :=
  match n with
  | CreateOnce runAt t => CreateOnce (Math_floor runAt) t
  | CreateInterval every startAt t =>
      CreateInterval (Math_max (of_Z 50) (Math_floor every))
        (match startAt with
         | Some a => Some (Math_floor a)
         | None => None
         end) t
  end.

(** Every number of a create input is an integer, and the period is at
    least 50. *)
Definition settled (n : TimerCreateInput) : Prop :=
  match n with
  | CreateOnce runAt _ => exists z, runAt = of_Z z
  | CreateInterval every startAt _ =>
      (exists z, every = of_Z z /\ (50 <= z)%Z) /\
      match startAt with
      | Some a => exists z, a = of_Z z
      | None => True
      end
  end.

(* ===================================================================== *)
(** ** The chat route: messages; the gateway route: paths *)
(* ===================================================================== *)

Module Chat.

Inductive Role : Type := user | assistant.

Record SimpleMessage : Type := mkMessage {
  role : Role;
  content : string
}.

(** [[{ role: 'user', content: '你好' }]] *)
Definition greeting : list SimpleMessage := [mkMessage user "你好"].

(** The body of the loop of [coerceMessages]: the message an item
    contributes, if it contributes one. *)
Definition coerce_item (item : value) : option SimpleMessage :=
  if negb (truthy item) || negb (typeof_object item) then None
  else
    match field item "role", field item "content" with
    | VStr r, VStr c =>
        if String.eqb r "user" then Some (mkMessage user c)
        else if String.eqb r "assistant" then Some (mkMessage assistant c)
        else None
    | _, _ => None
    end.

Fixpoint collect (items : list value) : list SimpleMessage :=
  match items with
  | [] => []
  | item :: rest =>
      match coerce_item item with
      | Some m => m :: collect rest
      | None => collect rest
      end
  end.

(** [coerceMessages(input)] *)
Definition coerceMessages (input : value) : list SimpleMessage :=
  match input with
  | VArr items =>
      match collect items with
      | [] => greeting
      | messages => messages
      end
  | _ => greeting
  end.

Definition role_name (r : Role) : string :=
  match r with user => "user" | assistant => "assistant" end.

(** A message as a client writes it. *)
Definition json_of_message (m : SimpleMessage) : value :=
  VObj [("role", VStr (role_name (role m))); ("content", VStr (content m))].

End Chat.

Module Gateway.

(** [s.replace(/\/+$/, '')] *)
Fixpoint strip_trailing_slashes (s : string) : string :=
  match s with
  | EmptyString => EmptyString
  | String c rest =>
      match strip_trailing_slashes rest with
      | EmptyString => if Ascii.eqb c "/" then EmptyString else String c EmptyString
      | kept => String c kept
      end
  end.

(** [s.replace(/^\/+/, '')] *)
Fixpoint strip_leading_slashes (s : string) : string :=
  match s with
  | String c rest => if Ascii.eqb c "/" then strip_leading_slashes rest else s
  | EmptyString => EmptyString
  end.

(** [s.startsWith('/')] *)
Definition starts_with_slash (s : string) : bool :=
  match s with
  | String c _ => Ascii.eqb c "/"
  | EmptyString => false
  end.

Fixpoint ends_with_slash (s : string) : bool :=
  match s with
  | EmptyString => false
  | String c EmptyString => Ascii.eqb c "/"
  | String _ rest => ends_with_slash rest
  end.

(** [joinUrlPath(basePath, extraPath)] *)
Definition joinUrlPath (basePath extraPath : string) : string :=
  let a := strip_trailing_slashes basePath in
  let b := strip_leading_slashes extraPath in
  if String.eqb a "" then "/" ++ b
  else if String.eqb b "" then (if starts_with_slash a then a else "/" ++ a)
  else (if starts_with_slash a then a else "/" ++ a) ++ "/" ++ b.

End Gateway.

(** A host whose parser knows a [hello] frame and a [timer.canceled]
    frame by one-letter texts standing for them. *)
Definition demo_reply_host : Host :=
  mkHost (Date_now demo_host) (randomUUID demo_host) (JSON_stringify demo_host)
    (fun text =>
       if String.eqb text "c" then Some (json_of_frame (WsTimerCanceled "timer_" true))
       else if String.eqb text "h" then Some (json_of_frame (WsHello (of_Z 1000) "/ws" (of_Z 3001)))
       else None)
    (String_trim demo_host) (Number_toString demo_host) (BigInt_toString demo_host).

(* ===================================================================== *)
(** ** memoryStore.ts *)
(* ===================================================================== *)

Module Memory.

Record MemoryItem : Type := mkItem {
  id : string;
  text : string;
  tags : list string;
  createdAt : number;
  updatedAt : number
}.

(** What the runtime decides about text: [toLowerCase], the replacement
    [s.replace(/\s+/g, ' ')], and the two regular-expression tests of
    [containsSecretLike]. *)
Record TextHost : Type := mkTextHost {
  toLowerCase : string -> string;
  collapse_whitespace : string -> string;
  vck_like : string -> bool;
  sk_like : string -> bool
}.

(** [s.includes(needle)] *)
Fixpoint includes (s needle : string) : bool :=
  String.prefix needle s ||
  match s with
  | String _ rest => includes rest needle
  | EmptyString => false
  end.

Section Store.

Variable host : Host.
Variable th : TextHost.

(** [normalizeText(text)] *)
Definition normalizeText (t : string) : string :=
  collapse_whitespace th (String_trim host t).

(** [containsSecretLike(text)] *)
Definition containsSecretLike (t : string) : bool :=
  let lower := toLowerCase th t in
  if includes lower "api_key" || includes lower "apikey" || includes lower "secret" ||
     includes lower "token" then true
  else if includes lower "bearer " then true
  else if vck_like th t then true
  else if sk_like th t then true
  else false.

(** The loaded snapshot and what stands behind it. [items] holds the item
    objects in order; [byId] maps an identifier to the position of the
    object it refers to, so that a change to an object shows through both;
    [appended] is what [addMemory] wrote to the file, oldest first. *)
Record Store : Type := mkStore {
  items : list MemoryItem;
  byId : list (string * nat);
  appended : list MemoryItem;
  clock_reads : nat;
  id_draws : nat
}.

(** [tags.filter((t) => typeof t === 'string')] for an array, [[]] otherwise *)
Definition string_items (v : value) : list string :=
  match v with
  | VArr l =>
      flat_map (fun x => match x with VStr s => [s] | _ => [] end) l
  | _ => []
  end.

(** One turn of the loop of [ensureLoaded], on one line of the file. *)
Definition load_line (line : string) (st : Store) : Store :=
  let trimmed := String_trim host line in
  if String.eqb trimmed "" then st
  else
    match JSON_parse host trimmed with
    | None => st
    | Some parsed =>
        if negb (truthy parsed) || negb (typeof_object parsed) then st
        else
          match field parsed "id", field parsed "text" with
          | VStr k, VStr t =>
              let created := field parsed "createdAt" in
              let updated := field parsed "updatedAt" in
              let c1 := clock_reads st in
              let createdAt := if Number_isFinite created then number_of created
                               else of_Z (Date_now host c1) in
              let c2 := if Number_isFinite created then c1 else S c1 in
              let updatedAt := if Number_isFinite updated then number_of updated
                               else of_Z (Date_now host c2) in
              let c3 := if Number_isFinite updated then c2 else S c2 in
              let item := mkItem k (normalizeText t) (string_items (field parsed "tags"))
                            createdAt updatedAt in
              if containsSecretLike (text item)
              then mkStore (items st) (byId st) (appended st) c3 (id_draws st)
              else mkStore (items st ++ [item])%list
                     (map_set (byId st) k (length (items st)))
                     (appended st) c3 (id_draws st)
          | _, _ => st
          end
    end.

(** [ensureLoaded()] on a file with these lines, nothing loaded before. *)
Definition ensureLoaded (lines : list string) (clock ids : nat) : Store :=
  fold_left (fun st line => load_line line st) lines (mkStore [] [] [] clock ids).

(** [loaded.items.find((m) => m.text === text)], as a position *)
Fixpoint find_text (l : list MemoryItem) (t : string) : option nat :=
  match l with
  | [] => None
  | m :: rest =>
      if String.eqb (text m) t then Some 0%nat
      else match find_text rest t with
           | Some k => Some (S k)
           | None => None
           end
  end.

(** [existing.updatedAt = now()] on the object at position [k] *)
Fixpoint touch (l : list MemoryItem) (k : nat) (now : number) : list MemoryItem :=
  match l, k with
  | [], _ => []
  | m :: rest, O => mkItem (id m) (text m) (tags m) (createdAt m) now :: rest
  | m :: rest, S k' => m :: touch rest k' now
  end.

(** [addMemory({ text, tags })] on the loaded snapshot; [None] is [null]. *)
Definition addMemory (input_text : string) (input_tags : option (list string)) (st : Store)
  : option MemoryItem * Store :=
  let t := normalizeText input_text in
  if String.eqb t "" then (None, st)
  else if containsSecretLike t then (None, st)
  else
    match find_text (items st) t with
    | Some k =>
        let now := of_Z (Date_now host (clock_reads st)) in
        let l := touch (items st) k now in
        (nth_error l k,
         mkStore l (byId st) (appended st) (S (clock_reads st)) (id_draws st))
    | None =>
        let item :=
          mkItem (randomUUID host (id_draws st)) t
            (match input_tags with Some ts => ts | None => [] end)
            (of_Z (Date_now host (clock_reads st)))
            (of_Z (Date_now host (S (clock_reads st)))) in
        (Some item,
         mkStore (items st ++ [item])%list
           (map_set (byId st) (id item) (length (items st)))
           (appended st ++ [item])%list
           (S (S (clock_reads st))) (S (id_draws st)))
    end.

(** The store after a file was loaded and some memories were added. *)
Fixpoint add_all (inputs : list (string * option (list string))) (st : Store) : Store :=
  match inputs with
  | [] => st
  | (t, ts) :: rest => add_all rest (snd (addMemory t ts st))
  end.

Definition reachable (st : Store) : Prop :=
  exists lines clock ids inputs, st = add_all inputs (ensureLoaded lines clock ids).

(** What the store holds is clean: no text in memory looks like a secret
    and each is a normalised text; what was written to the file is not
    blank either and is still in memory. *)
Definition clean_store (st : Store) : Prop :=
  (forall m, In m (items st) ->
     containsSecretLike (text m) = false /\
     exists raw, text m = normalizeText raw) /\
  (forall m, In m (appended st) ->
     containsSecretLike (text m) = false /\
     text m <> "" /\
     exists m', In m' (items st) /\ id m' = id m /\ text m' = text m).

End Store.

End Memory.

(** A text host that changes nothing and finds no key. *)
Definition demo_text_host : Memory.TextHost :=
  Memory.mkTextHost (fun s => s) (fun s => s) (fun _ => false) (fun _ => false).

(** The store after [addMemory({ text: 'likes tea' })] on an empty file. *)
Definition demo_store : Memory.Store :=
  snd (Memory.addMemory demo_host demo_text_host "likes tea" None
         (Memory.ensureLoaded demo_host demo_text_host [] 0 0)).

(* ===================================================================== *)
(** ** Facts about numbers, maps and tables *)
(* ===================================================================== *)

Lemma Qlt_bool_irrefl (q : Q) : Qlt_bool q q = false.
Proof.
  unfold Qlt_bool. apply negb_false_iff. apply Qle_bool_iff. apply Qle_refl.
Qed.

Lemma num_lt_irrefl (a : number) : num_lt a a = false.
Proof. destruct a; simpl; auto using Qlt_bool_irrefl. Qed.

Lemma clampMin_not_below (v m : number) : num_lt (clampMin v m) m = false.
Proof.
  unfold clampMin. destruct (num_lt v m) eqn:E; [apply num_lt_irrefl | exact E].
Qed.

Lemma num_ge_of_not_lt (a b : number) :
  is_NaN a = false -> is_NaN b = false -> num_lt a b = false -> num_ge a b = true.
Proof.
  intros Ha Hb H. destruct a, b; simpl in *; try discriminate; auto;
    rewrite H; reflexivity.
Qed.

Lemma clampMin_NaN (v m : number) :
  is_NaN v = false -> is_NaN m = false -> is_NaN (clampMin v m) = false.
Proof. unfold clampMin. intros Hv Hm. destruct (num_lt v m); assumption. Qed.

Lemma clampMin_ge (v m : number) :
  is_NaN v = false -> is_NaN m = false -> num_ge (clampMin v m) m = true.
Proof.
  intros Hv Hm. apply num_ge_of_not_lt; auto using clampMin_NaN, clampMin_not_below.
Qed.

Lemma clampMin_below (v m : number) : num_lt v m = true -> clampMin v m = m.
Proof. unfold clampMin. now intros ->. Qed.

Lemma Qlt_bool_inject (a b : Z) : Qlt_bool (inject_Z a) (inject_Z b) = Z.ltb a b.
Proof.
  unfold Qlt_bool, Qle_bool. simpl. rewrite !Z.mul_1_r. symmetry. apply Z.ltb_antisym.
Qed.

Lemma Math_floor_of_Z (z : Z) : Math_floor (of_Z z) = of_Z z.
Proof. unfold Math_floor, of_Z. now rewrite Qfloor_Z. Qed.

Lemma Math_floor_integer (n : number) :
  num_isFinite n = true -> exists z, Math_floor n = of_Z z.
Proof. destruct n as [ | | | q]; simpl; try discriminate. intros _. now exists (Qfloor q). Qed.

Lemma Math_max_50_of_Z (z : Z) : Math_max (of_Z 50) (of_Z z) = of_Z (Z.max 50 z).
Proof.
  unfold Math_max, of_Z, num_lt. rewrite Qlt_bool_inject.
  destruct (Z.ltb_spec 50 z); f_equal; f_equal; lia.
Qed.

Lemma clampMin_50_of_Z (z : Z) : (50 <= z)%Z -> clampMin (of_Z z) (of_Z 50) = of_Z z.
Proof.
  intros Hz. unfold clampMin, of_Z, num_lt. rewrite Qlt_bool_inject.
  destruct (Z.ltb_spec z 50); [lia | reflexivity].
Qed.

Lemma Math_floor_finite (n : number) :
  num_isFinite n = true -> num_isFinite (Math_floor n) = true.
Proof. destruct n; simpl; auto. Qed.


Lemma Qlt_bool_asym (p q : Q) : Qlt_bool p q = true -> Qlt_bool q p = false.
Proof.
  unfold Qlt_bool. intros H. apply negb_true_iff in H. apply negb_false_iff.
  apply Qle_bool_iff. apply Qlt_le_weak. apply Qnot_le_lt.
  intros G. apply Qle_bool_iff in G. congruence.
Qed.

Lemma Math_max_50 (n : number) :
  num_isFinite n = true ->
  num_isFinite (Math_max (of_Z 50) n) = true /\
  num_ge (Math_max (of_Z 50) n) (of_Z 50) = true.
Proof.
  destruct n as [ | | | q]; simpl; try discriminate. intros _.
  destruct (Qlt_bool (inject_Z 50) q) eqn:E; simpl.
  - split; [reflexivity |]. now rewrite (Qlt_bool_asym _ _ E).
  - split; reflexivity.
Qed.

Section MapFacts.
Variable V : Type.
Implicit Types (m : list (string * V)) (k : string) (v : V).

Lemma map_get_set_eq m k v : map_get (map_set m k v) k = Some v.
Proof.
  induction m as [| [k' v'] m IH]; simpl.
  - now rewrite String.eqb_refl.
  - destruct (String.eqb k k') eqn:E; simpl; [now rewrite String.eqb_refl |].
    now rewrite E.
Qed.

Lemma map_get_set_ne m k k' v : k <> k' -> map_get (map_set m k v) k' = map_get m k'.
Proof.
  intros Hne. induction m as [| [k0 v0] m IH]; simpl.
  - destruct (String.eqb k' k) eqn:E; [| reflexivity].
    apply String.eqb_eq in E. congruence.
  - destruct (String.eqb k k0) eqn:E; simpl.
    + apply String.eqb_eq in E. subst k0.
      destruct (String.eqb k' k) eqn:F; [| reflexivity].
      apply String.eqb_eq in F. congruence.
    + destruct (String.eqb k' k0); [reflexivity | exact IH].
Qed.

Lemma map_get_delete_eq m k : map_get (map_delete m k) k = None.
Proof.
  induction m as [| [k' v'] m IH]; simpl; [reflexivity |].
  destruct (String.eqb k k') eqn:E; simpl; [exact IH | now rewrite E].
Qed.

Lemma map_get_delete_ne m k k' : k <> k' -> map_get (map_delete m k) k' = map_get m k'.
Proof.
  intros Hne. induction m as [| [k0 v0] m IH]; simpl; [reflexivity |].
  destruct (String.eqb k k0) eqn:E; simpl.
  - apply String.eqb_eq in E. subst k0.
    destruct (String.eqb k' k) eqn:F; [| exact IH].
    apply String.eqb_eq in F. congruence.
  - destruct (String.eqb k' k0); [reflexivity | exact IH].
Qed.

Lemma map_get_absent_In m k v : map_get m k = None -> ~ In (k, v) m.
Proof.
  induction m as [| [k' v'] m IH]; simpl; [tauto |].
  destruct (String.eqb k k') eqn:E; [discriminate |].
  intros H [G | G]; [| now apply IH].
  inversion G; subst. now rewrite String.eqb_refl in E.
Qed.

Lemma map_set_In m k v k' v' :
  In (k', v') (map_set m k v) -> (k' = k /\ v' = v) \/ In (k', v') m.
Proof.
  induction m as [| [k0 v0] m IH]; simpl.
  - intros [H | []]. inversion H; auto.
  - destruct (String.eqb k k0); simpl; intros [H | H]; auto.
    + inversion H; auto.
    + destruct (IH H); auto.
Qed.

Lemma map_delete_In m k k' v' : In (k', v') (map_delete m k) -> In (k', v') m.
Proof.
  induction m as [| [k0 v0] m IH]; simpl; [tauto |].
  destruct (String.eqb k k0); simpl; intros H; [auto |].
  destruct H; auto.
Qed.

End MapFacts.


(* ===================================================================== *)
(** ** Facts about the scheduler's effects *)
(* ===================================================================== *)

Section EffectFacts.

Variable host : Host.
Variable W : Type.
Implicit Types (s : state W) (event : TimerEvent).

Lemma with_ext_same s : with_ext (ext s) s = s.
Proof. now destruct s. Qed.

(** Notifying the listeners changes what they own and nothing else, and
    throws only what one of them throws. *)
Lemma notify_all_spec ls event s :
  snd (notify_all ls event s) = with_ext (ext (snd (notify_all ls event s))) s /\
  (fst (notify_all ls event s) = Ok tt \/
   exists x key l w,
     In (key, l) ls /\ fst (l event w) = Throw x /\
     fst (notify_all ls event s) = Throw x).
Proof.
  revert s. induction ls as [| [key l] ls IH]; intros s; simpl.
  - split; [now rewrite with_ext_same | now left].
  - destruct (l event (ext s)) as [[[] | x] w] eqn:E.
    + destruct (IH (with_ext w s)) as [Hs Hr]. split.
      * rewrite Hs at 1. now destruct s.
      * destruct Hr as [Hr | (x & key' & l' & w' & Hin & Hl & Hr)]; [now left |].
        right. exists x, key', l', w'. auto.
    + split; [now destruct s |].
      right. exists x, key, l, (ext s). rewrite E. auto.
Qed.

Lemma emit_state event s :
  snd (emit event s) =
  with_ext (ext (snd (emit event s))) (with_emitted (fun l => (l ++ [event])%list) s).
Proof. unfold emit. apply notify_all_spec. Qed.

Lemma emit_outcome event s :
  fst (emit event s) = Ok tt \/
  exists x, fst (emit event s) = Throw x /\ listener_throws s event x.
Proof.
  unfold emit.
  destruct (notify_all_spec (listeners s) event
              (with_emitted (fun l => (l ++ [event])%list) s))
    as [_ [H | (x & key & l & w & Hin & Hl & Hr)]]; [now left |].
  right. exists x. split; [exact Hr |]. now exists key, l, w.
Qed.

Lemma emit_quiet event s : quiet s -> fst (emit event s) = Ok tt.
Proof.
  intros Hq. destruct (emit_outcome event s) as [H | (x & H & key & l & w & Hin & Hl)];
    [exact H |].
  rewrite (Hq key l event w Hin) in Hl. discriminate.
Qed.

(** [runTask] either writes at most one line and returns, or throws what
    [JSON.stringify] threw on the data of a [log] task and writes
    nothing. *)
Lemma runTask_spec (t : TimerTask) s :
  (fst (runTask host t s) = Ok tt /\
   exists lines, snd (runTask host t s) = with_console (fun l => (l ++ lines)%list) s) \/
  (exists x, fst (runTask host t s) = Throw x /\ snd (runTask host t s) = s /\
             task_type t = log /\ JSON_stringify host (task_data t) = Throw x).
Proof.
  unfold runTask. destruct (task_type t) eqn:Ety.
  - left. split; [reflexivity |]. exists []. simpl. destruct s; simpl.
    unfold with_console; simpl. now rewrite app_nil_r.
  - unfold bind, console_log, lift_result, ret.
    destruct (task_data t) eqn:Ed; simpl;
      try (left; split; [reflexivity | eexists; reflexivity]);
      match goal with
      | |- context [JSON_stringify host ?d] =>
          destruct (JSON_stringify host d) as [text | x] eqn:Ej; simpl;
          [ left; split; [reflexivity | eexists; reflexivity]
          | right; exists x; auto ]
      end.
Qed.

End EffectFacts.

Section HookFacts.

Variable host : Host.
Variable W : Type.
Implicit Types (s : state W) (event : TimerEvent) (t : TimerTask).

Lemma same_schedule_refl s : same_schedule s s.
Proof. repeat split. Qed.

Lemma same_schedule_trans s1 s2 s3 :
  same_schedule s1 s2 -> same_schedule s2 s3 -> same_schedule s1 s3.
Proof. unfold same_schedule. intuition congruence. Qed.

Lemma emit_same event s : same_schedule s (snd (emit event s)).
Proof. rewrite emit_state. repeat split. Qed.

Lemma emit_emitted event s : emitted (snd (emit event s)) = (emitted s ++ [event])%list.
Proof. now rewrite emit_state. Qed.

Lemma runTask_same t s : same_schedule s (snd (runTask host t s)).
Proof.
  destruct (runTask_spec host t s) as [[_ [lines ->]] | (x & _ & -> & _)];
    repeat split.
Qed.

Lemma runTask_emitted t s : emitted (snd (runTask host t s)) = emitted s.
Proof.
  now destruct (runTask_spec host t s) as [[_ [lines ->]] | (x & _ & -> & _)].
Qed.

(** Whether [runTask] throws depends on the task alone. *)
Lemma runTask_outcome t s s' : fst (runTask host t s) = fst (runTask host t s').
Proof.
  unfold runTask. destruct (task_type t); [reflexivity |].
  unfold bind, lift_result, ret, console_log.
  destruct (task_data t); simpl; try reflexivity;
    match goal with
    | |- context [JSON_stringify host ?d] => now destruct (JSON_stringify host d)
    end.
Qed.

Lemma runTask_unit t s : fst (runTask host t s) = Ok tt \/ exists x, fst (runTask host t s) = Throw x.
Proof.
  destruct (runTask_spec host t s) as [[H _] | (x & H & _)]; eauto.
Qed.

(** The [try]/[catch] of the three hooks when the task throws: the
    handler's [emit] is all that happens. *)
Lemma firing_throw t (ev1 : TimerEvent) (ev2 : exn -> TimerEvent) x s :
  fst (runTask host t s) = Throw x ->
  try_catch (runTask host t ;;; emit ev1) (fun e => emit (ev2 e)) s = emit (ev2 x) s.
Proof.
  intros Hx. unfold try_catch, bind.
  destruct (runTask_spec host t s) as [[H _] | (y & H & Hs & _)]; [congruence |].
  destruct (runTask host t s) as [r s']. simpl in *. now rewrite Hx, Hs.
Qed.

(** ... and when the task returns. *)
Lemma firing_ok t (ev1 : TimerEvent) (ev2 : exn -> TimerEvent) s :
  fst (runTask host t s) = Ok tt ->
  try_catch (runTask host t ;;; emit ev1) (fun e => emit (ev2 e)) s =
  try_catch (emit ev1) (fun e => emit (ev2 e)) (snd (runTask host t s)).
Proof.
  intros Hx. unfold try_catch, bind.
  destruct (runTask host t s) as [r s']. simpl in *. now subst.
Qed.

Lemma try_catch_emit_same (ev1 : TimerEvent) (ev2 : exn -> TimerEvent) s :
  same_schedule s (snd (try_catch (emit ev1) (fun e => emit (ev2 e)) s)).
Proof.
  unfold try_catch. pose proof (emit_same ev1 s) as H1.
  destruct (emit ev1 s) as [[[] | e] s1]; simpl in *; [exact H1 |].
  eapply same_schedule_trans; [exact H1 | apply emit_same].
Qed.

(** Whatever the task does, reporting a firing leaves the schedule as it
    was. *)
Lemma firing_same t (ev1 : TimerEvent) (ev2 : exn -> TimerEvent) s :
  same_schedule s
    (snd (try_catch (runTask host t ;;; emit ev1) (fun e => emit (ev2 e)) s)).
Proof.
  destruct (runTask_unit t s) as [H | [x H]].
  - rewrite firing_ok by exact H.
    eapply same_schedule_trans; [apply runTask_same | apply try_catch_emit_same].
  - rewrite firing_throw with (x := x) by exact H. apply emit_same.
Qed.


Lemma quiet_same s s' : listeners s' = listeners s -> quiet s -> quiet s'.
Proof. unfold quiet. now intros ->. Qed.

End HookFacts.

Section HookShapes.

Variable host : Host.
Variable W : Type.
Implicit Types (s : state W) (k : string) (cur : InternalTimer).

(** The hook of a one-shot timer that is still tracked: read the clock,
    stamp the entry, report, and delete whatever the report did. *)
Lemma once_hook_tracked k cur s :
  map_get (timers s) k = Some cur ->
  let firedAt := of_Z (Date_now host (clock_reads s)) in
  let snap := fired firedAt firedAt (info cur) in
  once_hook host k s =
  try_finally
    (try_catch
       (runTask host (task snap) ;;; emit (timer_fired snap firedAt))
       (fun e => emit (timer_error (Some k) (exn_message e))))
    (timers_delete k)
    (with_timers (fun m => map_set m k (mkInternal snap (handle cur)))
       (with_clock_reads (S (clock_reads s)) s)).
Proof.
  intros H. unfold once_hook, bind, timers_get, safeNow, timers_touch. simpl.
  rewrite H. simpl. rewrite H. reflexivity.
Qed.

(** The hook of a running interval timer: read the clock, stamp the entry,
    report. Nothing is asked of the host. *)
Lemma interval_tick_hook_tracked k every cur s :
  map_get (timers s) k = Some cur ->
  let firedAt := of_Z (Date_now host (clock_reads s)) in
  let snap := fired firedAt (num_add firedAt every) (info cur) in
  interval_tick_hook host k every s =
  try_catch
    (runTask host (task snap) ;;; emit (timer_fired snap firedAt))
    (fun e => emit (timer_error (Some k) (exn_message e)))
    (with_timers (fun m => map_set m k (mkInternal snap (handle cur)))
       (with_clock_reads (S (clock_reads s)) s)).
Proof.
  intros H. unfold interval_tick_hook, bind, timers_get, safeNow, timers_touch. simpl.
  rewrite H. simpl. rewrite H. reflexivity.
Qed.

(** The first hook of an interval timer: arm the interval, move the entry
    to its handle, then read the clock, stamp the entry, report. *)
Lemma interval_first_hook_tracked k every cur s :
  map_get (timers s) k = Some cur ->
  let firedAt := of_Z (Date_now host (clock_reads s)) in
  let snap := fired firedAt (num_add firedAt every) (info cur) in
  interval_first_hook host k every s =
  try_catch
    (runTask host (task snap) ;;; emit (timer_fired snap firedAt))
    (fun e => emit (timer_error (Some k) (exn_message e)))
    (with_timers
       (fun m => map_set m k (mkInternal snap (next_handle s)))
       (with_clock_reads (S (clock_reads s))
          (with_timers (fun m => map_set m k (mkInternal (info cur) (next_handle s)))
             (with_next_handle (S (next_handle s))
                (with_host_timers
                   (fun t => (t ++ [(next_handle s,
                                     mkHostTimer ByInterval every
                                       (IntervalTickHook k every))])%list) s))))).
Proof.
  intros H.
  unfold interval_first_hook, bind, timers_get, safeNow, timers_touch, setInterval,
    timers_set. simpl.
  rewrite H. simpl. rewrite map_get_set_eq. reflexivity.
Qed.

Lemma once_hook_untracked k s : map_get (timers s) k = None -> once_hook host k s = (Ok tt, s).
Proof. intros H. unfold once_hook, bind, timers_get. simpl. now rewrite H. Qed.

Lemma interval_tick_hook_untracked k every s :
  map_get (timers s) k = None -> interval_tick_hook host k every s = (Ok tt, s).
Proof. intros H. unfold interval_tick_hook, bind, timers_get. simpl. now rewrite H. Qed.

Lemma interval_first_hook_untracked k every s :
  map_get (timers s) k = None -> interval_first_hook host k every s = (Ok tt, s).
Proof. intros H. unfold interval_first_hook, bind, timers_get. simpl. now rewrite H. Qed.

Lemma try_finally_delete (m : M W unit) k s :
  try_finally m (timers_delete k) s =
  (fst (m s), with_timers (fun tm => map_delete tm k) (snd (m s))).
Proof. unfold try_finally, timers_delete. now destruct (m s). Qed.

(** The first hook of a tracked interval timer leaves an interval armed
    with the period it was given. *)
Lemma interval_first_hook_arms k every cur s :
  map_get (timers s) k = Some cur ->
  In (next_handle s, mkHostTimer ByInterval every (IntervalTickHook k every))
     (host_timers (snd (interval_first_hook host k every s))).
Proof.
  intros Hk. rewrite interval_first_hook_tracked with (cur := cur) by exact Hk.
  match goal with |- context [try_catch (runTask host ?t ;;; emit ?e1) ?h ?s1] =>
    pose proof (firing_same host t e1 (fun e => timer_error (Some k) (exn_message e)) s1)
      as (_ & _ & Hh & _) end.
  rewrite Hh. simpl. apply in_or_app. right. left. reflexivity.
Qed.

End HookShapes.

Section HistoryFacts.

Variable host : Host.
Variable W : Type.
Implicit Types (s : state W) (k : string) (m : list (string * InternalTimer)).

Lemma map_get_In (V : Type) (m : list (string * V)) k v : map_get m k = Some v -> In (k, v) m.
Proof.
  induction m as [| [k' v'] m IH]; simpl; [discriminate |].
  destruct (String.eqb k k') eqn:E.
  - apply String.eqb_eq in E. subst. intros H. inversion H. now left.
  - intros H. right. now apply IH.
Qed.

Lemma ids_agree_set m k t : ids_agree m -> id (info t) = k -> ids_agree (map_set m k t).
Proof.
  intros Hm Ht k' t' Hin. destruct (map_set_In _ _ _ _ _ Hin) as [[-> ->] | H]; auto.
Qed.

Lemma ids_agree_delete m k : ids_agree m -> ids_agree (map_delete m k).
Proof. intros Hm k' t' Hin. apply Hm. eapply map_delete_In; eauto. Qed.

Lemma ids_agree_touch m k cur a b h :
  ids_agree m -> map_get m k = Some cur ->
  ids_agree (map_set m k (mkInternal (fired a b (info cur)) h)).
Proof.
  intros Hm Hk. apply ids_agree_set; [exact Hm |]. simpl.
  apply Hm. now apply map_get_In.
Qed.

Lemma keeps_out_same k s s' : same_schedule s s' -> keeps_out host k s s'.
Proof.
  intros (Ht & _ & _ & _ & _ & Hd). unfold keeps_out. rewrite Ht, Hd.
  repeat split; auto.
Qed.

Lemma createTimer_keeps_out k input s : keeps_out host k s (snd (createTimer host input s)).
Proof.
  destruct input as [runAt t | every startAt t]; simpl;
    unfold createOnceTimer, createIntervalTimer, bind, createId, safeNow, setTimeout,
      timers_set; simpl;
    match goal with |- context [emit ?ev ?s1] =>
      pose proof (emit_same ev s1) as (Ht & _ & _ & _ & _ & Hd);
      destruct (emit ev s1) as [[[] | e] s2] end;
    simpl in *; unfold keeps_out; rewrite Ht, Hd; simpl;
    (split; [intros Hm; now apply ids_agree_set |]);
    (split; [lia |]);
    intros Hk Hne; now rewrite map_get_set_ne.
Qed.

Lemma cancelTimer_keeps_out k k' s : keeps_out host k s (snd (cancelTimer k' s)).
Proof.
  unfold cancelTimer, bind, timers_get. simpl.
  destruct (map_get (timers s) k') as [cur |] eqn:E.
  - unfold clearTimeout, clearInterval, timers_delete. simpl.
    match goal with |- context [emit ?ev ?s1] =>
      pose proof (emit_same ev s1) as (Ht & _ & _ & _ & _ & Hd);
      destruct (emit ev s1) as [[[] | e] s2] end;
    simpl in *; unfold keeps_out; rewrite Ht, Hd; simpl;
    (split; [intros Hm; now apply ids_agree_delete |]);
    (split; [lia |]);
    intros Hk Hne;
    (destruct (String.eqb k' k) eqn:F;
     [apply String.eqb_eq in F; subst; apply map_get_delete_eq
     | apply String.eqb_neq in F; now rewrite map_get_delete_ne]).
  - match goal with |- context [emit ?ev ?s1] =>
      pose proof (emit_same ev s1) as Hs;
      destruct (emit ev s1) as [[[] | e] s2] end;
    simpl in *; now apply keeps_out_same.
Qed.

Lemma keeps_out_from k s0 s s' :
  timers s0 = timers s -> id_draws s0 = id_draws s ->
  keeps_out host k s0 s' -> keeps_out host k s s'.
Proof. unfold keeps_out. now intros -> ->. Qed.

Lemma hook_keeps_out k cb s : keeps_out host k s (snd (run_callback host cb s)).
Proof.
  assert (Hgen : forall k' (del : bool) s1 s2,
             (ids_agree (timers s) -> ids_agree (timers s1)) ->
             id_draws s1 = id_draws s ->
             (forall x, x <> k' -> map_get (timers s1) x = map_get (timers s) x) ->
             map_get (timers s) k' <> None ->
             same_schedule s1 s2 ->
             keeps_out host k s
               (if del then with_timers (fun tm => map_delete tm k') s2 else s2)).
  { intros k' del s1 s2 Hids Hd Hget Hsome (Ht & _ & _ & _ & _ & Hd2).
    unfold keeps_out.
    assert (Hk : map_get (timers s) k = None -> map_get (timers s1) k = None).
    { intros Hnone. rewrite Hget; [exact Hnone |]. intros ->. now apply Hsome. }
    destruct del; simpl; rewrite ?Ht, Hd2, Hd.
    - split; [intros Hm; apply ids_agree_delete; now apply Hids |].
      split; [lia |]. intros Hnone _.
      destruct (String.eqb k' k) eqn:F.
      + apply String.eqb_eq in F. subst. apply map_get_delete_eq.
      + apply String.eqb_neq in F. rewrite map_get_delete_ne by exact F.
        now apply Hk.
    - split; [intros Hm; now apply Hids |].
      split; [lia |]. intros Hnone _. now apply Hk. }
  destruct cb as [k' | k' every | k' every]; simpl;
    destruct (map_get (timers s) k') as [cur |] eqn:E.
  - rewrite once_hook_tracked with (cur := cur) by exact E. rewrite try_finally_delete.
    match goal with |- context [try_catch ?m ?h ?s1] =>
      apply (Hgen k' true s1 (snd (try_catch m h s1))) end; simpl; auto.
    + intros Hm. now apply ids_agree_touch.
    + intros x Hx. now rewrite map_get_set_ne by congruence.
    + rewrite E. discriminate.
    + apply firing_same.
  - rewrite once_hook_untracked by exact E. apply keeps_out_same, same_schedule_refl.
  - rewrite interval_first_hook_tracked with (cur := cur) by exact E.
    match goal with |- context [try_catch ?m ?h ?s1] =>
      apply (Hgen k' false s1 (snd (try_catch m h s1))) end; simpl; auto.
    + intros Hm. apply ids_agree_set; simpl.
      * apply ids_agree_set; simpl; [exact Hm |]. apply Hm. now apply map_get_In.
      * apply Hm. now apply map_get_In.
    + intros x Hx. now rewrite !map_get_set_ne by congruence.
    + rewrite E. discriminate.
    + apply firing_same.
  - rewrite interval_first_hook_untracked by exact E.
    apply keeps_out_same, same_schedule_refl.
  - rewrite interval_tick_hook_tracked with (cur := cur) by exact E.
    match goal with |- context [try_catch ?m ?h ?s1] =>
      apply (Hgen k' false s1 (snd (try_catch m h s1))) end; simpl; auto.
    + intros Hm. now apply ids_agree_touch.
    + intros x Hx. now rewrite map_get_set_ne by congruence.
    + rewrite E. discriminate.
    + apply firing_same.
  - rewrite interval_tick_hook_untracked by exact E.
    apply keeps_out_same, same_schedule_refl.
Qed.

Lemma host_fire_keeps_out k h s : keeps_out host k s (snd (host_fire host h s)).
Proof.
  unfold host_fire. destruct (table_get (host_timers s) h) as [t |].
  - destruct (ht_kind t).
    + eapply keeps_out_from; [| | apply hook_keeps_out]; reflexivity.
    + apply hook_keeps_out.
  - apply keeps_out_same, same_schedule_refl.
Qed.

Lemma perform_keeps_out k (a : Action W) s : keeps_out host k s (snd (perform host a s)).
Proof.
  destruct a as [input | k' | | key l | key | h]; simpl.
  - unfold bind. pose proof (createTimer_keeps_out k input s) as H.
    now destruct (createTimer host input s) as [[i | e] s1].
  - unfold bind. pose proof (cancelTimer_keeps_out k k' s) as H.
    now destruct (cancelTimer k' s) as [[b | e] s1].
  - apply keeps_out_same, same_schedule_refl.
  - unfold onEvent. destruct (existsb _ _); unfold keeps_out; simpl;
      (split; [auto | split; [lia | auto]]).
  - unfold keeps_out; simpl. split; [auto | split; [lia | auto]].
  - apply host_fire_keeps_out.
Qed.

(** Along any history the map stays well-formed, and an identifier that is
    absent and never drawn again stays absent. *)
Lemma run_keeps_out k (acts : list (Action W)) s :
  ids_agree (timers s) ->
  ids_agree (timers (run host acts s)) /\
  (map_get (timers s) k = None ->
   (forall n, (id_draws s <= n)%nat -> randomUUID host n <> k) ->
   map_get (timers (run host acts s)) k = None).
Proof.
  revert s. induction acts as [| a acts IH]; intros s Hm; simpl; [auto |].
  destruct (perform_keeps_out k a s) as (Hids & Hd & Hk).
  destruct (IH (snd (perform host a s)) (Hids Hm)) as [IH1 IH2].
  split; [exact IH1 |]. intros Hnone Hfresh. apply IH2.
  - apply Hk; [exact Hnone | apply Hfresh; lia].
  - intros n Hn. apply Hfresh. lia.
Qed.

Lemma reachable_ids_agree s : reachable host s -> ids_agree (timers s).
Proof.
  intros (w & acts & ->). apply (run_keeps_out ""). intros k t [].
Qed.

End HistoryFacts.

Section CreationFacts.

Variable host : Host.
Variable W : Type.
Implicit Types (s : state W) (t : TimerTask).

(** An [emit] followed by [return a]. *)
Lemma then_ret_spec (A : Type) (event : TimerEvent) (a : A) s :
  same_schedule s (snd ((emit event ;;; ret a) s)) /\
  emitted (snd ((emit event ;;; ret a) s)) = (emitted s ++ [event])%list /\
  (fst ((emit event ;;; ret a) s) = Ok a \/
   exists y, fst ((emit event ;;; ret a) s) = Throw y /\ listener_throws s event y) /\
  (quiet s -> fst ((emit event ;;; ret a) s) = Ok a) /\
  (forall r, fst ((emit event ;;; ret a) s) = Ok r -> r = a).
Proof.
  unfold bind.
  pose proof (emit_outcome event s) as Ho.
  pose proof (emit_same event s) as Hs.
  pose proof (emit_emitted event s) as He.
  pose proof (@emit_quiet W event s) as Hq.
  destruct (emit event s) as [[[] | e] s1]; simpl in *.
  - repeat split; try apply Hs; auto. intros r Hr. now inversion Hr.
  - split; [exact Hs |]. split; [exact He |]. split.
    + right. destruct Ho as [Ho | (y & Ho & Hy)]; [discriminate |].
      inversion Ho; subst y. now exists e.
    + split; [intros H; specialize (Hq H); discriminate | intros r Hr; discriminate].
Qed.

(** [createOnceTimer] up to its [emit]: one identifier drawn, the clock
    read twice, one timeout armed, one entry set. *)
Lemma createOnceTimer_shape runAt t s :
  let k := randomUUID host (id_draws s) in
  let created := of_Z (Date_now host (clock_reads s)) in
  let now := of_Z (Date_now host (S (clock_reads s))) in
  let i := mkInfo k once created (clampMin runAt created) None None t in
  createOnceTimer host runAt t s =
  (emit (timer_created i) ;;; ret i)
    (mkState (map_set (timers s) k (mkInternal i (next_handle s)))
       (listeners s) (emitted s)
       (host_timers s ++
        [(next_handle s,
          mkHostTimer ByTimeout (clampMin (num_sub (clampMin runAt created) now) (of_Z 0))
            (OnceHook k))])%list
       (S (next_handle s)) (S (S (clock_reads s))) (S (id_draws s))
       (console s) (ext s)).
Proof. reflexivity. Qed.

(** [createIntervalTimer] up to its [emit]. *)
Lemma createIntervalTimer_shape every0 startAt0 t s :
  let k := randomUUID host (id_draws s) in
  let created := of_Z (Date_now host (clock_reads s)) in
  let now := of_Z (Date_now host (S (clock_reads s))) in
  let every := clampMin (Math_floor every0) (of_Z 50) in
  let next := clampMin (match startAt0 with Some a => a | None => created end) created in
  let i := mkInfo k interval created next (Some every) None t in
  createIntervalTimer host every0 startAt0 t s =
  (emit (timer_created i) ;;; ret i)
    (mkState (map_set (timers s) k (mkInternal i (next_handle s)))
       (listeners s) (emitted s)
       (host_timers s ++
        [(next_handle s,
          mkHostTimer ByTimeout (clampMin (num_sub next now) (of_Z 0))
            (IntervalFirstHook k every))])%list
       (S (next_handle s)) (S (S (clock_reads s))) (S (id_draws s))
       (console s) (ext s)).
Proof. reflexivity. Qed.

(** What [createIntervalTimer] leaves behind: the timer it tracks,
    announces and returns, with the clamped period, and a timeout armed
    with the first hook, which captures the same period. *)
Lemma createIntervalTimer_tracks every0 startAt0 t s :
  let k := randomUUID host (id_draws s) in
  let every := clampMin (Math_floor every0) (of_Z 50) in
  let created := createIntervalTimer host every0 startAt0 t s in
  exists i,
    map_get (timers (snd created)) k = Some (mkInternal i (next_handle s)) /\
    mode i = interval /\
    everyMs i = Some every /\
    emitted (snd created) = (emitted s ++ [timer_created i])%list /\
    (forall r, fst created = Ok r -> r = i) /\
    (quiet s -> fst created = Ok i) /\
    (exists delay,
        In (next_handle s, mkHostTimer ByTimeout delay (IntervalFirstHook k every))
           (host_timers (snd created))).
Proof.
  intros k every created. subst created.
  rewrite createIntervalTimer_shape. fold k. fold every.
  match goal with |- context [(emit (timer_created ?i) ;;; ret ?i) ?s1] =>
    set (mid := s1); set (info0 := i) in *;
    destruct (then_ret_spec (timer_created info0) info0 mid)
      as ((Ht & Hl & Hh & Hn & _) & He & _ & Hq & Hr) end.
  exists info0. rewrite Ht, Hh.
  split; [subst mid; simpl; apply map_get_set_eq |].
  split; [reflexivity |]. split; [reflexivity |].
  split; [exact He |]. split; [exact Hr |].
  split; [intros Hquiet; apply Hq; exact Hquiet |].
  eexists. subst mid. simpl. apply in_or_app. right. left. reflexivity.
Qed.

End CreationFacts.

Section WireFacts.

Variable host : Host.
Implicit Types (s : state Connections) (input t : value).

Lemma get_prop_object v k : is_object v = true -> get_prop v k = Ok (field v k).
Proof.
  unfold is_object, field.
  destruct v; simpl; try discriminate; try reflexivity.
  now destruct (own_property fields k).
Qed.

Lemma number_of_finite v :
  Number_isFinite v = true -> num_isFinite (number_of v) = true.
Proof. destruct v; simpl; auto; discriminate. Qed.

(** [normalizeTask] on a task that is there: only [String(...)] can throw. *)
Lemma normalizeTask_present t :
  t <> VUndefined -> t <> VNull ->
  normalizeTask host t =
  match js_String host (or_empty (field t "message")) with
  | Ok text => Ok (task_as_specified text t)
  | Throw e => Throw e
  end.
Proof.
  intros Hu Hn. unfold normalizeTask, task_as_specified, field.
  destruct t; try congruence; simpl;
    try (destruct (js_String host (VStr "")); reflexivity).
  destruct (own_property fields "type"), (own_property fields "message"),
    (own_property fields "data"); simpl;
    try match goal with
        | |- context [js_String host ?m] => destruct (js_String host m); try reflexivity
        end;
    try match goal with
        | |- context [is_string ?v "log"] => destruct (is_string v "log"); reflexivity
        end;
    reflexivity.
Qed.

Lemma normalizeTask_absent t :
  t = VUndefined \/ t = VNull -> exists e, normalizeTask host t = Throw e.
Proof. intros [-> | ->]; eexists; reflexivity. Qed.

(** [normalizeTimerCreateInput] on an object: the outcome is that of
    [normalizeTask] on its [task], wrapped as the specification says. *)
Lemma normalizeTimerCreateInput_object input s :
  is_object input = true ->
  normalizeTimerCreateInput host input s =
  (match normalizeTask host (field input "task") with
   | Ok t' =>
       Ok (input_as_specified (of_Z (Date_now host (clock_reads s))) input t')
   | Throw e => Throw e
   end,
   after_normalize input s).
Proof.
  intros Hobj.
  unfold normalizeTimerCreateInput, input_as_specified, after_normalize, bind, lift_result,
    ret, safeNow.
  rewrite !get_prop_object by exact Hobj.
  destruct (is_string (field input "mode") "once"); simpl.
  - destruct (Number_isFinite (field input "runAt")); simpl;
      now destruct (normalizeTask host (field input "task")).
  - destruct (normalizeTask host (field input "task")) as [t' | e]; [| reflexivity].
    destruct (field input "startAt"); simpl; try reflexivity.
Qed.

Lemma input_as_specified_finite z input (tk : TimerTask) :
  finite_input (input_as_specified (of_Z z) input tk) = true.
Proof.
  unfold input_as_specified.
  destruct (is_string (field input "mode") "once"); simpl.
  - destruct (Number_isFinite (field input "runAt")) eqn:E; [| reflexivity].
    apply Math_floor_finite. now apply number_of_finite.
  - apply andb_true_iff. split.
    + destruct (Number_isFinite (field input "everyMs")) eqn:E; [| reflexivity].
      apply Math_max_50. apply Math_floor_finite. now apply number_of_finite.
    + destruct (Number_isFinite (field input "startAt")) eqn:E; [| reflexivity].
      apply Math_floor_finite. now apply number_of_finite.
Qed.

End WireFacts.

Lemma input_as_specified_settled (z : Z) (input : value) (t : TimerTask) :
  settled (input_as_specified (of_Z z) input t).
Proof.
  unfold input_as_specified. destruct (is_string (field input "mode") "once");
    cbn -[Math_floor Math_max of_Z].
  - destruct (Number_isFinite (field input "runAt")) eqn:E; [| now exists z].
    apply Math_floor_integer. now apply number_of_finite.
  - split.
    + destruct (Number_isFinite (field input "everyMs")) eqn:E; [| exists 1000%Z; split; [reflexivity | lia]].
      destruct (@Math_floor_integer _ (number_of_finite _ E)) as [z' ->].
      rewrite Math_max_50_of_Z. exists (Z.max 50 z'). split; [reflexivity | lia].
    + destruct (Number_isFinite (field input "startAt")) eqn:E; [| exact I].
      apply Math_floor_integer. now apply number_of_finite.
Qed.

Section ServerFacts.

Variable host : Host.
Implicit Types (s : state Connections) (c : Connections) (ws : nat).

(** [send] adds at most one frame, for [ws] alone, and touches neither the
    client set nor a ready state. *)
Lemma send_spec ws (m : WsServerToClient) c :
  clients (send ws m c) = clients c /\
  readyState (send ws m c) = readyState c /\
  (forall other, other <> ws ->
                 frames_to other (sent (send ws m c)) = frames_to other (sent c)) /\
  frames_to ws (sent (send ws m c)) =
    (frames_to ws (sent c) ++ (if is_open (readyState c ws) then [m] else []))%list.
Proof.
  unfold send, frames_to. destruct (is_open (readyState c ws)); simpl.
  - split; [reflexivity |]. split; [reflexivity |]. split.
    + intros other Hne. rewrite filter_app. simpl.
      destruct (Nat.eqb ws other) eqn:E.
      * apply Nat.eqb_eq in E. congruence.
      * now rewrite app_nil_r.
    + rewrite filter_app. simpl. rewrite Nat.eqb_refl. now rewrite map_app.
  - split; [reflexivity |]. split; [reflexivity |]. split; [reflexivity |].
    now rewrite app_nil_r.
Qed.

Lemma handleRequest_create ws input s :
  handleRequest host ws (ReqTimerCreate input) s =
  match normalizeTimerCreateInput host input s with
  | (Ok n, s1) => (createTimer host n ;;; ret tt) s1
  | (Throw e, s1) => (Throw e, s1)
  end.
Proof.
  unfold handleRequest. unfold bind at 1.
  now destruct (normalizeTimerCreateInput host input s) as [[n | e] s1].
Qed.

(** What [parseClientMessage] lets through as a [timer.create] payload. *)
Lemma parseClientMessage_create data input :
  parseClientMessage host data = Some (ReqTimerCreate input) -> is_object input = true.
Proof.
  unfold parseClientMessage, is_object.
  destruct (String.eqb (String_trim host data) ""); [discriminate |].
  destruct (JSON_parse host (String_trim host data)) as [parsed |]; [| discriminate].
  destruct (negb (truthy parsed) || negb (typeof_object parsed)); [discriminate |].
  destruct (get_prop parsed "type") as [[ | | b | n | ty | z | items | fields] | e];
    try discriminate.
  destruct (String.eqb ty "ping").
  { destruct (get_prop parsed "id") as [[ | | b | n | k | z | items | fields] | e];
      discriminate. }
  destruct (String.eqb ty "timer.list"); [discriminate |].
  destruct (String.eqb ty "timer.cancel").
  { destruct (get_prop parsed "id") as [[ | | b | n | k | z | items | fields] | e];
      try discriminate.
    destruct (String.eqb k ""); discriminate. }
  destruct (String.eqb ty "timer.create"); [| discriminate].
  destruct (get_prop parsed "timer") as [timer | e]; [| discriminate].
  destruct (negb (truthy timer) || negb (typeof_object timer)) eqn:E; [discriminate |].
  intros H. inversion H; subst.
  apply orb_false_iff in E. destruct E as [E1 E2].
  apply negb_false_iff in E1, E2. now rewrite E1, E2.
Qed.

(** A malformed frame either does not parse as a request, or is a
    [timer.create] whose [timer] is an array. *)
Lemma parseClientMessage_malformed data :
  malformed host data ->
  parseClientMessage host data = None \/
  exists items, parseClientMessage host data = Some (ReqTimerCreate (VArr items)).
Proof.
  unfold malformed, frame_json, parseClientMessage.
  destruct (String.eqb (String_trim host data) ""); [now left |].
  destruct (JSON_parse host (String_trim host data)) as [parsed |]; [| now left].
  intros Hrec.
  destruct parsed as [ | | b | n | str | z | items | fields]; simpl in *; try (now left).
  - destruct b; now left.
  - destruct n as [ | | | q]; simpl; try (now left). destruct (Qeq_bool q 0); now left.
  - destruct (String.eqb str ""); now left.
  - destruct (Z.eqb z 0); now left.
  - destruct (own_property fields "type") as [[ | | b | n | ty | z | items | fields'] |];
      try (now left).
    destruct (String.eqb ty "ping"); [discriminate |].
    destruct (String.eqb ty "timer.list"); [discriminate |].
    destruct (String.eqb ty "timer.cancel").
    { destruct (own_property fields "id") as [[ | | b | n | k | z | items | fields'] |];
        try (now left).
      simpl in Hrec. destruct (String.eqb k ""); [now left | discriminate]. }
    destruct (String.eqb ty "timer.create"); [| now left].
    destruct (own_property fields "timer")
      as [[ | | b | n | str | z | items | fields'] |]; simpl; try (now left);
      try discriminate.
    + destruct b; now left.
    + destruct n as [ | | | q]; simpl; try (now left). destruct (Qeq_bool q 0); now left.
    + destruct (String.eqb str ""); now left.
    + destruct (Z.eqb z 0); now left.
    + right. now exists items.
Qed.

(** A [timer.create] whose [timer] is an array has no [task]: normalising
    it throws before anything is touched. *)
Lemma handleRequest_create_array ws items s :
  exists e, handleRequest host ws (ReqTimerCreate (VArr items)) s = (Throw e, s).
Proof.
  rewrite handleRequest_create.
  rewrite normalizeTimerCreateInput_object by reflexivity.
  eexists. reflexivity.
Qed.

(** The one listener the server subscribes never throws: a scheduler
    whose only subscriber is the server's is quiet, as a freshly started
    server is. *)
Lemma server_quiet s : listeners s = [(0%nat, broadcast_listener)] -> quiet s.
Proof. intros Hl key l event w Hin. rewrite Hl in Hin. destruct Hin as [H | []]. inversion H. reflexivity. Qed.

Lemma startTimerWsServer_quiet (ready : nat -> ReadyState) :
  quiet (startTimerWsServer ready).
Proof. now apply server_quiet. Qed.

End ServerFacts.

(* ===================================================================== *)
(** ** Facts about the request correlator *)
(* ===================================================================== *)

Section CorrelatorFacts.

Import Correlator.

Variable host : Host.
Variable timeoutMs : number.
Variable T : Type.
Variable predicate : value -> option T.

Local Abbreviation deliver := (Correlator.deliver host timeoutMs predicate).
Local Abbreviation deliver_all := (Correlator.deliver_all host timeoutMs predicate).
Local Abbreviation timeout_error := (Correlator.timeout_error host timeoutMs).
Local Abbreviation no_match := (Correlator.no_match host predicate).

Lemma Rejected_inj (a b : exn) : @Rejected T a = Rejected b -> a = b.
Proof. intros H. now injection H. Qed.

Lemma rejections_differ :
  error_error <> timeout_error /\ close_error <> timeout_error /\
  error_error <> close_error.
Proof.
  unfold Correlator.timeout_error, error_error, close_error.
  repeat split; intros H; simpl in H; discriminate H.
Qed.

Lemma deliver_consistent (ev : Event) (w : Wait T) : consistent w -> consistent (deliver ev w).
Proof.
  unfold consistent. intros Hc.
  destruct w as [p ta ml el cl]; simpl in *.
  destruct ev as [| text | |]; simpl.
  - destruct ta; [| exact Hc]. destruct p; simpl; auto; destruct Hc as (? & ? & ? & ?); discriminate.
  - destruct ml; [| exact Hc]. unfold onMessage.
    destruct (JSON_parse host text) as [parsed |]; [| exact Hc].
    destruct (predicate parsed); [| exact Hc].
    destruct p; simpl; auto; destruct Hc as (? & ? & ? & ?); discriminate.
  - destruct el; [| exact Hc]. destruct p; simpl; auto; destruct Hc as (? & ? & ? & ?); discriminate.
  - destruct cl; [| exact Hc]. destruct p; simpl; auto; destruct Hc as (? & ? & ? & ?); discriminate.
Qed.

Lemma deliver_all_consistent (evs : list Event) (w : Wait T) :
  consistent w -> consistent (deliver_all evs w).
Proof.
  revert w. induction evs as [| ev evs IH]; intros w Hc; simpl; [exact Hc |].
  apply IH. now apply deliver_consistent.
Qed.

Lemma waitFor_consistent : consistent (waitFor (T := T)).
Proof. unfold consistent. simpl. auto. Qed.

(** A settled wait hears nothing any more. *)
Lemma deliver_settled (ev : Event) (w : Wait T) :
  consistent w -> promise w <> Pending -> deliver ev w = w.
Proof.
  unfold consistent. intros Hc Hp.
  destruct w as [p ta ml el cl]; simpl in *.
  destruct p; [congruence | |]; destruct Hc as (-> & -> & -> & ->); now destruct ev.
Qed.

Lemma deliver_all_settled (evs : list Event) (w : Wait T) :
  consistent w -> promise w <> Pending -> deliver_all evs w = w.
Proof.
  intros Hc Hp. induction evs as [| ev evs IH]; simpl; [reflexivity |].
  now rewrite deliver_settled.
Qed.

(** What each event does to a pending wait. *)
Lemma deliver_pending (ev : Event) (w : Wait T) :
  consistent w -> promise w = Pending ->
  match ev with
  | TimerElapsed => promise (deliver ev w) = Rejected timeout_error
  | ConnError => promise (deliver ev w) = Rejected error_error
  | ConnClose => promise (deliver ev w) = Rejected close_error
  | Message text =>
      match JSON_parse host text with
      | None => deliver ev w = w
      | Some parsed =>
          match predicate parsed with
          | None => deliver ev w = w
          | Some found => promise (deliver ev w) = Resolved found
          end
      end
  end.
Proof.
  unfold consistent. intros Hc Hp.
  destruct w as [p ta ml el cl]; simpl in *. subst p.
  destruct Hc as (-> & -> & -> & ->).
  destruct ev as [| text | |]; simpl; try reflexivity.
  unfold onMessage. destruct (JSON_parse host text) as [parsed |]; [| reflexivity].
  now destruct (predicate parsed).
Qed.

(** The timeout rejection has one cause: the timeout fired while every
    frame before it had failed to match. *)
Lemma timeout_only_after_no_match (evs : list Event) (w : Wait T) :
  consistent w -> promise w = Pending ->
  promise (deliver_all evs w) = Rejected timeout_error ->
  exists before after, evs = (before ++ TimerElapsed :: after)%list /\ Forall no_match before.
Proof.
  revert w. induction evs as [| ev evs IH]; intros w Hc Hp Hout; simpl in Hout.
  - congruence.
  - pose proof (@deliver_pending ev w Hc Hp) as Hev.
    pose proof (@deliver_consistent ev w Hc) as Hc'.
    destruct rejections_differ as (Herr & Hclose & _).
    destruct ev as [| text | |].
    + exists [], evs. split; [reflexivity | constructor].
    + assert (Hstay : deliver (Message text) w = w ->
                      exists before after,
                        (Message text :: evs = before ++ TimerElapsed :: after)%list /\
                        Forall no_match before).
      { intros Hw. rewrite Hw in Hout.
        destruct (IH w Hc Hp Hout) as (before & after & -> & Hall).
        exists (Message text :: before), after. split; [reflexivity |].
        constructor; [| exact Hall]. simpl.
        destruct (JSON_parse host text) as [parsed |]; [| exact I].
        destruct (predicate parsed) as [found |] eqn:E; [| reflexivity].
        exfalso. rewrite Hw in Hev. congruence. }
      destruct (JSON_parse host text) as [parsed |] eqn:Ej; [| now apply Hstay].
      destruct (predicate parsed) as [found |] eqn:Ep; [| now apply Hstay].
      rewrite deliver_all_settled in Hout; [congruence | exact Hc' | congruence].
    + rewrite deliver_all_settled in Hout; [| exact Hc' | congruence].
      rewrite Hev in Hout. apply Rejected_inj in Hout. destruct (Herr Hout).
    + rewrite deliver_all_settled in Hout; [| exact Hc' | congruence].
      rewrite Hev in Hout. apply Rejected_inj in Hout. destruct (Hclose Hout).
Qed.

End CorrelatorFacts.

(* ===================================================================== *)
(** ** The claims *)
(* ===================================================================== *)

Lemma only_unicast_send (ws : nat) (message : WsServerToClient) (s : state Connections) :
  only_unicast ws message s (with_ext (send ws message (ext s)) s).
Proof.
  destruct (send_spec ws message (ext s)) as (Hc & Hr & Ho & Hw).
  unfold only_unicast. simpl. repeat split; auto.
Qed.

(** C1, as the code has it. At every firing of an interval timer that is
    still tracked the hook reads the clock once and stamps the entry with
    [lastRunAt = firedAt] and [nextRunAt = firedAt + everyMs]; that stamped
    entry is what [timer.fired] carries when the task returns. The host is
    asked for a timer only in the first firing: one [setInterval] with
    period [everyMs], running the later hook. A later firing asks the host
    for nothing: its table and the next free handle are as before, the
    cadence is the host's [setInterval]. The [everyMs] the hooks carry is
    the one stored in the timer at creation. *)
Theorem interval_firing_stamps_nextRunAt
  (host : Host) (W : Type) (s : state W) (k : string) (every : number)
  (cur : InternalTimer) :
  map_get (timers s) k = Some cur ->
  let firedAt := of_Z (Date_now host (clock_reads s)) in
  let stamped := fired firedAt (num_add firedAt every) (info cur) in
  let later := interval_tick_hook host k every s in
  let first := interval_first_hook host k every s in
  (nextRunAt stamped = num_add firedAt every /\ lastRunAt stamped = Some firedAt) /\
  (map_get (timers (snd later)) k = Some (mkInternal stamped (handle cur)) /\
   host_timers (snd later) = host_timers s /\
   next_handle (snd later) = next_handle s /\
   (fst (runTask host (task (info cur)) s) = Ok tt ->
    exists rest,
      emitted (snd later) = (emitted s ++ timer_fired stamped firedAt :: rest)%list)) /\
  (map_get (timers (snd first)) k = Some (mkInternal stamped (next_handle s)) /\
   host_timers (snd first) =
     (host_timers s ++
      [(next_handle s, mkHostTimer ByInterval every (IntervalTickHook k every))])%list /\
   next_handle (snd first) = S (next_handle s) /\
   (fst (runTask host (task (info cur)) s) = Ok tt ->
    exists rest,
      emitted (snd first) = (emitted s ++ timer_fired stamped firedAt :: rest)%list)) /\
  (forall (s0 : state W) every0 startAt0 t0,
      let k0 := randomUUID host (id_draws s0) in
      let created := createIntervalTimer host every0 startAt0 t0 s0 in
      exists i stored delay,
        map_get (timers (snd created)) k0 = Some (mkInternal i (next_handle s0)) /\
        everyMs i = Some stored /\
        In (next_handle s0, mkHostTimer ByTimeout delay (IntervalFirstHook k0 stored))
           (host_timers (snd created))).
Proof.
  intros Hk firedAt stamped later first.
  assert (Hrep : forall s1 : state W,
             emitted s1 = emitted s ->
             fst (runTask host (task (info cur)) s) = Ok tt ->
             exists rest,
               emitted
                 (snd (try_catch
                         (runTask host (task stamped) ;;;
                          emit (timer_fired stamped firedAt))
                         (fun e => emit (timer_error (Some k) (exn_message e))) s1)) =
               (emitted s ++ timer_fired stamped firedAt :: rest)%list).
  { intros s1 He Hok.
    rewrite firing_ok by (simpl; now rewrite (runTask_outcome host _ s1 s)).
    unfold try_catch.
    pose proof (emit_emitted (timer_fired stamped firedAt)
                  (snd (runTask host (task stamped) s1))) as E1.
    rewrite runTask_emitted, He in E1.
    destruct (emit (timer_fired stamped firedAt) (snd (runTask host (task stamped) s1)))
      as [[[] | e] s2]; simpl in *.
    - exists []. exact E1.
    - exists [timer_error (Some k) (exn_message e)].
      rewrite emit_emitted, E1. now rewrite <- app_assoc. }
  split; [split; reflexivity |]. split; [| split].
  - subst later. rewrite interval_tick_hook_tracked with (cur := cur) by exact Hk.
    fold firedAt. fold stamped.
    match goal with |- context [try_catch ?m ?h ?s1] =>
      pose proof (firing_same host (task stamped) (timer_fired stamped firedAt)
                    (fun e => timer_error (Some k) (exn_message e)) s1)
        as (Ht & _ & Hh & Hn & _) end.
    rewrite Ht, Hh, Hn. simpl.
    split; [apply map_get_set_eq |]. split; [reflexivity |]. split; [reflexivity |].
    apply Hrep. reflexivity.
  - subst first. rewrite interval_first_hook_tracked with (cur := cur) by exact Hk.
    fold firedAt. fold stamped.
    match goal with |- context [try_catch ?m ?h ?s1] =>
      pose proof (firing_same host (task stamped) (timer_fired stamped firedAt)
                    (fun e => timer_error (Some k) (exn_message e)) s1)
        as (Ht & _ & Hh & Hn & _) end.
    rewrite Ht, Hh, Hn. simpl.
    split; [apply map_get_set_eq |]. split; [reflexivity |]. split; [reflexivity |].
    apply Hrep. reflexivity.
  - intros s0 every0 startAt0 t0 k0 created.
    destruct (createIntervalTimer_tracks host every0 startAt0 t0 s0)
      as (i & Hi & _ & He & _ & _ & _ & delay & Harm).
    exists i, (clampMin (Math_floor every0) (of_Z 50)), delay. auto.
Qed.

Lemma interval_firing_stamps_nextRunAt_witness :
  host_timers (snd (interval_tick_hook demo_host "timer_" (of_Z 50) demo_interval_started)) =
  host_timers demo_interval_started.
Proof.
  refine (proj1 (proj2 (proj1 (proj2
            (@interval_firing_stamps_nextRunAt demo_host _ demo_interval_started "timer_"
               (of_Z 50)
               (mkInternal
                  (mkInfo "timer_" interval (of_Z 1000) (of_Z 1064) (Some (of_Z 50))
                     (Some (of_Z 1014)) tick_task)
                  1%nat) _))))).
  vm_compute. reflexivity.
Defined.

(** C1 as stated fails: when the host runs the interval of a started timer,
    the timer is tracked, [timer.fired] is emitted, and the hook returns
    without having asked the host for any timer, with whatever delay. *)
Lemma later_firing_arms_nothing :
  let before := demo_interval_started in
  let after := snd (host_fire demo_host 1%nat before) in
  tracked before "timer_" = true /\
  length (emitted after) = S (length (emitted before)) /\
  forall delta, ~ armed_between before after delta.
Proof.
  split; [reflexivity |]. split; [reflexivity |].
  intros delta (h & t & Hh & Hin & _).
  vm_compute in Hh. vm_compute in Hin.
  destruct Hin as [Hin | []]. inversion Hin; subst. lia.
Qed.

(** C2, as the code has it. A [ping] is answered with a [pong], and a
    [timer.list] request with the [timer.list] snapshot, each by one [send]
    to the requesting socket: nothing goes through the event bus, no other
    socket receives a frame, and the requester receives the reply if it is
    open. *)
Theorem ping_and_list_replies_are_unicast
  (host : Host) (ws : nat) (request : WsClientToServer) (reply : WsServerToClient)
  (s : state Connections) :
  direct_reply s request = Some reply ->
  handleRequest host ws request s = (Ok tt, with_ext (send ws reply (ext s)) s) /\
  only_unicast ws reply s (snd (handleRequest host ws request s)) /\
  timers (snd (handleRequest host ws request s)) = timers s.
Proof.
  intros Hreply.
  assert (Heq : handleRequest host ws request s =
                (Ok tt, with_ext (send ws reply (ext s)) s)).
  { destruct request; simpl in Hreply; inversion Hreply; subst; reflexivity. }
  rewrite Heq. simpl. split; [reflexivity |].
  split; [apply only_unicast_send | reflexivity].
Qed.

Lemma ping_and_list_replies_are_unicast_witness :
  handleRequest demo_host 1%nat ReqTimerList demo_server =
  (Ok tt, with_ext (send 1%nat (WsTimerList []) (ext demo_server)) demo_server).
Proof.
  refine (proj1 (@ping_and_list_replies_are_unicast demo_host 1%nat ReqTimerList
                   (WsTimerList []) demo_server _)).
  vm_compute. reflexivity.
Defined.

(** C2 as stated fails: with sockets 1 and 2 both open and subscribed, a
    [timer.list] request from 1 is answered to 1 alone; 2 receives nothing
    and no event is emitted on the bus. *)
Lemma timer_list_reply_is_not_broadcast :
  let before := demo_server in
  let after := snd (handleRequest demo_host 1%nat ReqTimerList before) in
  clients (ext before) = [1%nat; 2%nat] /\
  is_open (readyState (ext before) 2%nat) = true /\
  frames_to 1%nat (sent (ext after)) =
    (frames_to 1%nat (sent (ext before)) ++ [WsTimerList []])%list /\
  frames_to 2%nat (sent (ext after)) = frames_to 2%nat (sent (ext before)) /\
  emitted after = emitted before.
Proof. vm_compute. repeat split. Qed.

(** C3, as the code has it. [createIntervalTimer] stores
    [everyMs = clampMin(floor(everyMs), 50)] in the timer it tracks,
    announces and returns, and arms its first hook with that same value.
    That value is the floored input when the floored input is at least 50,
    and 50 when it is below 50; it is never below 50, and it is at least 50
    whenever the input is not [NaN]; a [NaN] stays [NaN]. When the first
    hook runs, the period it hands to [setInterval] is the stored
    [everyMs]. For an input of 10 the stored value and the period are 50.
    Payloads from the connection never carry [NaN]: the connection layer
    hands the scheduler an integer period of at least 50, which the
    scheduler stores as it is. *)
Theorem everyMs_is_clamped_to_50
  (host : Host) (W : Type) (s : state W) (every0 : number) (startAt0 : option number)
  (t : TimerTask) :
  let k := randomUUID host (id_draws s) in
  let every := clampMin (Math_floor every0) (of_Z 50) in
  let created := createIntervalTimer host every0 startAt0 t s in
  num_lt every (of_Z 50) = false /\
  (is_NaN every0 = false -> num_ge every (of_Z 50) = true) /\
  (every0 = of_Z 10 -> every = of_Z 50) /\
  (num_ge (Math_floor every0) (of_Z 50) = true -> every = Math_floor every0) /\
  (num_lt (Math_floor every0) (of_Z 50) = true -> every = of_Z 50) /\
  (is_NaN every0 = true -> every = NaN) /\
  (exists i,
      map_get (timers (snd created)) k = Some (mkInternal i (next_handle s)) /\
      mode i = interval /\
      everyMs i = Some every /\
      emitted (snd created) = (emitted s ++ [timer_created i])%list /\
      (forall r, fst created = Ok r -> r = i) /\
      (quiet s -> fst created = Ok i) /\
      (exists delay,
          In (next_handle s, mkHostTimer ByTimeout delay (IntervalFirstHook k every))
             (host_timers (snd created)))) /\
  In (next_handle (snd created),
      mkHostTimer ByInterval every (IntervalTickHook k every))
     (host_timers (snd (interval_first_hook host k every (snd created)))) /\
  (forall (payload : value) (sv : state Connections) e a tk,
      is_object payload = true ->
      fst (normalizeTimerCreateInput host payload sv) = Ok (CreateInterval e a tk) ->
      is_NaN e = false /\
      num_ge e (of_Z 50) = true /\
      clampMin (Math_floor e) (of_Z 50) = e).
Proof.
  intros k every created.
  split; [apply clampMin_not_below |].
  split.
  { intros Hn. apply clampMin_ge; [| reflexivity]. now destruct every0. }
  split; [intros ->; reflexivity |].
  split.
  { intros Hge. subst every. unfold clampMin.
    destruct (num_lt (Math_floor every0) (of_Z 50)) eqn:E; [| reflexivity].
    destruct (Math_floor every0); simpl in Hge, E; try discriminate.
    rewrite E in Hge. discriminate. }
  split; [apply clampMin_below |].
  split.
  { intros Hn. destruct every0; try discriminate. reflexivity. }
  destruct (createIntervalTimer_tracks host every0 startAt0 t s)
    as (i & Hk & Hm & He & Hev & Hr & Hq & Harm).
  split.
  { exists i. repeat (split; [assumption |]). exact Harm. }
  split.
  { eapply interval_first_hook_arms. exact Hk. }
  intros payload sv e a tk Hobj Hok.
  rewrite normalizeTimerCreateInput_object in Hok by exact Hobj. simpl in Hok.
  destruct (normalizeTask host (field payload "task")) as [tk' | x]; [| discriminate].
  pose proof (input_as_specified_settled (Date_now host (clock_reads sv)) payload tk')
    as Hset.
  inversion Hok as [Heq]. rewrite Heq in Hset. simpl in Hset.
  destruct Hset as [(z & -> & Hz) _].
  assert (Hkeep : clampMin (Math_floor (of_Z z)) (of_Z 50) = of_Z z)
    by (rewrite Math_floor_of_Z; now apply clampMin_50_of_Z).
  split; [reflexivity |]. split; [| exact Hkeep].
  rewrite <- Hkeep. apply clampMin_ge; [| reflexivity].
  now rewrite Math_floor_of_Z.
Qed.

Lemma everyMs_is_clamped_to_50_witness :
  exists i,
    map_get (timers (snd (createIntervalTimer demo_host (of_Z 10) None tick_task
                            demo_scheduler))) "timer_" =
      Some (mkInternal i 0%nat) /\
    everyMs i = Some (of_Z 50).
Proof.
  destruct (proj1 (proj2 (proj2 (proj2 (proj2 (proj2 (proj2
              (@everyMs_is_clamped_to_50 demo_host _ demo_scheduler (of_Z 10) None
                 tick_task))))))))
    as (i & Hk & _ & He & _).
  exists i. split; [exact Hk | exact He].
Defined.

(** C3 as stated fails: an interval timer created with [everyMs = NaN]
    carries [everyMs = NaN], for which [everyMs >= 50] is false, and its
    first hook hands [NaN] to [setInterval] as the period. *)
Lemma nan_everyMs_is_not_clamped :
  let out := createIntervalTimer demo_host NaN None tick_task demo_scheduler in
  exists i,
    fst out = Ok i /\
    map_get (timers (snd out)) "timer_" = Some (mkInternal i 0%nat) /\
    everyMs i = Some NaN /\
    num_ge NaN (of_Z 50) = false /\
    In (1%nat, mkHostTimer ByInterval NaN (IntervalTickHook "timer_" NaN))
       (host_timers (snd (interval_first_hook demo_host "timer_" NaN (snd out)))).
Proof. vm_compute. eexists. repeat split. right. left. reflexivity. Qed.



(** C5. When the host runs the hook of a one-shot timer that is still
    tracked, the timer is gone from the map when the hook is over, whether
    the task returned or threw and whether the hook itself returned or let
    a subscriber's exception through; and it is in no snapshot
    [listTimers()] gives after any further history, as long as the
    identifier is not drawn again for a new timer. *)
Theorem once_timer_removed_after_firing
  (host : Host) (W : Type) (s : state W) (h : nat) (armed : HostTimer)
  (k : string) (cur : InternalTimer) :
  reachable host s ->
  table_get (host_timers s) h = Some armed ->
  ht_callback armed = OnceHook k ->
  map_get (timers s) k = Some cur ->
  (forall n, (id_draws s <= n)%nat -> randomUUID host n <> k) ->
  map_get (timers (snd (host_fire host h s))) k = None /\
  forall acts : list (Action W),
  exists infos,
    fst (listTimers (run host acts (snd (host_fire host h s)))) = Ok infos /\
    forall i, In i infos -> id i <> k.
Proof.
  intros Hreach Harmed Hcb Hk Hfresh.
  assert (Hgone : map_get (timers (snd (host_fire host h s))) k = None).
  { unfold host_fire. rewrite Harmed, Hcb. simpl.
    rewrite once_hook_tracked with (cur := cur) by (destruct (ht_kind armed); exact Hk).
    rewrite try_finally_delete. simpl. apply map_get_delete_eq. }
  split; [exact Hgone |]. intros acts.
  destruct (host_fire_keeps_out host k h s) as (Hids & Hd & _).
  destruct (@run_keeps_out host W k acts _ (Hids (reachable_ids_agree Hreach)))
    as [Hfinal Habsent].
  eexists. split; [reflexivity |].
  intros i Hin Hid. unfold map_values in Hin. rewrite map_map in Hin.
  apply in_map_iff in Hin. destruct Hin as ([k' t] & <- & Hin). simpl in *.
  pose proof (Hfinal _ _ Hin) as Hkey. rewrite Hid in Hkey. subst k'.
  eapply map_get_absent_In; [| exact Hin].
  apply Habsent; [exact Hgone |]. intros n Hn. apply Hfresh. lia.
Qed.

Lemma once_timer_removed_after_firing_witness :
  map_get (timers (snd (host_fire demo_host 0%nat demo_once_created))) "timer_" = None.
Proof.
  refine (proj1 (@once_timer_removed_after_firing demo_host _ demo_once_created 0%nat
                   (mkHostTimer ByTimeout (of_Z 0) (OnceHook "timer_")) "timer_"
                   (mkInternal
                      (mkInfo "timer_" once (of_Z 1000) (of_Z 1000) None None tick_task)
                      0%nat) _ _ _ _ _)).
  - exists [].
    exists [ActSubscribe 0%nat recorder; ActCreate (CreateOnce (of_Z 0) tick_task)].
    vm_compute. reflexivity.
  - vm_compute. reflexivity.
  - vm_compute. reflexivity.
  - vm_compute. reflexivity.
  - intros n Hn. simpl in Hn. destruct n as [| n]; [lia | simpl; discriminate].
Defined.






(** C8. A frame that is not valid JSON or not of a recognised shape is
    answered by the handler with one [error] message, sent to the socket it
    came from if that socket is open; the handler returns normally, no
    other socket is sent anything, no ready state and no client changes (the
    connection is not closed), and the scheduler is exactly as before. *)
Theorem malformed_message_gets_unicast_error
  (host : Host) (ws : nat) (data : string) (s : state Connections) :
  malformed host data ->
  exists message requestType,
    on_message host ws data s =
      (Ok tt, with_ext (send ws (WsError message requestType) (ext s)) s) /\
    only_unicast ws (WsError message requestType) s (snd (on_message host ws data s)) /\
    timers (snd (on_message host ws data s)) = timers s /\
    host_timers (snd (on_message host ws data s)) = host_timers s.
Proof.
  intros Hbad. unfold on_message.
  destruct (parseClientMessage_malformed host data Hbad) as [-> | [items ->]].
  - do 2 eexists. split; [reflexivity |]. simpl.
    split; [apply only_unicast_send | split; reflexivity].
  - unfold try_catch.
    destruct (handleRequest_create_array host ws items s) as [e ->].
    do 2 eexists. split; [reflexivity |]. simpl.
    split; [apply only_unicast_send | split; reflexivity].
Qed.

Lemma malformed_message_gets_unicast_error_witness :
  exists message requestType,
    frames_to 1%nat (sent (ext (snd (on_message demo_host 1%nat "oops" demo_server)))) =
    (frames_to 1%nat (sent (ext demo_server)) ++ [WsError message requestType])%list /\
    frames_to 2%nat (sent (ext (snd (on_message demo_host 1%nat "oops" demo_server)))) =
    frames_to 2%nat (sent (ext demo_server)).
Proof.
  destruct (@malformed_message_gets_unicast_error demo_host 1%nat "oops" demo_server I)
    as (message & requestType & _ & (_ & _ & _ & _ & Hother & Hown) & _).
  exists message, requestType. split.
  - exact Hown.
  - apply Hother. discriminate.
Defined.

(** C9. While a wait is pending (after any frames that did not match), a
    connection error and a connection close each reject it in the very step
    that delivers them, with reasons of their own, both different from the
    reason of the timeout rejection; whichever of the three settles the
    wait, nothing delivered later changes it. A wait ends rejected with the
    timeout reason only if the timeout fired and every frame delivered
    before it failed to match. *)
Theorem connection_failure_rejects_distinctly
  (host : Host) (timeoutMs : number) (T : Type) (predicate : value -> option T)
  (pre : list Correlator.Event) (w : Correlator.Wait T) :
  w = Correlator.deliver_all host timeoutMs predicate pre Correlator.waitFor ->
  Correlator.promise w = Correlator.Pending ->
  Correlator.promise (Correlator.deliver host timeoutMs predicate Correlator.ConnError w) =
    Correlator.Rejected Correlator.error_error /\
  Correlator.promise (Correlator.deliver host timeoutMs predicate Correlator.ConnClose w) =
    Correlator.Rejected Correlator.close_error /\
  Correlator.promise (Correlator.deliver host timeoutMs predicate Correlator.TimerElapsed w) =
    Correlator.Rejected (Correlator.timeout_error host timeoutMs) /\
  Correlator.error_error <> Correlator.timeout_error host timeoutMs /\
  Correlator.close_error <> Correlator.timeout_error host timeoutMs /\
  (forall ev later,
      In ev [Correlator.ConnError; Correlator.ConnClose; Correlator.TimerElapsed] ->
      Correlator.deliver_all host timeoutMs predicate later
        (Correlator.deliver host timeoutMs predicate ev w) =
      Correlator.deliver host timeoutMs predicate ev w) /\
  (forall evs,
      Correlator.promise
        (Correlator.deliver_all host timeoutMs predicate evs Correlator.waitFor) =
      Correlator.Rejected (Correlator.timeout_error host timeoutMs) ->
      exists before after,
        evs = (before ++ Correlator.TimerElapsed :: after)%list /\
        Forall (Correlator.no_match host predicate) before).
Proof.
  intros Hw Hp.
  assert (Hc : Correlator.consistent w)
    by (subst w; apply deliver_all_consistent, waitFor_consistent).
  pose proof (@deliver_pending host timeoutMs T predicate Correlator.ConnError w Hc Hp)
    as Herror.
  pose proof (@deliver_pending host timeoutMs T predicate Correlator.ConnClose w Hc Hp)
    as Hclose.
  pose proof (@deliver_pending host timeoutMs T predicate Correlator.TimerElapsed w Hc Hp)
    as Htimeout.
  cbv beta iota in Herror, Hclose, Htimeout.
  destruct (rejections_differ host timeoutMs) as (D1 & D2 & _).
  split; [exact Herror |]. split; [exact Hclose |]. split; [exact Htimeout |].
  split; [exact D1 |]. split; [exact D2 |]. split.
  - intros ev later Hin. apply deliver_all_settled.
    + now apply deliver_consistent.
    + destruct Hin as [<- | [<- | [<- | []]]];
        [rewrite Herror | rewrite Hclose | rewrite Htimeout]; discriminate.
  - intros evs Hout.
    apply (@timeout_only_after_no_match host timeoutMs T predicate evs Correlator.waitFor);
      [apply waitFor_consistent | reflexivity | exact Hout].
Qed.

Lemma connection_failure_rejects_distinctly_witness :
  Correlator.promise
    (Correlator.deliver demo_host (of_Z 2000) (fun _ : value => @None unit)
       Correlator.ConnClose
       (Correlator.deliver_all demo_host (of_Z 2000) (fun _ : value => @None unit)
          [Correlator.Message "null"] Correlator.waitFor)) =
  Correlator.Rejected Correlator.close_error.
Proof.
  refine (proj1 (proj2
            (@connection_failure_rejects_distinctly demo_host (of_Z 2000) unit
               (fun _ => None) [Correlator.Message "null"] _ eq_refl _))).
  vm_compute. reflexivity.
Defined.

(** C10. For a [timer.create] payload (an object, as the parser lets
    through), the handler calls the scheduler with the payload normalised as
    the specification says, and with nothing else: a non-finite [runAt] is
    the clock reading, a non-finite [everyMs] is 1000, finite ones are
    floored and [everyMs] raised to 50, [startAt] is floored or dropped, the
    task's message is [String(message ?? '')] (empty when missing, itself
    when a string). Every numeric field the scheduler receives is finite.
    Normalisation returns whenever the payload has a task and the
    conversion of its message does not throw; it throws when the task is
    missing or [null], and whenever it throws the scheduler is not called
    and its timers are untouched. *)
Theorem wire_create_input_is_normalized
  (host : Host) (ws : nat) (input : value) (s : state Connections) :
  is_object input = true ->
  let now := of_Z (Date_now host (clock_reads s)) in
  let wire_task := field input "task" in
  (forall text,
      wire_task <> VUndefined -> wire_task <> VNull ->
      js_String host (or_empty (field wire_task "message")) = Ok text ->
      let normalized := input_as_specified now input (task_as_specified text wire_task) in
      normalizeTimerCreateInput host input s = (Ok normalized, after_normalize input s) /\
      finite_input normalized = true /\
      handleRequest host ws (ReqTimerCreate input) s =
        (createTimer host normalized ;;; ret tt) (after_normalize input s)) /\
  (forall normalized s1,
      normalizeTimerCreateInput host input s = (Ok normalized, s1) ->
      finite_input normalized = true /\
      (exists tk, normalized = input_as_specified now input tk) /\
      handleRequest host ws (ReqTimerCreate input) s =
        (createTimer host normalized ;;; ret tt) s1) /\
  (forall e s1,
      normalizeTimerCreateInput host input s = (Throw e, s1) ->
      handleRequest host ws (ReqTimerCreate input) s = (Throw e, s1) /\
      timers s1 = timers s /\ host_timers s1 = host_timers s /\ emitted s1 = emitted s) /\
  (wire_task = VUndefined \/ wire_task = VNull ->
   exists e, normalizeTimerCreateInput host input s = (Throw e, after_normalize input s)) /\
  js_String host (or_empty VUndefined) = Ok "" /\
  (forall m, js_String host (or_empty (VStr m)) = Ok m) /\
  (forall data payload,
      parseClientMessage host data = Some (ReqTimerCreate payload) ->
      is_object payload = true).
Proof.
  intros Hobj now wire_task.
  pose proof (@normalizeTimerCreateInput_object host input s Hobj) as Hnorm.
  fold wire_task in Hnorm. fold now in Hnorm.
  assert (Hafter : timers (after_normalize input s) = timers s /\
                   host_timers (after_normalize input s) = host_timers s /\
                   emitted (after_normalize input s) = emitted s).
  { unfold after_normalize. now destruct (_ && _). }
  split.
  { intros text Hu Hn Htext normalized.
    rewrite (@normalizeTask_present host wire_task Hu Hn), Htext in Hnorm.
    split; [exact Hnorm |]. split; [apply input_as_specified_finite |].
    rewrite handleRequest_create. fold normalized in Hnorm. now rewrite Hnorm. }
  split.
  { intros normalized s1 Hok. rewrite Hok in Hnorm.
    destruct (normalizeTask host wire_task) as [tk | e]; inversion Hnorm; subst.
    split; [apply input_as_specified_finite |]. split; [now exists tk |].
    rewrite handleRequest_create. now rewrite Hok. }
  split.
  { intros e s1 Hthrow. rewrite handleRequest_create, Hthrow.
    split; [reflexivity |]. rewrite Hthrow in Hnorm.
    destruct (normalizeTask host wire_task) as [tk | e']; inversion Hnorm; subst.
    exact Hafter. }
  split.
  { intros Habsent. destruct (normalizeTask_absent host Habsent) as [e He].
    exists e. now rewrite He in Hnorm. }
  split; [reflexivity |]. split; [intros m; reflexivity |].
  intros data payload. apply parseClientMessage_create.
Qed.

Lemma wire_create_input_is_normalized_witness :
  normalizeTimerCreateInput demo_host demo_payload demo_server =
  (Ok (CreateOnce (of_Z 1014) (mkTask log "" VUndefined)),
   after_normalize demo_payload demo_server).
Proof.
  refine (proj1 (proj1 (@wire_create_input_is_normalized demo_host 1%nat demo_payload
                          demo_server _) "" _ _ _)).
  - vm_compute. reflexivity.
  - discriminate.
  - discriminate.
  - vm_compute. reflexivity.
Defined.

(* ===================================================================== *)
(** ** Further properties: the scheduler's tables *)
(* ===================================================================== *)

Lemma NoDup_snoc (A : Type) (l : list A) (x : A) :
  NoDup l -> ~ In x l -> NoDup (l ++ [x])%list.
Proof.
  induction l as [| a l IH]; simpl; intros Hn Hx.
  - constructor; [tauto | constructor].
  - inversion Hn as [| ? ? Ha Hl]; subst. constructor.
    + intros Hin. apply in_app_or in Hin. destruct Hin as [Hin | [Hin | []]]; [tauto |].
      subst. apply Hx. now left.
    + apply IH; [exact Hl | tauto].
Qed.

Lemma NoDup_fst_inj (A B : Type) (l : list (A * B)) (a : A) (b b' : B) :
  NoDup (map fst l) -> In (a, b) l -> In (a, b') l -> b = b'.
Proof.
  induction l as [| [a0 b0] l IH]; simpl; [tauto |].
  intros Hn H1 H2. inversion Hn as [| ? ? Ha Hl]; subst.
  destruct H1 as [H1 | H1], H2 as [H2 | H2].
  - congruence.
  - inversion H1; subst. exfalso. apply Ha. now apply (in_map fst) in H2.
  - inversion H2; subst. exfalso. apply Ha. now apply (in_map fst) in H1.
  - now apply IH.
Qed.

Section MoreMapFacts.
Variable V : Type.
Implicit Types (m : list (string * V)) (k : string) (v : V).

Lemma map_get_none_keys m k : map_get m k = None -> ~ In k (map fst m).
Proof.
  induction m as [| [k' v'] m IH]; simpl; [tauto |].
  destruct (String.eqb k k') eqn:E; [discriminate |].
  intros H [G | G]; [| now apply IH].
  subst. now rewrite String.eqb_refl in E.
Qed.

Lemma map_set_absent m k v : map_get m k = None -> map_set m k v = (m ++ [(k, v)])%list.
Proof.
  induction m as [| [k' v'] m IH]; simpl; [reflexivity |].
  destruct (String.eqb k k'); [discriminate |]. intros H. now rewrite IH.
Qed.

Lemma map_set_present_keys m k v e :
  map_get m k = Some e -> map fst (map_set m k v) = map fst m.
Proof.
  induction m as [| [k' v'] m IH]; simpl; [discriminate |].
  destruct (String.eqb k k') eqn:E; simpl.
  - apply String.eqb_eq in E. now subst.
  - intros H. now rewrite IH.
Qed.

Lemma NoDup_map_set m k v : NoDup (map fst m) -> NoDup (map fst (map_set m k v)).
Proof.
  intros Hn. destruct (map_get m k) as [e |] eqn:E.
  - now rewrite map_set_present_keys with (e := e).
  - rewrite map_set_absent by exact E. rewrite map_app. simpl.
    apply NoDup_snoc; [exact Hn | now apply map_get_none_keys].
Qed.

Lemma map_delete_keys m k :
  map fst (map_delete m k) = filter (fun x => negb (String.eqb k x)) (map fst m).
Proof.
  induction m as [| [k' v'] m IH]; simpl; [reflexivity |].
  destruct (String.eqb k k'); simpl; now rewrite IH.
Qed.

Lemma NoDup_map_delete m k : NoDup (map fst m) -> NoDup (map fst (map_delete m k)).
Proof. intros Hn. rewrite map_delete_keys. now apply NoDup_filter. Qed.

Lemma map_delete_set m k v : map_delete (map_set m k v) k = map_delete m k.
Proof.
  induction m as [| [k' v'] m IH]; simpl.
  - now rewrite String.eqb_refl.
  - destruct (String.eqb k k') eqn:E; simpl.
    + now rewrite String.eqb_refl.
    + now rewrite E, IH.
Qed.

Lemma map_set_set m k v v' : map_set (map_set m k v) k v' = map_set m k v'.
Proof.
  induction m as [| [k' v0] m IH]; simpl.
  - now rewrite String.eqb_refl.
  - destruct (String.eqb k k') eqn:E; simpl.
    + now rewrite String.eqb_refl.
    + now rewrite E, IH.
Qed.

Lemma map_delete_absent m k : map_get m k = None -> map_delete m k = m.
Proof.
  induction m as [| [k' v'] m IH]; simpl; [reflexivity |].
  destruct (String.eqb k k'); [discriminate |]. intros H. now rewrite IH.
Qed.

Lemma In_map_get m k v : NoDup (map fst m) -> In (k, v) m -> map_get m k = Some v.
Proof.
  intros Hn Hin. destruct (map_get m k) as [v' |] eqn:E.
  - apply map_get_In in E. f_equal. eapply NoDup_fst_inj; eauto.
  - exfalso. eapply map_get_absent_In; eauto.
Qed.

Lemma In_map_set_other m k v k' v' :
  k' <> k -> In (k', v') m -> In (k', v') (map_set m k v).
Proof.
  intros Hne. induction m as [| [k0 v0] m IH]; simpl; [tauto |].
  destruct (String.eqb k k0) eqn:E; simpl.
  - apply String.eqb_eq in E. subst k0. intros [H | H]; [| now right].
    inversion H; subst. congruence.
  - intros [H | H]; [now left | right; now apply IH].
Qed.

Lemma In_map_set_self m k v : In (k, v) (map_set m k v).
Proof. apply map_get_In. apply map_get_set_eq. Qed.

Lemma In_map_delete m k k' v' :
  In (k', v') (map_delete m k) <-> In (k', v') m /\ k' <> k.
Proof.
  induction m as [| [k0 v0] m IH]; simpl; [tauto |].
  destruct (String.eqb k k0) eqn:E; simpl.
  - apply String.eqb_eq in E. subst k0. rewrite IH. split.
    + intros [H1 H2]. auto.
    + intros [[H | H] Hne]; [inversion H; subst; congruence | auto].
  - apply String.eqb_neq in E. rewrite IH. split.
    + intros [H | [H1 H2]]; [inversion H; subst; split; [now left | congruence] | auto].
    + intros [[H | H] Hne]; auto.
Qed.

Lemma In_map_set_inv m k v k' v' :
  NoDup (map fst m) -> In (k', v') (map_set m k v) ->
  (k' = k /\ v' = v) \/ (k' <> k /\ In (k', v') m).
Proof.
  intros Hn Hin. destruct (String.eqb k' k) eqn:E.
  - apply String.eqb_eq in E. subst k'. left. split; [reflexivity |].
    eapply NoDup_fst_inj; [apply NoDup_map_set; exact Hn | exact Hin | apply In_map_set_self].
  - apply String.eqb_neq in E. right. split; [exact E |].
    destruct (map_set_In _ _ _ _ _ Hin) as [[H _] | H]; [congruence | exact H].
Qed.

End MoreMapFacts.

Lemma table_get_In T h t : table_get T h = Some t -> In (h, t) T.
Proof.
  induction T as [| [h' x] T IH]; simpl; [discriminate |].
  destruct (Nat.eqb h h') eqn:E.
  - apply Nat.eqb_eq in E. subst. intros H. inversion H. now left.
  - intros H. right. now apply IH.
Qed.

Lemma In_table_get T h t : NoDup (map fst T) -> In (h, t) T -> table_get T h = Some t.
Proof.
  induction T as [| [h' x] T IH]; simpl; [tauto |].
  intros Hn Hin. inversion Hn as [| ? ? Ha Hl]; subst.
  destruct (Nat.eqb h h') eqn:E.
  - apply Nat.eqb_eq in E. subst h'. destruct Hin as [H | H]; [congruence |].
    exfalso. apply Ha. now apply (in_map fst) in H.
  - apply Nat.eqb_neq in E. destruct Hin as [H | H]; [inversion H; subst; congruence |].
    now apply IH.
Qed.

Lemma In_table_remove T h h' t :
  In (h', t) (table_remove T h) <-> In (h', t) T /\ h' <> h.
Proof.
  induction T as [| [h0 x] T IH]; simpl; [tauto |].
  destruct (Nat.eqb h h0) eqn:E; simpl.
  - apply Nat.eqb_eq in E. subst h0. rewrite IH. split.
    + intros [H1 H2]. auto.
    + intros [[H | H] Hne]; [inversion H; subst; congruence | auto].
  - apply Nat.eqb_neq in E. rewrite IH. split.
    + intros [H | [H1 H2]]; [inversion H; subst; split; [now left | congruence] | auto].
    + intros [[H | H] Hne]; auto.
Qed.

Lemma table_remove_keys T h :
  map fst (table_remove T h) = filter (fun x => negb (Nat.eqb h x)) (map fst T).
Proof.
  induction T as [| [h' x] T IH]; simpl; [reflexivity |].
  destruct (Nat.eqb h h'); simpl; now rewrite IH.
Qed.

Lemma NoDup_table_remove T h : NoDup (map fst T) -> NoDup (map fst (table_remove T h)).
Proof. intros Hn. rewrite table_remove_keys. now apply NoDup_filter. Qed.

Lemma table_remove_twice T h : table_remove (table_remove T h) h = table_remove T h.
Proof.
  induction T as [| [h' x] T IH]; simpl; [reflexivity |].
  destruct (Nat.eqb h h') eqn:E; simpl; [exact IH | now rewrite E, IH].
Qed.

Lemma table_remove_absent T h : ~ In h (map fst T) -> table_remove T h = T.
Proof.
  induction T as [| [h' x] T IH]; simpl; [reflexivity |].
  intros Hn. destruct (Nat.eqb h h') eqn:E.
  - apply Nat.eqb_eq in E. subst. tauto.
  - rewrite IH; [reflexivity | tauto].
Qed.

Lemma table_remove_app T T' h :
  table_remove (T ++ T') h = (table_remove T h ++ table_remove T' h)%list.
Proof.
  induction T as [| [h' x] T IH]; simpl; [reflexivity |].
  destruct (Nat.eqb h h'); simpl; now rewrite IH.
Qed.

Lemma backs_id (t : HostTimer) (i : TimerInfo) : backs t i -> callback_id (ht_callback t) = id i.
Proof. unfold backs. destruct (ht_callback t); simpl; tauto. Qed.

Lemma backs_fired (t : HostTimer) (i : TimerInfo) (a b : number) :
  backs t i -> backs t (fired a b i).
Proof. unfold backs. destruct (ht_callback t); simpl; tauto. Qed.

Section InStep.

Variable host : Host.
Variable W : Type.
Implicit Types (s : state W) (k : string).

Lemma in_step_same s s' : same_schedule s s' -> in_step host s -> in_step host s'.
Proof.
  intros (Ht & _ & Hh & Hn & _ & Hd). unfold in_step. now rewrite Ht, Hh, Hn, Hd.
Qed.

(** The identifier about to be drawn is not in use. *)
Lemma in_step_fresh s :
  fresh_ids host -> in_step host s ->
  map_get (timers s) (randomUUID host (id_draws s)) = None.
Proof.
  intros Hinj (_ & _ & _ & _ & _ & _ & Hg).
  destruct (map_get (timers s) (randomUUID host (id_draws s))) as [e |] eqn:E;
    [| reflexivity].
  apply map_get_In in E. destruct (Hg _ _ E) as (n & Hn & Hu).
  apply Hinj in Hu. lia.
Qed.

(** The handle about to be given out is not armed. *)
Lemma in_step_fresh_handle s :
  in_step host s -> ~ In (next_handle s) (map fst (host_timers s)).
Proof.
  intros (_ & _ & _ & Hd & _) Hin. apply in_map_iff in Hin.
  destruct Hin as ([h t] & Hh & Hin). simpl in Hh. subst h.
  destruct (Hd _ _ Hin). lia.
Qed.

(** The host timer a live timer holds, and the entry an armed handle
    belongs to. *)
Lemma in_step_backed s k e :
  in_step host s -> map_get (timers s) k = Some e ->
  exists t, table_get (host_timers s) (handle e) = Some t /\ backs t (info e) /\
            armed_as_written t /\ id (info e) = k.
Proof.
  intros (_ & Hb & Hc & Hd & He & _) Hk. apply map_get_In in Hk.
  destruct (He _ _ Hk) as (t & Hin & Hbk). exists t.
  split; [now apply In_table_get |]. split; [exact Hbk |].
  split; [apply (Hd _ _ Hin) | now apply Hb].
Qed.

Lemma in_step_owner s h t :
  in_step host s -> table_get (host_timers s) h = Some t ->
  exists e, map_get (timers s) (callback_id (ht_callback t)) = Some e /\ handle e = h /\
            backs t (info e) /\ armed_as_written t.
Proof.
  intros (Ha & Hb & Hc & Hd & He & Hf & _) Hh. apply table_get_In in Hh.
  destruct (Hf _ _ Hh) as (e & Hin & Hhe). exists e.
  split; [now apply In_map_get |]. split; [exact Hhe |].
  destruct (He _ _ Hin) as (t' & Hin' & Hbk). rewrite Hhe in Hin'.
  rewrite (NoDup_fst_inj _ _ _ _ Hc Hh Hin'). split; [exact Hbk |].
  apply (Hd _ _ Hin').
Qed.

(** A timer just created: a fresh key with a fresh handle armed for it. *)
Lemma in_step_create s s' k (i : TimerInfo) (t : HostTimer) :
  fresh_ids host -> in_step host s ->
  k = randomUUID host (id_draws s) ->
  id i = k -> backs t i -> armed_as_written t ->
  timers s' = map_set (timers s) k (mkInternal i (next_handle s)) ->
  host_timers s' = (host_timers s ++ [(next_handle s, t)])%list ->
  next_handle s' = S (next_handle s) ->
  id_draws s' = S (id_draws s) ->
  in_step host s'.
Proof.
  intros Hinj Hs Hk Hi Hbk Harm Ht Hh Hn Hd.
  pose proof (in_step_fresh Hinj Hs) as Hfresh. rewrite <- Hk in Hfresh.
  pose proof (in_step_fresh_handle Hs) as Hfh.
  destruct Hs as (Ha1 & Hb1 & Hc1 & Hd1 & He1 & Hf1 & Hg1).
  unfold in_step. rewrite Ht, Hh, Hn, Hd.
  split; [now apply NoDup_map_set |].
  split; [now apply ids_agree_set |].
  split; [rewrite map_app; simpl; now apply NoDup_snoc |].
  split.
  { intros h t' Hin. apply in_app_or in Hin. destruct Hin as [Hin | [Hin | []]].
    - destruct (Hd1 _ _ Hin). split; [lia | assumption].
    - inversion Hin; subst. split; [lia | assumption]. }
  split.
  { intros k' e' Hin. apply In_map_set_inv in Hin; [| exact Ha1].
    destruct Hin as [[-> ->] | [Hne Hin]].
    - exists t. split; [apply in_or_app; right; now left | exact Hbk].
    - destruct (He1 _ _ Hin) as (t' & Hin' & Hb'). exists t'.
      split; [apply in_or_app; now left | exact Hb']. }
  split.
  { intros h t' Hin. apply in_app_or in Hin. destruct Hin as [Hin | [Hin | []]].
    - destruct (Hf1 _ _ Hin) as (e & Hine & Hhe). exists e. split; [| exact Hhe].
      apply In_map_set_other; [| exact Hine].
      intros Heq. rewrite Heq in Hine. eapply map_get_absent_In; eauto.
    - inversion Hin; subst h t'. exists (mkInternal i (next_handle s)).
      split; [| reflexivity]. rewrite (@backs_id _ _ Hbk), Hi. apply In_map_set_self. }
  intros k' e' Hin. apply In_map_set_inv in Hin; [| exact Ha1].
  destruct Hin as [[-> ->] | [Hne Hin]].
  - exists (id_draws s). split; [lia | now symmetry].
  - destruct (Hg1 _ _ Hin) as (n & Hlt & Hu). exists n. split; [lia | exact Hu].
Qed.

(** A timer dropped: its key deleted and its handle disarmed. *)
Lemma in_step_drop s s' k (e : InternalTimer) :
  in_step host s -> map_get (timers s) k = Some e ->
  timers s' = map_delete (timers s) k ->
  host_timers s' = table_remove (host_timers s) (handle e) ->
  next_handle s' = next_handle s ->
  id_draws s' = id_draws s ->
  in_step host s'.
Proof.
  intros Hs Hk Ht Hh Hn Hd.
  destruct (@in_step_backed _ _ _ Hs Hk) as (t0 & Ht0 & Hbk0 & _ & Hid0).
  destruct Hs as (Ha1 & Hb1 & Hc1 & Hd1 & He1 & Hf1 & Hg1).
  apply table_get_In in Ht0.
  unfold in_step. rewrite Ht, Hh, Hn, Hd.
  split; [now apply NoDup_map_delete |].
  split; [now apply ids_agree_delete |].
  split; [now apply NoDup_table_remove |].
  split.
  { intros h t Hin. apply In_table_remove in Hin. apply Hd1. tauto. }
  split.
  { intros k' e' Hin. apply In_map_delete in Hin. destruct Hin as [Hin Hne].
    destruct (He1 _ _ Hin) as (t & Hin' & Hbk). exists t. split; [| exact Hbk].
    apply In_table_remove. split; [exact Hin' |]. intros Heq.
    rewrite Heq in Hin'. pose proof (NoDup_fst_inj _ _ _ _ Hc1 Hin' Ht0) as Heqt.
    subst t. apply Hne.
    rewrite <- (Hb1 _ _ Hin), <- (@backs_id _ _ Hbk), (@backs_id _ _ Hbk0). exact Hid0. }
  split.
  { intros h t Hin. apply In_table_remove in Hin. destruct Hin as [Hin Hne].
    destruct (Hf1 _ _ Hin) as (e' & Hine & Hhe). exists e'. split; [| exact Hhe].
    apply In_map_delete. split; [exact Hine |]. intros Heq. rewrite Heq in Hine.
    apply In_map_get in Hine; [| exact Ha1]. congruence. }
  intros k' e' Hin. apply In_map_delete in Hin. apply (Hg1 _ _ (proj1 Hin)).
Qed.

(** A live timer stamped by a firing, on the handle it already holds. *)
Lemma in_step_touch s s' k (e : InternalTimer) (a b : number) :
  in_step host s -> map_get (timers s) k = Some e ->
  timers s' = map_set (timers s) k (mkInternal (fired a b (info e)) (handle e)) ->
  host_timers s' = host_timers s ->
  next_handle s' = next_handle s ->
  id_draws s' = id_draws s ->
  in_step host s'.
Proof.
  intros Hs Hk Ht Hh Hn Hd.
  destruct Hs as (Ha1 & Hb1 & Hc1 & Hd1 & He1 & Hf1 & Hg1).
  pose proof (map_get_In _ _ Hk) as Hink.
  unfold in_step. rewrite Ht, Hh, Hn, Hd.
  split; [now apply NoDup_map_set |].
  split; [now apply ids_agree_touch |].
  split; [exact Hc1 |]. split; [exact Hd1 |].
  split.
  { intros k' e' Hin. apply In_map_set_inv in Hin; [| exact Ha1].
    destruct Hin as [[-> ->] | [Hne Hin]]; [| now apply (He1 _ _ Hin)].
    destruct (He1 _ _ Hink) as (t & Hin' & Hbk). exists t. simpl.
    split; [exact Hin' | now apply backs_fired]. }
  split.
  { intros h t Hin. destruct (Hf1 _ _ Hin) as (e' & Hine & Hhe).
    destruct (String.eqb (callback_id (ht_callback t)) k) eqn:E.
    - apply String.eqb_eq in E. rewrite E in *.
      rewrite (NoDup_fst_inj _ _ _ _ Ha1 Hine Hink) in Hhe.
      eexists. split; [apply In_map_set_self | exact Hhe].
    - apply String.eqb_neq in E. exists e'. split; [| exact Hhe].
      now apply In_map_set_other. }
  intros k' e' Hin. apply In_map_set_inv in Hin; [| exact Ha1].
  destruct Hin as [[-> ->] | [Hne Hin]]; [apply (Hg1 _ _ Hink) | apply (Hg1 _ _ Hin)].
Qed.

(** An interval timer started: its timeout spent, an interval armed under
    a fresh handle, the entry moved to it and stamped. *)
Lemma in_step_rearm s s' k (e : InternalTimer) (t0 : HostTimer) (every a b : number) :
  in_step host s -> map_get (timers s) k = Some e ->
  table_get (host_timers s) (handle e) = Some t0 ->
  ht_callback t0 = IntervalFirstHook k every ->
  timers s' = map_set (timers s) k (mkInternal (fired a b (info e)) (next_handle s)) ->
  host_timers s' =
    (table_remove (host_timers s) (handle e) ++
     [(next_handle s, mkHostTimer ByInterval every (IntervalTickHook k every))])%list ->
  next_handle s' = S (next_handle s) ->
  id_draws s' = id_draws s ->
  in_step host s'.
Proof.
  intros Hs Hk Ht0 Hcb Ht Hh Hn Hd.
  destruct (@in_step_backed _ _ _ Hs Hk) as (t0' & Ht0' & Hbk0 & _ & Hid0).
  rewrite Ht0 in Ht0'. inversion Ht0'; subst t0'. clear Ht0'.
  pose proof (in_step_fresh_handle Hs) as Hfh.
  destruct Hs as (Ha1 & Hb1 & Hc1 & Hd1 & He1 & Hf1 & Hg1).
  apply table_get_In in Ht0. pose proof (map_get_In _ _ Hk) as Hink.
  unfold in_step. rewrite Ht, Hh, Hn, Hd.
  split; [now apply NoDup_map_set |].
  split; [now apply ids_agree_touch |].
  split.
  { rewrite map_app. simpl. apply NoDup_snoc; [now apply NoDup_table_remove |].
    rewrite table_remove_keys. intros Hin. apply filter_In in Hin. tauto. }
  split.
  { intros h t Hin. apply in_app_or in Hin. destruct Hin as [Hin | [Hin | []]].
    - apply In_table_remove in Hin. destruct (Hd1 _ _ (proj1 Hin)). split; [lia | assumption].
    - inversion Hin; subst. split; [lia |]. split; reflexivity. }
  split.
  { intros k' e' Hin. apply In_map_set_inv in Hin; [| exact Ha1].
    destruct Hin as [[-> ->] | [Hne Hin]].
    - eexists. split; [apply in_or_app; right; left; reflexivity |].
      unfold backs in *. rewrite Hcb in Hbk0. simpl. exact Hbk0.
    - destruct (He1 _ _ Hin) as (t & Hin' & Hbk). exists t. split; [| exact Hbk].
      apply in_or_app. left. apply In_table_remove. split; [exact Hin' |].
      intros Heq. rewrite Heq in Hin'.
      pose proof (NoDup_fst_inj _ _ _ _ Hc1 Hin' Ht0) as Heqt. subst t. apply Hne.
      rewrite <- (Hb1 _ _ Hin), <- (@backs_id _ _ Hbk), (@backs_id _ _ Hbk0). exact Hid0. }
  split.
  { intros h t Hin. apply in_app_or in Hin. destruct Hin as [Hin | [Hin | []]].
    - apply In_table_remove in Hin. destruct Hin as [Hin Hne].
      destruct (Hf1 _ _ Hin) as (e' & Hine & Hhe). exists e'. split; [| exact Hhe].
      apply In_map_set_other; [| exact Hine]. intros Heq. rewrite Heq in Hine.
      apply In_map_get in Hine; [| exact Ha1]. congruence.
    - inversion Hin; subst h t. simpl. eexists. split; [apply In_map_set_self | reflexivity]. }
  intros k' e' Hin. apply In_map_set_inv in Hin; [| exact Ha1].
  destruct Hin as [[-> ->] | [Hne Hin]]; [apply (Hg1 _ _ Hink) | apply (Hg1 _ _ Hin)].
Qed.

End InStep.

Section ScheduleSteps.

Variable host : Host.
Variable W : Type.
Implicit Types (s : state W) (k : string).

Lemma cancelTimer_tracked k (e : InternalTimer) s :
  map_get (timers s) k = Some e ->
  cancelTimer k s =
  (emit (timer_canceled k true) ;;; ret true)
    (with_timers (fun m => map_delete m k)
       (with_host_timers (fun t => table_remove t (handle e))
          (with_host_timers (fun t => table_remove t (handle e)) s))).
Proof. intros H. unfold cancelTimer, bind at 1, timers_get. simpl. now rewrite H. Qed.

Lemma cancelTimer_untracked k s :
  map_get (timers s) k = None ->
  cancelTimer k s = (emit (timer_canceled k false) ;;; ret false) s.
Proof. intros H. unfold cancelTimer, bind at 1, timers_get. simpl. now rewrite H. Qed.

Lemma createTimer_in_step (input : TimerCreateInput) s :
  fresh_ids host -> in_step host s -> in_step host (snd (createTimer host input s)).
Proof.
  intros Hinj Hs. destruct input as [runAt t | every startAt t]; simpl;
    [rewrite createOnceTimer_shape | rewrite createIntervalTimer_shape];
    match goal with
    | |- context [(emit (timer_created ?i) ;;; ret ?i)
                    (mkState _ _ _ (_ ++ [(_, ?ht)])%list _ _ _ _ _)] =>
        match goal with |- context [(emit (timer_created i) ;;; ret i) ?s1] =>
          destruct (then_ret_spec (timer_created i) i s1)
            as ((Ht & _ & Hh & Hn & _ & Hd) & _);
          apply (@in_step_create host W s _ (id i) i ht Hinj Hs)
        end
    end; simpl; auto; try (split; reflexivity); repeat split.
Qed.

Lemma cancelTimer_in_step k s : in_step host s -> in_step host (snd (cancelTimer k s)).
Proof.
  intros Hs. destruct (map_get (timers s) k) as [e |] eqn:E.
  - rewrite cancelTimer_tracked with (e := e) by exact E.
    match goal with |- context [(emit ?ev ;;; ret ?a) ?s1] =>
      destruct (then_ret_spec ev a s1) as ((Ht & _ & Hh & Hn & _ & Hd) & _) end.
    apply (@in_step_drop host W s _ k e Hs E); simpl in *; auto.
    rewrite Hh. now rewrite table_remove_twice.
  - rewrite cancelTimer_untracked by exact E.
    match goal with |- context [(emit ?ev ;;; ret ?a) ?s1] =>
      destruct (then_ret_spec ev a s1) as (Hsame & _) end.
    now apply in_step_same with (s := s).
Qed.

Lemma host_fire_in_step (h : nat) s : in_step host s -> in_step host (snd (host_fire host h s)).
Proof.
  intros Hs. unfold host_fire.
  destruct (table_get (host_timers s) h) as [t0 |] eqn:Eh; [| exact Hs].
  destruct (@in_step_owner host W s h t0 Hs Eh) as (e & Hk & Hhe & Hbk & Harm).
  destruct t0 as [kind delay cb]. unfold armed_as_written in Harm. simpl in *.
  destruct cb as [k0 | k0 every | k0 every]; simpl in *.
  - subst kind.
    rewrite once_hook_tracked with (cur := e) by exact Hk.
    rewrite try_finally_delete.
    match goal with |- context [try_catch (runTask host ?t ;;; emit ?e1) ?hd ?s1] =>
      pose proof (firing_same host t e1 (fun x => timer_error (Some k0) (exn_message x)) s1)
        as (Ht & _ & Hh & Hn & _ & Hd) end.
    apply (@in_step_drop host W s _ k0 e Hs Hk); simpl in *.
    + rewrite Ht. apply map_delete_set.
    + rewrite Hh. now rewrite Hhe.
    + exact Hn.
    + exact Hd.
  - subst kind.
    rewrite interval_first_hook_tracked with (cur := e) by exact Hk.
    match goal with |- context [try_catch (runTask host ?t ;;; emit ?e1) ?hd ?s1] =>
      pose proof (firing_same host t e1 (fun x => timer_error (Some k0) (exn_message x)) s1)
        as (Ht & _ & Hh & Hn & _ & Hd) end.
    simpl in *.
    eapply (@in_step_rearm host W s _ k0 e _ every _ _ Hs Hk).
    + rewrite Hhe. exact Eh.
    + reflexivity.
    + rewrite Ht. apply map_set_set.
    + rewrite Hh, Hhe. reflexivity.
    + exact Hn.
    + exact Hd.
  - destruct Harm as [-> _].
    rewrite interval_tick_hook_tracked with (cur := e) by exact Hk.
    match goal with |- context [try_catch (runTask host ?t ;;; emit ?e1) ?hd ?s1] =>
      pose proof (firing_same host t e1 (fun x => timer_error (Some k0) (exn_message x)) s1)
        as (Ht & _ & Hh & Hn & _ & Hd) end.
    simpl in *.
    eapply (@in_step_touch host W s _ k0 e _ _ Hs Hk); eauto.
Qed.

Lemma perform_in_step (a : Action W) s :
  fresh_ids host -> in_step host s -> in_step host (snd (perform host a s)).
Proof.
  intros Hinj Hs. destruct a as [input | k' | | key l | key | h]; simpl.
  - unfold bind. pose proof (createTimer_in_step input Hinj Hs) as H.
    now destruct (createTimer host input s) as [[i | e] s1].
  - unfold bind. pose proof (cancelTimer_in_step k' Hs) as H.
    now destruct (cancelTimer k' s) as [[b | e] s1].
  - exact Hs.
  - unfold onEvent. destruct (existsb _ _); exact Hs.
  - exact Hs.
  - now apply host_fire_in_step.
Qed.

Lemma run_in_step (acts : list (Action W)) s :
  fresh_ids host -> in_step host s -> in_step host (run host acts s).
Proof.
  intros Hinj. revert s. induction acts as [| a acts IH]; intros s Hs; simpl; [exact Hs |].
  apply IH. now apply perform_in_step.
Qed.

Lemma createTimerScheduler_in_step (w : W) : in_step host (createTimerScheduler w).
Proof.
  unfold in_step. simpl.
  split; [constructor |]. split; [intros k t [] |]. split; [constructor |].
  split; [intros h t [] |]. split; [intros k e [] |]. split; [intros h t [] | intros k e []].
Qed.

Lemma reachable_in_step s : fresh_ids host -> reachable host s -> in_step host s.
Proof.
  intros Hinj (w & acts & ->). apply run_in_step; [exact Hinj |].
  apply createTimerScheduler_in_step.
Qed.

(** What the host running a handle does to the map: nothing, a [set] on
    a key that is there, or a [delete]. *)
Lemma host_fire_timers_shape (h : nat) s :
  timers (snd (host_fire host h s)) = timers s \/
  (exists k e v, map_get (timers s) k = Some e /\
                 timers (snd (host_fire host h s)) = map_set (timers s) k v) \/
  (exists k, timers (snd (host_fire host h s)) = map_delete (timers s) k).
Proof.
  unfold host_fire. destruct (table_get (host_timers s) h) as [t0 |]; [| now left].
  set (s0 := match ht_kind t0 with
             | ByTimeout => with_host_timers (fun tb => table_remove tb h) s
             | ByInterval => s
             end).
  assert (H0 : timers s0 = timers s) by (subst s0; now destruct (ht_kind t0)).
  rewrite <- H0. clearbody s0.
  destruct (ht_callback t0) as [k0 | k0 every | k0 every]; simpl;
    destruct (map_get (timers s0) k0) as [e |] eqn:E.
  - right. right. exists k0.
    rewrite once_hook_tracked with (cur := e) by exact E. rewrite try_finally_delete.
    match goal with |- context [try_catch (runTask host ?t ;;; emit ?e1) ?hd ?s1] =>
      pose proof (firing_same host t e1 (fun x => timer_error (Some k0) (exn_message x)) s1)
        as (Ht & _) end.
    simpl in *. rewrite Ht. apply map_delete_set.
  - left. now rewrite once_hook_untracked.
  - right. left. exists k0, e.
    rewrite interval_first_hook_tracked with (cur := e) by exact E.
    match goal with |- context [try_catch (runTask host ?t ;;; emit ?e1) ?hd ?s1] =>
      pose proof (firing_same host t e1 (fun x => timer_error (Some k0) (exn_message x)) s1)
        as (Ht & _) end.
    simpl in *. rewrite Ht, map_set_set. eauto.
  - left. now rewrite interval_first_hook_untracked.
  - right. left. exists k0, e.
    rewrite interval_tick_hook_tracked with (cur := e) by exact E.
    match goal with |- context [try_catch (runTask host ?t ;;; emit ?e1) ?hd ?s1] =>
      pose proof (firing_same host t e1 (fun x => timer_error (Some k0) (exn_message x)) s1)
        as (Ht & _) end.
    simpl in *. rewrite Ht. eauto.
  - left. now rewrite interval_tick_hook_untracked.
Qed.

(** What an action does to the map: nothing, one [set], or one [delete]. *)
Lemma perform_timers_shape (a : Action W) s :
  timers (snd (perform host a s)) = timers s \/
  (exists k v, timers (snd (perform host a s)) = map_set (timers s) k v) \/
  (exists k, timers (snd (perform host a s)) = map_delete (timers s) k).
Proof.
  destruct a as [input | k' | | key l | key | h]; simpl.
  - right. left. unfold bind at 1.
    destruct input as [runAt t | every startAt t]; simpl;
      [rewrite createOnceTimer_shape | rewrite createIntervalTimer_shape];
      match goal with |- context [(emit (timer_created ?i) ;;; ret ?i) ?s1] =>
        destruct (then_ret_spec (timer_created i) i s1) as ((Ht & _) & _);
        destruct ((emit (timer_created i) ;;; ret i) s1) as [[r | x] s2]
      end; simpl in *; rewrite Ht; eauto.
  - destruct (map_get (timers s) k') as [e |] eqn:E.
    + right. right. exists k'. unfold bind at 1.
      rewrite cancelTimer_tracked with (e := e) by exact E.
      match goal with |- context [(emit ?ev ;;; ret ?a) ?s1] =>
        destruct (then_ret_spec ev a s1) as ((Ht & _) & _);
        destruct ((emit ev ;;; ret a) s1) as [[r | x] s2] end; simpl in *; now rewrite Ht.
    + left. unfold bind at 1. rewrite cancelTimer_untracked by exact E.
      match goal with |- context [(emit ?ev ;;; ret ?a) ?s1] =>
        destruct (then_ret_spec ev a s1) as ((Ht & _) & _);
        destruct ((emit ev ;;; ret a) s1) as [[r | x] s2] end; simpl in *; now rewrite Ht.
  - now left.
  - left. unfold onEvent. now destruct (existsb _ _).
  - now left.
  - destruct (host_fire_timers_shape h s) as [H | [(k & e & v & _ & H) | H]]; eauto.
Qed.

Lemma run_keys_distinct (acts : list (Action W)) s :
  NoDup (map fst (timers s)) -> NoDup (map fst (timers (run host acts s))).
Proof.
  revert s. induction acts as [| a acts IH]; intros s Hs; simpl; [exact Hs |].
  apply IH. destruct (perform_timers_shape a s) as [-> | [(k & v & ->) | (k & ->)]];
    [exact Hs | now apply NoDup_map_set | now apply NoDup_map_delete].
Qed.

Lemma snapshot_ids (m : list (string * InternalTimer)) :
  ids_agree m -> map id (map info (map_values m)) = map fst m.
Proof.
  unfold map_values. induction m as [| [k e] m IH]; simpl; intros Hm; [reflexivity |].
  rewrite (Hm k e) by now left. f_equal. apply IH. intros k' e' Hin. apply Hm. now right.
Qed.


(** Whom [emit] calls and what they do depends on the listeners and on
    what they own, nothing else. *)
Lemma notify_all_frame (ls : list (nat * Listener W)) (event : TimerEvent) s s' :
  ext s' = ext s ->
  fst (notify_all ls event s') = fst (notify_all ls event s) /\
  ext (snd (notify_all ls event s')) = ext (snd (notify_all ls event s)).
Proof.
  revert s s'. induction ls as [| [key l] ls IH]; intros s s' He; simpl; [auto |].
  rewrite He. destruct (l event (ext s)) as [[[] | x] w]; simpl; [| auto].
  now apply IH.
Qed.

Lemma emit_frame (event : TimerEvent) s s' :
  listeners s' = listeners s -> ext s' = ext s ->
  fst (emit event s') = fst (emit event s) /\
  ext (snd (emit event s')) = ext (snd (emit event s)).
Proof. intros Hl He. unfold emit. rewrite Hl. now apply notify_all_frame. Qed.

Lemma notify_all_app (l1 l2 : list (nat * Listener W)) (event : TimerEvent) s :
  notify_all (l1 ++ l2) event s =
  match notify_all l1 event s with
  | (Ok _, s1) => notify_all l2 event s1
  | (Throw x, s1) => (Throw x, s1)
  end.
Proof.
  revert s. induction l1 as [| [key l] l1 IH]; intros s; simpl; [reflexivity |].
  destruct (l event (ext s)) as [[[] | x] w]; [apply IH | reflexivity].
Qed.

(** [emit] followed by [return a], in terms of the [emit] alone. *)
Lemma then_ret_frame (A : Type) (event : TimerEvent) (a : A) s s' :
  listeners s' = listeners s -> ext s' = ext s ->
  fst ((emit event ;;; ret a) s') =
    match fst (emit event s) with Ok _ => Ok a | Throw x => Throw x end /\
  ext (snd ((emit event ;;; ret a) s')) = ext (snd (emit event s)).
Proof.
  intros Hl He. destruct (@emit_frame event s s' Hl He) as [H1 H2]. unfold bind.
  destruct (emit event s') as [[[] | x] s1]; simpl in *; rewrite <- H1; auto.
Qed.

(** [createTimer] in one piece: the timer it announces, where it is kept,
    what is armed for it, and the one [emit] the subscribers see. *)
Lemma createTimer_effect (input : TimerCreateInput) s :
  exists (i : TimerInfo) (ht : HostTimer),
    let s' := snd (createTimer host input s) in
    id i = randomUUID host (id_draws s) /\
    task i = input_task input /\ mode i = input_mode input /\
    createdAt i = of_Z (Date_now host (clock_reads s)) /\
    backs ht i /\ armed_as_written ht /\
    timers s' = map_set (timers s) (id i) (mkInternal i (next_handle s)) /\
    host_timers s' = (host_timers s ++ [(next_handle s, ht)])%list /\
    next_handle s' = S (next_handle s) /\
    id_draws s' = S (id_draws s) /\
    listeners s' = listeners s /\
    emitted s' = (emitted s ++ [timer_created i])%list /\
    fst (createTimer host input s) =
      match fst (emit (timer_created i) s) with Ok _ => Ok i | Throw x => Throw x end /\
    ext s' = ext (snd (emit (timer_created i) s)) /\
    i = created_info input (randomUUID host (id_draws s))
          (of_Z (Date_now host (clock_reads s))).
Proof.
  destruct input as [runAt t | every startAt t]; simpl;
    [rewrite createOnceTimer_shape | rewrite createIntervalTimer_shape];
    match goal with
    | |- context [(emit (timer_created ?i) ;;; ret ?i)
                    (mkState _ _ _ (_ ++ [(_, ?ht)])%list _ _ _ _ _)] =>
        match goal with |- context [(emit (timer_created i) ;;; ret i) ?s1] =>
          destruct (then_ret_spec (timer_created i) i s1)
            as ((Ht & Hl & Hh & Hn & _ & Hd) & He & _);
          destruct (@then_ret_frame _ (timer_created i) i s s1 eq_refl eq_refl)
            as [Hf Hx];
          exists i, ht
        end
    end; simpl in *;
    (split; [reflexivity |]); (split; [reflexivity |]); (split; [reflexivity |]);
    (split; [reflexivity |]);
    (split; [repeat split |]); (split; [reflexivity |]);
    (split; [exact Ht |]); (split; [exact Hh |]); (split; [exact Hn |]);
    (split; [exact Hd |]); (split; [exact Hl |]); (split; [exact He |]);
    (split; [exact Hf |]); (split; [exact Hx | reflexivity]).
Qed.

(** [cancelTimer] in one piece. *)
Lemma cancelTimer_effect k s :
  let s' := snd (cancelTimer k s) in
  timers s' = map_delete (timers s) k /\
  host_timers s' =
    match map_get (timers s) k with
    | Some e => table_remove (host_timers s) (handle e)
    | None => host_timers s
    end /\
  next_handle s' = next_handle s /\
  id_draws s' = id_draws s /\
  clock_reads s' = clock_reads s /\
  listeners s' = listeners s /\
  emitted s' = (emitted s ++ [timer_canceled k (tracked s k)])%list /\
  fst (cancelTimer k s) =
    match fst (emit (timer_canceled k (tracked s k)) s) with
    | Ok _ => Ok (tracked s k)
    | Throw x => Throw x
    end /\
  ext s' = ext (snd (emit (timer_canceled k (tracked s k)) s)).
Proof.
  unfold tracked. destruct (map_get (timers s) k) as [e |] eqn:E.
  - rewrite cancelTimer_tracked with (e := e) by exact E.
    match goal with |- context [(emit ?ev ;;; ret ?a) ?s1] =>
      destruct (then_ret_spec ev a s1) as ((Ht & Hl & Hh & Hn & Hc & Hd) & He & _);
      destruct (@then_ret_frame _ ev a s s1 eq_refl eq_refl) as [Hf Hx] end.
    simpl in *. rewrite table_remove_twice in Hh. repeat split; assumption.
  - rewrite cancelTimer_untracked by exact E.
    match goal with |- context [(emit ?ev ;;; ret ?a) ?s1] =>
      destruct (then_ret_spec ev a s1) as ((Ht & Hl & Hh & Hn & Hc & Hd) & He & _);
      destruct (@then_ret_frame _ ev a s s1 eq_refl eq_refl) as [Hf Hx] end.
    simpl in *. rewrite map_delete_absent by exact E. repeat split; assumption.
Qed.

Lemma snapshot_delete (m : list (string * InternalTimer)) k :
  ids_agree m ->
  map info (map_values (map_delete m k)) =
  filter (fun i => negb (String.eqb k (id i))) (map info (map_values m)).
Proof.
  unfold map_values. induction m as [| [k' e] m IH]; simpl; intros Hm; [reflexivity |].
  rewrite (Hm k' e) by now left.
  assert (Hm' : ids_agree m) by (intros k0 e0 Hin; apply Hm; now right).
  destruct (String.eqb k k'); simpl; now rewrite IH.
Qed.

End ScheduleSteps.
Lemma tally_inj (a b : nat) : tally a = tally b -> a = b.
Proof.
  revert b. induction a as [| a IH]; intros [| b]; simpl; intros H;
    try reflexivity; try discriminate.
  f_equal. apply IH. now inversion H.
Qed.

Lemma demo_host_fresh_ids : fresh_ids demo_host.
Proof.
  intros a b H. simpl in H. apply tally_inj.
  now repeat (inversion H as [H']; clear H; rename H' into H).
Qed.

Lemma demo_once_created_reachable : reachable demo_host demo_once_created.
Proof.
  exists []. exists [ActSubscribe 0%nat recorder; ActCreate (CreateOnce (of_Z 0) tick_task)].
  vm_compute. reflexivity.
Qed.

Lemma demo_interval_started_reachable : reachable demo_host demo_interval_started.
Proof.
  exists [].
  exists [ActSubscribe 0%nat recorder; ActCreate (CreateInterval (of_Z 10) None tick_task);
          ActFire 0%nat].
  vm_compute. reflexivity.
Qed.

(* ===================================================================== *)
(** ** Further properties of the scheduler *)
(* ===================================================================== *)

(** X1. In every state the scheduler can reach, whatever was created,
    cancelled and fired and whatever identifiers [createId] returned, the
    timers [listTimers()] returns carry pairwise distinct identifiers, and
    each of them is the timer the map holds under its identifier. *)
Theorem listTimers_ids_are_distinct (host : Host) (W : Type) (s : state W) :
  reachable host s ->
  listTimers s = (Ok (snapshot s), s) /\
  NoDup (map id (snapshot s)) /\
  forall i, In i (snapshot s) ->
            exists e, map_get (timers s) (id i) = Some e /\ info e = i.
Proof.
  intros Hreach. pose proof (@reachable_ids_agree host W s Hreach) as Hids.
  assert (Hnd : NoDup (map fst (timers s))).
  { destruct Hreach as (w & acts & ->). apply run_keys_distinct. constructor. }
  split; [reflexivity |]. unfold snapshot. split.
  - rewrite snapshot_ids by exact Hids. exact Hnd.
  - intros i Hin. unfold map_values in Hin. rewrite map_map in Hin.
    apply in_map_iff in Hin. destruct Hin as ([k e] & Hi & Hin). simpl in Hi.
    exists e. split; [| exact Hi]. apply In_map_get; [exact Hnd |].
    rewrite <- Hi. now rewrite (Hids _ _ Hin).
Qed.

Lemma listTimers_ids_are_distinct_witness :
  NoDup (map id (snapshot demo_interval_started)).
Proof.
  exact (proj1 (proj2 (@listTimers_ids_are_distinct demo_host _ demo_interval_started
                         demo_interval_started_reachable))).
Defined.

(** X2. When [createId] never repeats an identifier, the map of live
    timers and the host's armed timers match one to one in every reachable
    state: the handle a live timer holds is armed, by [setTimeout] or
    [setInterval] as the code arms it, with a closure that captured this
    timer's identifier, its mode and, for an interval timer, its period;
    every armed handle is the one the timer it names holds; no handle is
    armed for an identifier that is not tracked; and two timers never hold
    the same handle. *)
Theorem live_timers_match_armed_handles (host : Host) (W : Type) (s : state W) :
  fresh_ids host -> reachable host s ->
  (forall k e, map_get (timers s) k = Some e ->
     exists t, table_get (host_timers s) (handle e) = Some t /\
               backs t (info e) /\ armed_as_written t /\ id (info e) = k) /\
  (forall h t, table_get (host_timers s) h = Some t ->
     exists e, map_get (timers s) (callback_id (ht_callback t)) = Some e /\
               handle e = h /\ backs t (info e) /\ armed_as_written t) /\
  (forall k, map_get (timers s) k = None ->
     forall h t, table_get (host_timers s) h = Some t ->
                 callback_id (ht_callback t) <> k) /\
  (forall k k' e e', map_get (timers s) k = Some e -> map_get (timers s) k' = Some e' ->
                     handle e = handle e' -> k = k').
Proof.
  intros Hinj Hreach. pose proof (reachable_in_step Hinj Hreach) as Hs.
  split; [intros k e Hk; exact (@in_step_backed host W s k e Hs Hk) |].
  split; [intros h t Hh; exact (@in_step_owner host W s h t Hs Hh) |].
  split.
  - intros k Hnone h t Hh Heq.
    destruct (@in_step_owner host W s h t Hs Hh) as (e & Hk & _). congruence.
  - intros k k' e e' Hk Hk' Hh.
    destruct (@in_step_backed host W s k e Hs Hk) as (t & Ht & Hb & _ & Hid).
    destruct (@in_step_backed host W s k' e' Hs Hk') as (t' & Ht' & Hb' & _ & Hid').
    rewrite Hh in Ht. rewrite Ht in Ht'. inversion Ht'; subst t'.
    rewrite <- Hid, <- Hid', <- (@backs_id _ _ Hb), <- (@backs_id _ _ Hb'). reflexivity.
Qed.

Lemma live_timers_match_armed_handles_witness :
  exists t, table_get (host_timers demo_interval_started) 1%nat = Some t /\
            backs t (mkInfo "timer_" interval (of_Z 1000) (of_Z 1064) (Some (of_Z 50))
                       (Some (of_Z 1014)) tick_task) /\
            armed_as_written t.
Proof.
  destruct (proj1 (@live_timers_match_armed_handles demo_host _ demo_interval_started
                     demo_host_fresh_ids demo_interval_started_reachable)
              "timer_"
              (mkInternal
                 (mkInfo "timer_" interval (of_Z 1000) (of_Z 1064) (Some (of_Z 50))
                    (Some (of_Z 1014)) tick_task) 1%nat))
    as (t & Ht & Hb & Ha & _).
  - vm_compute. reflexivity.
  - exists t. auto.
Defined.

(** X3. Creating a timer and cancelling it straight away is a round trip
    for the schedule: when [createId] never repeats an identifier, the map
    of live timers, the host's armed timers and the subscribers are exactly
    what they were before, the two events [timer.created] and
    [timer.canceled] with [ok = true] are all that was emitted, and if no
    subscriber throws the cancellation returns [true]. *)
Theorem create_then_cancel_restores_schedule
  (host : Host) (W : Type) (s : state W) (input : TimerCreateInput) :
  fresh_ids host -> reachable host s ->
  let created := createTimer host input s in
  let k := randomUUID host (id_draws s) in
  let canceled := cancelTimer k (snd created) in
  timers (snd canceled) = timers s /\
  host_timers (snd canceled) = host_timers s /\
  listeners (snd canceled) = listeners s /\
  (exists i, id i = k /\
             emitted (snd canceled) =
               (emitted s ++ [timer_created i; timer_canceled k true])%list /\
             (quiet s -> fst created = Ok i)) /\
  (quiet s -> fst canceled = Ok true).
Proof.
  intros Hinj Hreach created k canceled. subst created canceled.
  pose proof (reachable_in_step Hinj Hreach) as Hs.
  pose proof (in_step_fresh Hinj Hs) as Hfresh. fold k in Hfresh.
  pose proof (in_step_fresh_handle Hs) as Hfh.
  destruct (createTimer_effect host input s)
    as (i & ht & Hid & _ & _ & _ & _ & _ & Ht & Hh & _ & _ & Hl & He & Hf & _).
  cbv zeta in *. fold k in Hid. rewrite Hid in Ht.
  set (s1 := snd (createTimer host input s)) in *.
  destruct (cancelTimer_effect k s1) as (Ht2 & Hh2 & _ & _ & _ & Hl2 & He2 & Hf2 & _).
  cbv zeta in *.
  assert (Hk1 : map_get (timers s1) k = Some (mkInternal i (next_handle s)))
    by (rewrite Ht; apply map_get_set_eq).
  assert (Htr : tracked s1 k = true) by (unfold tracked; now rewrite Hk1).
  rewrite Hk1 in Hh2. rewrite Htr in He2, Hf2. simpl in Hh2.
  split; [rewrite Ht2, Ht, map_delete_set; now apply map_delete_absent |].
  split.
  { rewrite Hh2, Hh, table_remove_app. simpl. rewrite Nat.eqb_refl.
    rewrite app_nil_r. now apply table_remove_absent. }
  split; [congruence |].
  split.
  - exists i. split; [exact Hid |]. split.
    + rewrite He2, He, <- app_assoc. reflexivity.
    + intros Hq. rewrite Hf. now rewrite (emit_quiet (timer_created i) Hq).
  - intros Hq. rewrite Hf2.
    assert (Hq1 : quiet s1) by (apply quiet_same with (s := s); assumption).
    now rewrite (emit_quiet (timer_canceled k true) Hq1).
Qed.

Lemma create_then_cancel_restores_schedule_witness :
  timers (snd (cancelTimer "timer_I"
                 (snd (createTimer demo_host (CreateOnce (of_Z 5000) tick_task)
                         demo_once_created)))) =
  timers demo_once_created.
Proof.
  exact (proj1 (@create_then_cancel_restores_schedule demo_host _ demo_once_created
                  (CreateOnce (of_Z 5000) tick_task)
                  demo_host_fresh_ids demo_once_created_reachable)).
Defined.

(** X4. [listTimers()] lists the live timers in the order they were
    created. When [createId] never repeats an identifier, in every
    reachable state: a new timer goes to the end of the list and leaves
    the rest as it was; cancelling an identifier removes the timer with
    that identifier and nothing else, in place; and a firing leaves the
    identifiers and their order alone, or (the one-shot case) removes one
    identifier in place. *)
Theorem listTimers_keeps_creation_order (host : Host) (W : Type) (s : state W) :
  fresh_ids host -> reachable host s ->
  (forall input,
      exists i, id i = randomUUID host (id_draws s) /\
                snapshot (snd (createTimer host input s)) = (snapshot s ++ [i])%list) /\
  (forall k,
      snapshot (snd (cancelTimer k s)) =
      filter (fun i => negb (String.eqb k (id i))) (snapshot s)) /\
  (forall h,
      map id (snapshot (snd (host_fire host h s))) = map id (snapshot s) \/
      exists k, map id (snapshot (snd (host_fire host h s))) =
                filter (fun x => negb (String.eqb k x)) (map id (snapshot s))).
Proof.
  intros Hinj Hreach. pose proof (reachable_in_step Hinj Hreach) as Hs.
  pose proof (@reachable_ids_agree host W s Hreach) as Hids.
  split; [| split].
  - intros input.
    destruct (createTimer_effect host input s) as (i & ht & Hid & _ & _ & _ & _ & _ & Ht & _).
    cbv zeta in *. exists i. split; [exact Hid |]. unfold snapshot, map_values.
    rewrite Ht, Hid, map_set_absent by now apply in_step_fresh.
    now rewrite !map_app.
  - intros k. destruct (cancelTimer_effect k s) as (Ht & _). cbv zeta in *.
    unfold snapshot. rewrite Ht. now apply snapshot_delete.
  - intros h.
    assert (Hids' : ids_agree (timers (snd (host_fire host h s)))).
    { apply (reachable_ids_agree (host := host)).
      destruct Hreach as (w & acts & ->). exists w, (acts ++ [ActFire h])%list.
      clear. generalize (createTimerScheduler w). induction acts as [| a acts IH];
        intros s0; simpl; [reflexivity | apply IH]. }
    unfold snapshot. rewrite !snapshot_ids by assumption.
    destruct (host_fire_timers_shape host h s) as [-> | [(k & e & v & Hk & ->) | (k & ->)]].
    + now left.
    + left. now apply map_set_present_keys with (e := e).
    + right. exists k. apply map_delete_keys.
Qed.

Lemma listTimers_keeps_creation_order_witness :
  snapshot (snd (cancelTimer "timer_" demo_once_created)) =
  filter (fun i => negb (String.eqb "timer_" (id i))) (snapshot demo_once_created).
Proof.
  exact (proj1 (proj2 (@listTimers_keeps_creation_order demo_host _ demo_once_created
                         demo_host_fresh_ids demo_once_created_reachable)) "timer_").
Defined.

(** X5. Subscribers are called in the order they subscribed, and one that
    throws keeps the later ones from being called. For a listener that is
    not yet subscribed: once it is subscribed, an [emit] first does what it
    did before; if that returned, the new listener is called on what the
    earlier ones left, and its outcome is the outcome of the [emit]; if an
    earlier listener threw, the new one is not called at all. Subscribing
    the same function again changes nothing, and unsubscribing it restores
    the subscribers as they were. *)
Theorem later_listener_runs_after_earlier_ones
  (W : Type) (s : state W) (key : nat) (l : Listener W) (event : TimerEvent) :
  (forall kl, In kl (listeners s) -> fst kl <> key) ->
  let s' := snd (onEvent key l s) in
  match fst (emit event s) with
  | Ok _ =>
      fst (emit event s') = fst (l event (ext (snd (emit event s)))) /\
      ext (snd (emit event s')) = snd (l event (ext (snd (emit event s))))
  | Throw x =>
      fst (emit event s') = Throw x /\
      ext (snd (emit event s')) = ext (snd (emit event s))
  end /\
  onEvent key l s' = (Ok tt, s') /\
  listeners (snd (unsubscribe key s')) = listeners s.
Proof.
  intros Hnew s'.
  assert (Hex : existsb (fun kl => Nat.eqb (fst kl) key) (listeners s) = false).
  { destruct (existsb _ (listeners s)) eqn:E; [| reflexivity].
    apply existsb_exists in E. destruct E as (kl & Hin & Heq).
    apply Nat.eqb_eq in Heq. destruct (Hnew kl Hin Heq). }
  assert (Hs' : s' = with_listeners (fun ls => (ls ++ [(key, l)])%list) s).
  { subst s'. unfold onEvent. now rewrite Hex. }
  split; [| split].
  - unfold emit. rewrite Hs'. simpl. rewrite notify_all_app.
    set (a := with_emitted (fun ls => (ls ++ [event])%list) s).
    set (b := with_emitted (fun ls => (ls ++ [event])%list)
                (with_listeners (fun ls => (ls ++ [(key, l)])%list) s)).
    destruct (@notify_all_frame W (listeners s) event a b eq_refl) as [Hf Hx].
    destruct (notify_all (listeners s) event a) as [ra sa].
    destruct (notify_all (listeners s) event b) as [rb sb].
    simpl in *. subst rb. rewrite <- Hx.
    destruct ra as [[] | x]; simpl; [| auto].
    destruct (l event (ext sb)) as [[[] | y] w]; simpl; auto.
  - rewrite Hs'. unfold onEvent. simpl. rewrite existsb_app. simpl.
    now rewrite Nat.eqb_refl, orb_true_r.
  - rewrite Hs'. simpl. rewrite filter_app. simpl. rewrite Nat.eqb_refl. simpl.
    rewrite app_nil_r. apply forallb_filter_id. apply forallb_forall.
    intros kl Hin. apply negb_true_iff. apply Nat.eqb_neq. now apply Hnew.
Qed.

Lemma later_listener_runs_after_earlier_ones_witness :
  onEvent 1%nat recorder (snd (onEvent 1%nat recorder demo_scheduler)) =
  (Ok tt, snd (onEvent 1%nat recorder demo_scheduler)).
Proof.
  refine (proj1 (proj2 (@later_listener_runs_after_earlier_ones _ demo_scheduler 1%nat
                          recorder (timer_canceled "x" false) _))).
  intros kl [<- | []]. simpl. lia.
Defined.

(* ===================================================================== *)
(** ** Further facts about the connection layer *)
(* ===================================================================== *)

Section ServerSteps.

Variable host : Host.
Variable path : string.
Variable port : number.
Variable allowedOrigins : list string.
Implicit Types (s : state Connections) (c : Connections) (ws x : nat)
  (m : WsServerToClient).

Lemma send_each_spec (targets : list nat) m c :
  NoDup targets ->
  clients (send_each targets m c) = clients c /\
  readyState (send_each targets m c) = readyState c /\
  forall x,
    frames_to x (sent (send_each targets m c)) =
    (frames_to x (sent c) ++
     (if existsb (Nat.eqb x) targets && is_open (readyState c x) then [m] else []))%list.
Proof.
  revert c. induction targets as [| ws targets IH]; intros c Hn; simpl.
  - split; [reflexivity |]. split; [reflexivity |]. intros x. now rewrite app_nil_r.
  - inversion Hn as [| ? ? Hws Hrest]; subst.
    destruct (IH (send ws m c) Hrest) as (Hc & Hr & Hf).
    destruct (send_spec ws m c) as (Sc & Sr & Sother & Sself).
    split; [congruence |]. split; [congruence |].
    intros x. rewrite Hf, Sr. destruct (Nat.eqb x ws) eqn:E; simpl.
    + apply Nat.eqb_eq in E. subst x. rewrite Sself.
      assert (Hex : existsb (Nat.eqb ws) targets = false).
      { destruct (existsb (Nat.eqb ws) targets) eqn:F; [| reflexivity].
        apply existsb_exists in F. destruct F as (y & Hy & Heq).
        apply Nat.eqb_eq in Heq. subst y. contradiction. }
      rewrite Hex. simpl. now rewrite app_nil_r.
    + apply Nat.eqb_neq in E. now rewrite Sother by exact E.
Qed.

Lemma broadcast_spec m c :
  NoDup (clients c) ->
  clients (broadcast m c) = clients c /\
  readyState (broadcast m c) = readyState c /\
  forall x,
    frames_to x (sent (broadcast m c)) =
    (frames_to x (sent c) ++ (if open_client c x then [m] else []))%list.
Proof. intros Hn. unfold broadcast, open_client. now apply send_each_spec. Qed.

Lemma send_each_same (targets : list nat) m c :
  clients (send_each targets m c) = clients c /\
  readyState (send_each targets m c) = readyState c.
Proof.
  revert c. induction targets as [| ws targets IH]; intros c; simpl; [auto |].
  destruct (IH (send ws m c)) as [Hc Hr].
  destruct (send_spec ws m c) as (Sc & Sr & _). split; congruence.
Qed.

Lemma send_each_stranger (targets : list nat) m c x :
  ~ In x targets ->
  frames_to x (sent (send_each targets m c)) = frames_to x (sent c).
Proof.
  revert c. induction targets as [| ws targets IH]; intros c Hx; simpl; [reflexivity |].
  rewrite IH by (simpl in Hx; tauto).
  destruct (send_spec ws m c) as (_ & _ & Sother & _). apply Sother.
  simpl in Hx. intros ->. tauto.
Qed.

Lemma spoke_same (who : nat) c c' :
  spoke who c c' -> clients c' = clients c /\ readyState c' = readyState c.
Proof.
  induction 1 as [c | c c' m H [IHc IHr] | c c' m H [IHc IHr]]; [auto | |].
  - destruct (send_spec who m c') as (Sc & Sr & _). split; congruence.
  - destruct (send_each_same (clients c') m c') as [Sc Sr].
    unfold broadcast. split; congruence.
Qed.

Lemma spoke_stranger (who : nat) c c' x :
  spoke who c c' -> x <> who -> ~ In x (clients c) ->
  frames_to x (sent c') = frames_to x (sent c).
Proof.
  induction 1 as [c | c c' m H IH | c c' m H IH]; intros Hne Hx; [reflexivity | |].
  - destruct (send_spec who m c') as (_ & _ & Sother & _).
    rewrite Sother by exact Hne. now apply IH.
  - unfold broadcast. rewrite send_each_stranger.
    + now apply IH.
    + rewrite (proj1 (@spoke_same _ _ _ H)). exact Hx.
Qed.

Lemma spoke_trans (who : nat) c1 c2 c3 : spoke who c1 c2 -> spoke who c2 c3 -> spoke who c1 c3.
Proof.
  intros H12 H23. induction H23 as [c | c c' m H IH | c c' m H IH]; [exact H12 | |].
  - apply spoke_unicast. now apply IH.
  - apply spoke_broadcast. now apply IH.
Qed.

(** On a server, [emit] is one broadcast and returns. *)
Lemma server_emit (event : TimerEvent) s :
  listeners s = [(0%nat, broadcast_listener)] ->
  emit event s =
  (Ok tt, with_ext (broadcast (mapTimerEvent event) (ext s))
            (with_emitted (fun l => (l ++ [event])%list) s)).
Proof. intros Hl. unfold emit. rewrite Hl. reflexivity. Qed.

(** The [try]/[catch] of a hook on a server: one broadcast, of the firing
    or of the failure, and a normal return. *)
Lemma server_firing (t : TimerTask) (ev1 : TimerEvent) (ev2 : exn -> TimerEvent) s :
  listeners s = [(0%nat, broadcast_listener)] ->
  let out := try_catch (runTask host t ;;; emit ev1) (fun e => emit (ev2 e)) s in
  let event := match fst (runTask host t s) with Ok _ => ev1 | Throw x => ev2 x end in
  fst out = Ok tt /\
  same_schedule s (snd out) /\
  emitted (snd out) = (emitted s ++ [event])%list /\
  ext (snd out) = broadcast (mapTimerEvent event) (ext s).
Proof.
  intros Hl out event. subst out event.
  split; [| split; [apply firing_same |]].
  - destruct (runTask_spec host t s) as [[Hok [lines Hs]] | (x & Hx & _)].
    + rewrite firing_ok by exact Hok. rewrite Hs. unfold try_catch.
      rewrite server_emit by exact Hl. reflexivity.
    + rewrite firing_throw with (x := x) by exact Hx.
      rewrite server_emit by exact Hl. reflexivity.
  - destruct (runTask_spec host t s) as [[Hok [lines Hs]] | (x & Hx & _)].
    + rewrite firing_ok by exact Hok. rewrite Hok, Hs. unfold try_catch.
      rewrite server_emit by exact Hl. split; reflexivity.
    + rewrite firing_throw with (x := x) by exact Hx. rewrite Hx.
      rewrite server_emit by exact Hl. split; reflexivity.
Qed.

(** A hook on a server: returns normally, leaves the subscribers, and
    says nothing or broadcasts one frame. *)
Lemma server_run_callback (cb : callback) s :
  listeners s = [(0%nat, broadcast_listener)] ->
  fst (run_callback host cb s) = Ok tt /\
  listeners (snd (run_callback host cb s)) = listeners s /\
  (ext (snd (run_callback host cb s)) = ext s \/
   exists m, ext (snd (run_callback host cb s)) = broadcast m (ext s)).
Proof.
  intros Hl. destruct cb as [k | k every | k every]; simpl;
    destruct (map_get (timers s) k) as [e |] eqn:E.
  - rewrite once_hook_tracked with (cur := e) by exact E. rewrite try_finally_delete.
    match goal with |- context [try_catch (runTask host ?t ;;; emit ?e1) ?hd ?s1] =>
      destruct (@server_firing t e1 (fun err => timer_error (Some k) (exn_message err)) s1 Hl)
        as (Hf & (_ & Hls & _) & _ & Hx) end.
    simpl in *. split; [exact Hf |]. split; [exact Hls |]. right. eexists. exact Hx.
  - rewrite once_hook_untracked by exact E. auto.
  - rewrite interval_first_hook_tracked with (cur := e) by exact E.
    match goal with |- context [try_catch (runTask host ?t ;;; emit ?e1) ?hd ?s1] =>
      destruct (@server_firing t e1 (fun err => timer_error (Some k) (exn_message err)) s1 Hl)
        as (Hf & (_ & Hls & _) & _ & Hx) end.
    simpl in *. split; [exact Hf |]. split; [exact Hls |]. right. eexists. exact Hx.
  - rewrite interval_first_hook_untracked by exact E. auto.
  - rewrite interval_tick_hook_tracked with (cur := e) by exact E.
    match goal with |- context [try_catch (runTask host ?t ;;; emit ?e1) ?hd ?s1] =>
      destruct (@server_firing t e1 (fun err => timer_error (Some k) (exn_message err)) s1 Hl)
        as (Hf & (_ & Hls & _) & _ & Hx) end.
    simpl in *. split; [exact Hf |]. split; [exact Hls |]. right. eexists. exact Hx.
  - rewrite interval_tick_hook_untracked by exact E. auto.
Qed.

Lemma server_host_fire (h : nat) s :
  listeners s = [(0%nat, broadcast_listener)] ->
  fst (host_fire host h s) = Ok tt /\
  listeners (snd (host_fire host h s)) = listeners s /\
  (ext (snd (host_fire host h s)) = ext s \/
   exists m, ext (snd (host_fire host h s)) = broadcast m (ext s)).
Proof.
  intros Hl. unfold host_fire.
  destruct (table_get (host_timers s) h) as [t0 |]; [| auto].
  destruct (ht_kind t0); [| now apply server_run_callback].
  exact (@server_run_callback (ht_callback t0)
           (with_host_timers (fun tb => table_remove tb h) s) Hl).
Qed.

(** [handleRequest] on a server: whatever it does to the connections is
    frames for the requester or for everybody, and the subscribers stay. *)
Lemma server_handleRequest ws (request : WsClientToServer) s :
  listeners s = [(0%nat, broadcast_listener)] ->
  listeners (snd (handleRequest host ws request s)) = listeners s /\
  spoke ws (ext s) (ext (snd (handleRequest host ws request s))).
Proof.
  intros Hl. destruct request as [k | | k | input].
  - simpl. split; [reflexivity |]. apply spoke_unicast, spoke_nothing.
  - simpl. split; [reflexivity |]. apply spoke_unicast, spoke_nothing.
  - simpl. destruct (cancelTimer_effect k s) as (_ & _ & _ & _ & _ & Hls & _ & _ & Hx).
    cbv zeta in *. unfold bind. rewrite server_emit in Hx by exact Hl. simpl in Hx.
    destruct (cancelTimer k s) as [[b | e] s1]; simpl in *;
      (split; [exact Hls |]); rewrite Hx; apply spoke_broadcast, spoke_nothing.
  - rewrite handleRequest_create.
    assert (Hn : listeners (snd (normalizeTimerCreateInput host input s)) = listeners s /\
                 ext (snd (normalizeTimerCreateInput host input s)) = ext s).
    { unfold normalizeTimerCreateInput, bind, lift_result, ret, safeNow.
      destruct (get_prop input "mode") as [md | e]; simpl; [| auto].
      destruct (is_string md "once").
      - destruct (get_prop input "runAt") as [r | e]; simpl; [| auto].
        destruct (Number_isFinite r); simpl;
          (destruct (get_prop input "task") as [t | e]; simpl; [| auto]);
          destruct (normalizeTask host t); simpl; auto.
      - destruct (get_prop input "everyMs") as [ev | e]; simpl; [| auto].
        destruct (get_prop input "startAt") as [a | e]; simpl; [| auto].
        destruct (get_prop input "task") as [t | e]; simpl; [| auto].
        destruct (normalizeTask host t); simpl; auto. }
    destruct (normalizeTimerCreateInput host input s) as [[n | e] s1]; simpl in *.
    + destruct Hn as [Hl1 Hx1].
      destruct (createTimer_effect host n s1)
        as (i & ht & _ & _ & _ & _ & _ & _ & _ & _ & _ & _ & Hls & _ & _ & Hx & _).
      cbv zeta in *. unfold bind.
      rewrite server_emit in Hx by congruence. simpl in Hx.
      destruct (createTimer host n s1) as [[r | e] s2]; simpl in *;
        (split; [congruence |]); rewrite Hx, Hx1; apply spoke_broadcast, spoke_nothing.
    + destruct Hn as [Hl1 Hx1]. split; [exact Hl1 |]. rewrite Hx1. apply spoke_nothing.
Qed.

(** [ws.on('message', ...)] on a server: it never throws. *)
Lemma on_message_returns ws (data : string) s : fst (on_message host ws data s) = Ok tt.
Proof.
  unfold on_message. destruct (parseClientMessage host data) as [request |]; [| reflexivity].
  unfold try_catch. destruct (handleRequest host ws request s) as [[[] | e] s1]; reflexivity.
Qed.

Lemma server_on_message ws (data : string) s :
  listeners s = [(0%nat, broadcast_listener)] ->
  listeners (snd (on_message host ws data s)) = listeners s /\
  spoke ws (ext s) (ext (snd (on_message host ws data s))).
Proof.
  intros Hl. unfold on_message.
  destruct (parseClientMessage host data) as [request |].
  - destruct (@server_handleRequest ws request s Hl) as [Hls Hsp]. unfold try_catch.
    destruct (handleRequest host ws request s) as [[[] | e] s1]; simpl in *;
      [auto |]. split; [exact Hls |]. now apply spoke_unicast.
  - simpl. split; [reflexivity |]. apply spoke_unicast, spoke_nothing.
Qed.

(** [wss.on('connection', ...)] in one piece. *)
Lemma on_connection_effect ws s :
  on_connection host path port ws s =
  (Ok tt,
   with_ext
     (send ws (WsTimerList (snapshot s))
        (send ws (WsHello (of_Z (Date_now host (clock_reads s))) path port)
           (if existsb (Nat.eqb ws) (clients (ext s)) then ext s
            else mkConnections (clients (ext s) ++ [ws])%list (readyState (ext s))
                   (sent (ext s)))))
     (with_clock_reads (S (clock_reads s)) s)).
Proof. reflexivity. Qed.

Lemma fold_ws_close (targets : list nat) c :
  let c' := fold_left (fun acc ws => ws_close ws acc) targets c in
  clients c' = clients c /\ sent c' = sent c /\
  (forall x, is_open (readyState c x) = false -> is_open (readyState c' x) = false) /\
  (forall x, In x targets -> is_open (readyState c' x) = false) /\
  (forall x, ~ In x targets -> readyState c' x = readyState c x).
Proof.
  revert c. induction targets as [| ws targets IH]; intros c; cbv zeta; simpl.
  { split; [reflexivity |]. split; [reflexivity |]. split; [auto |].
    split; [intros x [] | reflexivity]. }
  destruct (IH (ws_close ws c)) as (Hc & Hs & Hkeep & Hin & Hout). cbv zeta in *.
  assert (Hclosed : forall x, is_open (readyState c x) = false ->
                              is_open (readyState (ws_close ws c) x) = false).
  { intros x Hx. simpl. destruct (Nat.eqb x ws); [| exact Hx].
    destruct (readyState c x); simpl in *; congruence. }
  split; [exact Hc |]. split; [exact Hs |]. split; [auto |]. split.
  - intros x [<- | Hx]; [| now apply Hin]. apply Hkeep. simpl. rewrite Nat.eqb_refl.
    now destruct (readyState c ws).
  - intros x Hx. rewrite Hout by tauto. simpl.
    destruct (Nat.eqb x ws) eqn:E; [| reflexivity].
    apply Nat.eqb_eq in E. subst. tauto.
Qed.

Lemma serving_start (ready : nat -> ReadyState) : serving (startTimerWsServer ready).
Proof. split; [reflexivity | constructor]. Qed.

Lemma serving_spoke (who : nat) s s' :
  listeners s' = listeners s -> spoke who (ext s) (ext s') -> serving s -> serving s'.
Proof.
  intros Hl Hsp [H1 H2]. split; [congruence |]. now rewrite (proj1 (@spoke_same _ _ _ Hsp)).
Qed.

Lemma existsb_eqb_In (x : nat) (l : list nat) : existsb (Nat.eqb x) l = true <-> In x l.
Proof.
  rewrite existsb_exists. split.
  - intros (y & Hy & Heq). apply Nat.eqb_eq in Heq. now subst.
  - intros Hx. exists x. split; [exact Hx | apply Nat.eqb_refl].
Qed.

(** Every action on a server returns normally and leaves a server. *)
Lemma server_perform_serving (a : ServerAction) s :
  serving s ->
  fst (server_perform host path port allowedOrigins a s) = Ok tt /\
  serving (snd (server_perform host path port allowedOrigins a s)).
Proof.
  intros Hs. pose proof Hs as [Hl Hn].
  assert (Hconn : forall ws, serving (snd (on_connection host path port ws s))).
  { intros ws. rewrite on_connection_effect. split; [exact Hl |]. simpl.
    repeat match goal with |- context [send ?w ?m ?c] =>
      rewrite (proj1 (send_spec w m c)) end.
    destruct (existsb (Nat.eqb ws) (clients (ext s))) eqn:E; simpl; [exact Hn |].
    apply NoDup_snoc; [exact Hn |]. intros Hin. apply existsb_eqb_In in Hin. congruence. }
  destruct a as [ws url origin | ws data | ws | ws r | h |]; simpl.
  - unfold on_upgrade.
    destruct (negb _); [split; [reflexivity | exact Hs] |].
    destruct (negb _); [split; [reflexivity | exact Hs] |].
    split; [reflexivity | apply Hconn].
  - split; [apply on_message_returns |].
    destruct (@server_on_message ws data s Hl) as [Hls Hsp].
    now apply serving_spoke with (who := ws) (s := s).
  - split; [reflexivity |]. split; [exact Hl |]. simpl. now apply NoDup_filter.
  - split; [reflexivity |]. split; [exact Hl | exact Hn].
  - destruct (@server_host_fire h s Hl) as (Hf & Hls & Hx). split; [exact Hf |].
    split; [congruence |]. destruct Hx as [-> | [m ->]]; [exact Hn |].
    now rewrite (proj1 (@broadcast_spec m (ext s) Hn)).
  - split; [reflexivity |]. split; [exact Hl |]. simpl.
    now rewrite (proj1 (fold_ws_close (clients (ext s)) (ext s))).
Qed.

Lemma server_run_serving (acts : list ServerAction) s :
  serving s -> serving (server_run host path port allowedOrigins acts s).
Proof.
  revert s. induction acts as [| a acts IH]; intros s Hs; simpl; [exact Hs |].
  apply IH. now apply server_perform_serving.
Qed.

Lemma server_reachable_serving s :
  server_reachable host path port allowedOrigins s -> serving s.
Proof. intros (ready & acts & ->). apply server_run_serving, serving_start. Qed.

End ServerSteps.

Section ServerRequests.

Variable host : Host.
Implicit Types (s : state Connections) (c : Connections) (ws : nat)
  (m : WsServerToClient).

Lemma send_each_closed (targets : list nat) m c :
  (forall y, In y targets -> is_open (readyState c y) = false) ->
  send_each targets m c = c.
Proof.
  induction targets as [| ws targets IH]; intros Hc; simpl; [reflexivity |].
  assert (Hs : send ws m c = c) by (unfold send; now rewrite (Hc ws (or_introl eq_refl))).
  rewrite Hs. apply IH. intros y Hy. apply Hc. now right.
Qed.

(** One broadcast on a server, frame by frame. *)
Lemma broadcast_frames m s s' :
  serving s -> ext s' = broadcast m (ext s) ->
  clients (ext s') = clients (ext s) /\
  readyState (ext s') = readyState (ext s) /\
  forall y, frames_to y (sent (ext s')) =
            (frames_to y (sent (ext s)) ++ (if open_client (ext s) y then [m] else []))%list.
Proof. intros [_ Hn] ->. now apply broadcast_spec. Qed.

Lemma after_normalize_same (input : value) s :
  timers (after_normalize input s) = timers s /\
  listeners (after_normalize input s) = listeners s /\
  emitted (after_normalize input s) = emitted s /\
  host_timers (after_normalize input s) = host_timers s /\
  next_handle (after_normalize input s) = next_handle s /\
  id_draws (after_normalize input s) = id_draws s /\
  ext (after_normalize input s) = ext s.
Proof. unfold after_normalize. destruct (_ && _); repeat split. Qed.

Lemma input_as_specified_task (now : number) (input : value) (t : TimerTask) :
  input_task (input_as_specified now input t) = t /\
  input_mode (input_as_specified now input t) =
    (if is_string (field input "mode") "once" then once else interval).
Proof. unfold input_as_specified. destruct (is_string _ _); split; reflexivity. Qed.

(** A [timer.create] frame on a server, in one piece. *)
Lemma on_message_create ws (data : string) (input : value) s :
  listeners s = [(0%nat, broadcast_listener)] ->
  parseClientMessage host data = Some (ReqTimerCreate input) ->
  on_message host ws data s =
  match normalizeTask host (field input "task") with
  | Ok t' =>
      (Ok tt,
       snd (createTimer host
              (input_as_specified (of_Z (Date_now host (clock_reads s))) input t')
              (after_normalize input s)))
  | Throw e =>
      (Ok tt,
       with_ext (send ws (WsError (exn_message e) (Some "timer.create"))
                   (ext (after_normalize input s)))
         (after_normalize input s))
  end.
Proof.
  intros Hl Hp. unfold on_message. rewrite Hp. unfold try_catch.
  rewrite handleRequest_create.
  rewrite normalizeTimerCreateInput_object by (eapply parseClientMessage_create; eauto).
  destruct (normalizeTask host (field input "task")) as [t' | e]; [| reflexivity].
  match goal with |- context [createTimer host ?n ?s1] =>
    destruct (createTimer_effect host n s1)
      as (i & ht & _ & _ & _ & _ & _ & _ & _ & _ & _ & _ & _ & _ & Hf & _);
    cbv zeta in Hf;
    rewrite server_emit in Hf
      by (rewrite (proj1 (proj2 (after_normalize_same input s))); exact Hl);
    simpl in Hf; unfold bind;
    destruct (createTimer host n s1) as [[r | e] s2] end;
    simpl in *; [reflexivity | discriminate].
Qed.

End ServerRequests.

Lemma demo_server_reachable :
  server_reachable demo_host "/ws" (of_Z 3001) default_origins demo_server.
Proof.
  exists (fun _ => OPEN).
  exists [SrvUpgrade 1%nat (Some "/ws") None; SrvUpgrade 2%nat (Some "/ws") None].
  vm_compute. reflexivity.
Qed.

(* ===================================================================== *)
(** ** Further properties of the connection layer *)
(* ===================================================================== *)

Section ServerProperties.

Variable host : Host.
Variable path : string.
Variable port : number.
Variable allowedOrigins : list string.

Local Abbreviation server_reachable := (server_reachable host path port allowedOrigins).
Local Abbreviation server_perform := (server_perform host path port allowedOrigins).
Local Abbreviation server_run := (server_run host path port allowedOrigins).

(** X6. Nothing the server runs lets an exception escape: in every state
    a server can reach, an upgrade request, a frame from a client (whatever
    its bytes), a socket closing, a timer callback run by the host and the
    shutdown all return normally, and they leave the broadcasting listener
    as the scheduler's only subscriber and no client listed twice. (A
    frame is built from parsed JSON, which [JSON.stringify] always
    serialises, and [send] writes to open sockets only.) *)
Theorem server_handlers_never_throw (s : state Connections) (a : ServerAction) :
  server_reachable s ->
  fst (server_perform a s) = Ok tt /\
  serving (snd (server_perform a s)).
Proof.
  intros Hreach. apply server_perform_serving.
  now apply server_reachable_serving with (host := host) (path := path) (port := port)
    (allowedOrigins := allowedOrigins).
Qed.

(** X7. Every event the scheduler emits on a server is delivered as one
    frame, the event itself, to each client whose socket is open, and to
    nobody else; no client and no ready state changes, and the [emit]
    returns normally. *)
Theorem emitted_event_reaches_every_open_client
  (s : state Connections) (event : TimerEvent) :
  server_reachable s ->
  let s' := snd (emit event s) in
  fst (emit event s) = Ok tt /\
  clients (ext s') = clients (ext s) /\
  readyState (ext s') = readyState (ext s) /\
  forall x, frames_to x (sent (ext s')) =
            (frames_to x (sent (ext s)) ++
             (if open_client (ext s) x then [mapTimerEvent event] else []))%list.
Proof.
  intros Hreach s'. subst s'.
  pose proof (@server_reachable_serving host path port allowedOrigins s Hreach) as Hs.
  rewrite server_emit by apply Hs. split; [reflexivity |].
  eapply broadcast_frames; eauto.
Qed.

(** X8. A well-formed [timer.cancel] frame is answered by a broadcast,
    not by a reply: every open client, the sender among them only if it is
    still one, receives the one frame [timer.canceled] with the identifier
    and with [ok] telling whether a live timer had it; afterwards no timer
    is tracked under the identifier and the others are untouched. *)
Theorem cancel_request_is_answered_to_all
  (s : state Connections) (ws : nat) (data : string) (k : string) :
  server_reachable s ->
  parseClientMessage host data = Some (ReqTimerCancel k) ->
  let s' := snd (on_message host ws data s) in
  timers s' = map_delete (timers s) k /\
  tracked s' k = false /\
  emitted s' = (emitted s ++ [timer_canceled k (tracked s k)])%list /\
  clients (ext s') = clients (ext s) /\
  readyState (ext s') = readyState (ext s) /\
  forall x, frames_to x (sent (ext s')) =
            (frames_to x (sent (ext s)) ++
             (if open_client (ext s) x then [WsTimerCanceled k (tracked s k)] else []))%list.
Proof.
  intros Hreach Hp s'. subst s'.
  pose proof (@server_reachable_serving host path port allowedOrigins s Hreach) as Hs.
  destruct (cancelTimer_effect k s) as (Ht & _ & _ & _ & _ & _ & He & Hf & Hx).
  cbv zeta in *. rewrite server_emit in Hf, Hx by apply Hs. simpl in Hf, Hx.
  unfold on_message. rewrite Hp. unfold try_catch. simpl. unfold bind.
  destruct (cancelTimer k s) as [[b | e] s1]; simpl in *; [| discriminate].
  split; [exact Ht |].
  split; [unfold tracked; rewrite Ht; now rewrite map_get_delete_eq |].
  split; [exact He |]. eapply broadcast_frames; eauto.
Qed.

(** X9. A well-formed [timer.create] frame whose [task] normalises makes
    one timer, tracked under the identifier just drawn, with the normalised
    task and the mode the payload names, and announces it by one
    [timer.created] frame to every open client and to nobody else. When
    the [task] does not normalise (it is missing, or its message cannot be
    turned into a string) no timer is made and nothing is emitted: the
    sender alone gets one [error] frame carrying the exception's message
    and the request type [timer.create]. *)
Theorem create_request_is_announced_to_all
  (s : state Connections) (ws : nat) (data : string) (input : value) :
  server_reachable s ->
  parseClientMessage host data = Some (ReqTimerCreate input) ->
  let s' := snd (on_message host ws data s) in
  match normalizeTask host (field input "task") with
  | Ok t' =>
      exists i,
        id i = randomUUID host (id_draws s) /\
        task i = t' /\
        mode i = (if is_string (field input "mode") "once" then once else interval) /\
        map_get (timers s') (id i) = Some (mkInternal i (next_handle s)) /\
        emitted s' = (emitted s ++ [timer_created i])%list /\
        forall x, frames_to x (sent (ext s')) =
                  (frames_to x (sent (ext s)) ++
                   (if open_client (ext s) x then [WsTimerCreated i] else []))%list
  | Throw e =>
      timers s' = timers s /\
      host_timers s' = host_timers s /\
      emitted s' = emitted s /\
      frames_to ws (sent (ext s')) =
        (frames_to ws (sent (ext s)) ++
         (if is_open (readyState (ext s) ws)
          then [WsError (exn_message e) (Some "timer.create")] else []))%list /\
      forall x, x <> ws -> frames_to x (sent (ext s')) = frames_to x (sent (ext s))
  end.
Proof.
  intros Hreach Hp s'. subst s'.
  pose proof (@server_reachable_serving host path port allowedOrigins s Hreach) as Hs.
  rewrite (@on_message_create host ws data input s (proj1 Hs) Hp).
  destruct (after_normalize_same input s) as (At & Al & Ae & Ah & An & Ad & Ax).
  destruct (normalizeTask host (field input "task")) as [t' | e]; simpl.
  - match goal with |- context [createTimer host ?n ?s1] =>
      destruct (createTimer_effect host n s1)
        as (i & ht & Hid & Htask & Hmode & _ & _ & _ & Ht & _ & _ & _ & _ & He & _ & Hx & _);
      destruct (input_as_specified_task (of_Z (Date_now host (clock_reads s))) input t')
        as [Itask Imode]
    end.
    cbv zeta in *. rewrite server_emit in Hx by (rewrite Al; apply Hs). simpl in Hx.
    exists i. split; [now rewrite Hid, Ad |]. split; [now rewrite Htask |].
    split; [now rewrite Hmode |].
    split; [rewrite Ht, An; apply map_get_set_eq |]. split; [now rewrite He, Ae |].
    try rewrite Ax in Hx. eapply broadcast_frames; [exact Hs | exact Hx].
  - rewrite At, Ah, Ae, Ax. split; [reflexivity |]. split; [reflexivity |].
    split; [reflexivity |].
    destruct (send_spec ws (WsError (exn_message e) (Some "timer.create")) (ext s))
      as (_ & _ & Hother & Hself). auto.
Qed.

(** X10. When the host runs a handle armed for a timer that is tracked,
    every open client, and nobody else, receives exactly one frame:
    [timer.fired] with the timer as just stamped ([lastRunAt] the reading
    of the clock, [nextRunAt] the same reading for a one-shot timer and the
    reading plus the period for an interval timer) when the task ran, or
    [timer.error] with the timer's identifier and the exception's message
    when the task threw. The callback returns normally either way. *)
Theorem firing_is_announced_to_all
  (s : state Connections) (h : nat) (t0 : HostTimer) (e : InternalTimer) :
  server_reachable s ->
  table_get (host_timers s) h = Some t0 ->
  map_get (timers s) (callback_id (ht_callback t0)) = Some e ->
  let s' := snd (host_fire host h s) in
  let firedAt := of_Z (Date_now host (clock_reads s)) in
  let next := match ht_callback t0 with
              | OnceHook _ => firedAt
              | IntervalFirstHook _ every | IntervalTickHook _ every =>
                  num_add firedAt every
              end in
  let frame := match fst (runTask host (task (info e)) s) with
               | Ok _ => WsTimerFired (fired firedAt next (info e)) firedAt
               | Throw x =>
                   WsTimerError (Some (callback_id (ht_callback t0))) (exn_message x)
               end in
  fst (host_fire host h s) = Ok tt /\
  clients (ext s') = clients (ext s) /\
  readyState (ext s') = readyState (ext s) /\
  forall x, frames_to x (sent (ext s')) =
            (frames_to x (sent (ext s)) ++
             (if open_client (ext s) x then [frame] else []))%list.
Proof.
  intros Hreach Hh Hk s' firedAt next frame. subst s'.
  pose proof (@server_reachable_serving host path port allowedOrigins s Hreach) as Hs.
  pose proof (proj1 Hs) as Hl.
  unfold host_fire. rewrite Hh.
  set (s0 := match ht_kind t0 with
             | ByTimeout => with_host_timers (fun tb => table_remove tb h) s
             | ByInterval => s
             end).
  assert (H0 : timers s0 = timers s /\ listeners s0 = listeners s /\ ext s0 = ext s /\
               clock_reads s0 = clock_reads s)
    by (subst s0; destruct (ht_kind t0); repeat split).
  destruct H0 as (H0t & H0l & H0x & H0c). clearbody s0.
  rewrite <- H0t in Hk. rewrite <- H0l in Hl.
  assert (Hgen : forall (ev1 : TimerEvent) (s1 : state Connections),
             listeners s1 = [(0%nat, broadcast_listener)] -> ext s1 = ext s ->
             ev1 = timer_fired (fired firedAt next (info e)) firedAt ->
             let out := try_catch (runTask host (task (info e)) ;;; emit ev1)
                          (fun err => emit (timer_error
                                              (Some (callback_id (ht_callback t0)))
                                              (exn_message err))) s1 in
             fst out = Ok tt /\ ext (snd out) = broadcast frame (ext s)).
  { intros ev1 s1 Hl1 Hx1 Hev out. subst out.
    destruct (@server_firing host (task (info e)) ev1
                (fun err => timer_error (Some (callback_id (ht_callback t0)))
                              (exn_message err)) s1 Hl1) as (Hf & _ & _ & Hx).
    cbv zeta in *. split; [exact Hf |]. rewrite Hx, Hx1. f_equal. subst frame.
    rewrite (runTask_outcome host (task (info e)) s1 s).
    destruct (fst (runTask host (task (info e)) s)); [now rewrite Hev | reflexivity]. }
  assert (Hfinal : fst (run_callback host (ht_callback t0) s0) = Ok tt /\
                   ext (snd (run_callback host (ht_callback t0) s0)) =
                     broadcast frame (ext s)).
  { clearbody frame.
    destruct (ht_callback t0) as [k | k every | k every]; simpl in Hk, Hgen |- *;
      [rewrite once_hook_tracked with (cur := e) by exact Hk;
       rewrite try_finally_delete
      | rewrite interval_first_hook_tracked with (cur := e) by exact Hk
      | rewrite interval_tick_hook_tracked with (cur := e) by exact Hk];
      match goal with |- context [try_catch (runTask host ?t ;;; emit ?e1) ?hd ?s1] =>
        destruct (Hgen e1 s1) as [A B];
          [exact Hl | exact H0x | subst firedAt next; rewrite H0c; reflexivity
          | split; [exact A | exact B]]
      end. }
  destruct Hfinal as [Hf Hx]. split; [exact Hf |]. eapply broadcast_frames; eauto.
Qed.

(** X11. A socket that completes the upgrade becomes a client (once,
    however often it is announced) and is greeted by two frames of its own,
    in this order: [hello] with the time just read and the server's path
    and port, then [timer.list] with the timers alive at that moment. No
    other socket receives anything, nothing is emitted to the scheduler's
    subscribers, and no timer changes. *)
Theorem new_connection_is_greeted (s : state Connections) (ws : nat) :
  server_reachable s ->
  let s' := snd (on_connection host path port ws s) in
  fst (on_connection host path port ws s) = Ok tt /\
  timers s' = timers s /\ host_timers s' = host_timers s /\ emitted s' = emitted s /\
  In ws (clients (ext s')) /\
  NoDup (clients (ext s')) /\
  (forall x, x <> ws -> (In x (clients (ext s')) <-> In x (clients (ext s)))) /\
  frames_to ws (sent (ext s')) =
    (frames_to ws (sent (ext s)) ++
     (if is_open (readyState (ext s) ws)
      then [WsHello (of_Z (Date_now host (clock_reads s))) path port;
            WsTimerList (snapshot s)]
      else []))%list /\
  (forall x, x <> ws -> frames_to x (sent (ext s')) = frames_to x (sent (ext s))).
Proof.
  intros Hreach s'. subst s'.
  pose proof (@server_reachable_serving host path port allowedOrigins s Hreach) as [_ Hn].
  rewrite on_connection_effect. simpl.
  set (c0 := if existsb (Nat.eqb ws) (clients (ext s)) then ext s
             else mkConnections (clients (ext s) ++ [ws])%list (readyState (ext s))
                    (sent (ext s))).
  assert (Hc0 : readyState c0 = readyState (ext s) /\ sent c0 = sent (ext s))
    by (subst c0; destruct (existsb _ _); auto).
  destruct Hc0 as [Hr0 Hs0].
  set (hello := WsHello (of_Z (Date_now host (clock_reads s))) path port).
  destruct (send_spec ws hello c0) as (S1c & S1r & S1o & S1s).
  destruct (send_spec ws (WsTimerList (snapshot s)) (send ws hello c0))
    as (S2c & S2r & S2o & S2s).
  split; [reflexivity |]. split; [reflexivity |]. split; [reflexivity |].
  split; [reflexivity |].
  rewrite S2c, S1c.
  split.
  { subst c0. destruct (existsb (Nat.eqb ws) (clients (ext s))) eqn:E; simpl.
    - now apply existsb_eqb_In.
    - apply in_or_app. right. now left. }
  split.
  { subst c0. destruct (existsb (Nat.eqb ws) (clients (ext s))) eqn:E; simpl; [exact Hn |].
    apply NoDup_snoc; [exact Hn |]. intros Hin. apply existsb_eqb_In in Hin. congruence. }
  split.
  { intros x Hne. subst c0. destruct (existsb (Nat.eqb ws) (clients (ext s))); simpl;
      [tauto |]. rewrite in_app_iff. simpl. intuition congruence. }
  split.
  - rewrite S2s, S1s, S1r, Hr0, Hs0, <- app_assoc.
    now destruct (is_open (readyState (ext s) ws)).
  - intros x Hne. rewrite S2o, S1o, Hs0 by exact Hne. reflexivity.
Qed.

(** X12. The server sends a socket nothing unless it is a client or it is
    being answered: in every reachable state, a socket that is not among
    the clients (never connected, or removed when its [close] event came)
    receives no frame along any further history in which it neither
    connects nor sends, whatever other sockets do and whatever timers
    fire; and the [close] event does remove the socket. *)
Theorem strangers_get_no_frames
  (s : state Connections) (ws : nat) (acts : list ServerAction) :
  server_reachable s ->
  ~ In ws (clients (ext s)) ->
  forallb (fun a => negb (concerns ws a)) acts = true ->
  (~ In ws (clients (ext (server_run acts s))) /\
   frames_to ws (sent (ext (server_run acts s))) = frames_to ws (sent (ext s))) /\
  (forall s0 : state Connections,
      ~ In ws (clients (ext (snd (on_close ws s0)))) /\
      sent (ext (snd (on_close ws s0))) = sent (ext s0)).
Proof.
  intros Hreach Hout Hacts.
  pose proof (@server_reachable_serving host path port allowedOrigins s Hreach) as Hs.
  split.
  - clear Hreach. revert s Hs Hout. induction acts as [| a acts IH]; intros s Hs Hout;
      simpl in *; [auto |].
    apply andb_true_iff in Hacts. destruct Hacts as [Ha Hacts].
    apply negb_true_iff in Ha.
    destruct (@server_perform_serving host path port allowedOrigins a s Hs) as [_ Hs1].
    assert (Hstep : ~ In ws (clients (ext (snd (server_perform a s)))) /\
                    frames_to ws (sent (ext (snd (server_perform a s)))) =
                    frames_to ws (sent (ext s))).
    { pose proof Hs as [Hl Hn].
      destruct a as [x url origin | x data | x | x r | h |]; simpl in *.
      - apply Nat.eqb_neq in Ha. unfold on_upgrade.
        destruct (negb _); [auto |]. destruct (negb _); [auto |].
        rewrite on_connection_effect. simpl.
        set (c0 := if existsb (Nat.eqb x) (clients (ext s)) then ext s
                   else mkConnections (clients (ext s) ++ [x])%list (readyState (ext s))
                          (sent (ext s))).
        assert (Hc0 : ~ In ws (clients c0) /\ sent c0 = sent (ext s)).
        { subst c0. destruct (existsb _ _); simpl; [auto |]. split; [| reflexivity].
          rewrite in_app_iff. simpl. intuition congruence. }
        repeat match goal with |- context [send ?w ?m ?c] =>
          let H := fresh "S" in pose proof (send_spec w m c) as H; revert H;
          generalize (send w m c) end.
        intros c2 (S2c & _ & S2o & _) c1 (S1c & _ & S1o & _).
        rewrite S1c, S2c. split; [apply Hc0 |].
        rewrite S1o, S2o by congruence. now rewrite (proj2 Hc0).
      - apply Nat.eqb_neq in Ha.
        destruct (@server_on_message host x data s Hl) as [_ Hsp].
        rewrite (proj1 (@spoke_same _ _ _ Hsp)). split; [exact Hout |].
        apply (@spoke_stranger x _ _ ws Hsp); [congruence | exact Hout].
      - split; [| reflexivity]. intros Hin. apply filter_In in Hin. tauto.
      - auto.
      - destruct (@server_host_fire host h s Hl) as (_ & _ & [-> | [m ->]]); [auto |].
        unfold broadcast. rewrite (proj1 (send_each_same (clients (ext s)) m (ext s))).
        split; [exact Hout |]. now apply send_each_stranger.
      - destruct (fold_ws_close (clients (ext s)) (ext s)) as (Hc & Hsent & _).
        cbv zeta in *. rewrite Hc, Hsent. auto. }
    destruct Hstep as [Hout1 Hfr1].
    destruct (IH Hacts _ Hs1 Hout1) as [IH1 IH2]. split; [exact IH1 | congruence].
  - intros s0. simpl. split; [| reflexivity].
    intros Hin. apply filter_In in Hin. destruct Hin as [_ Hne].
    now rewrite Nat.eqb_refl in Hne.
Qed.

(** X13. Shutting the server down closes every client's socket and cancels
    no timer: afterwards no client is open, the live timers and the host's
    armed timers are what they were, and whatever the scheduler emits from
    then on, and whatever timer the host still runs, puts no frame on any
    socket. *)
Theorem shutdown_silences_the_server (s : state Connections) :
  server_reachable s ->
  let s' := snd (close s) in
  fst (close s) = Ok tt /\
  timers s' = timers s /\ host_timers s' = host_timers s /\
  clients (ext s') = clients (ext s) /\
  (forall x, In x (clients (ext s')) -> is_open (readyState (ext s') x) = false) /\
  (forall event, fst (emit event s') = Ok tt /\ ext (snd (emit event s')) = ext s') /\
  (forall h, fst (host_fire host h s') = Ok tt /\ ext (snd (host_fire host h s')) = ext s').
Proof.
  intros Hreach s'.
  pose proof (@server_reachable_serving host path port allowedOrigins s Hreach) as [Hl Hn].
  destruct (fold_ws_close (clients (ext s)) (ext s)) as (Hc & Hsent & _ & Hclosed & _).
  cbv zeta in *.
  assert (Hclosed' : forall x, In x (clients (ext s')) ->
                               is_open (readyState (ext s') x) = false).
  { subst s'. simpl. rewrite Hc. exact Hclosed. }
  assert (Hquiet : forall m, broadcast m (ext s') = ext s').
  { intros m. unfold broadcast. now apply send_each_closed. }
  split; [reflexivity |]. split; [reflexivity |]. split; [reflexivity |].
  split; [subst s'; simpl; exact Hc |]. split; [exact Hclosed' |].
  assert (Hl' : listeners s' = [(0%nat, broadcast_listener)]) by exact Hl.
  split.
  - intros event. rewrite server_emit by exact Hl'. simpl. now rewrite Hquiet.
  - intros h. destruct (@server_host_fire host h s' Hl') as (Hf & _ & [Hx | [m Hx]]);
      (split; [exact Hf |]); rewrite Hx; [reflexivity | apply Hquiet].
Qed.

End ServerProperties.

Lemma demo_wire_server_reachable :
  server_reachable demo_wire_host "/ws" (of_Z 3001) default_origins demo_server.
Proof.
  exists (fun _ => OPEN).
  exists [SrvUpgrade 1%nat (Some "/ws") None; SrvUpgrade 2%nat (Some "/ws") None].
  vm_compute. reflexivity.
Qed.

Lemma demo_server_created_reachable :
  server_reachable demo_wire_host "/ws" (of_Z 3001) default_origins demo_server_created.
Proof.
  exists (fun _ => OPEN).
  exists [SrvUpgrade 1%nat (Some "/ws") None; SrvUpgrade 2%nat (Some "/ws") None;
          SrvMessage 1%nat create_frame_text].
  vm_compute. reflexivity.
Qed.

Lemma server_handlers_never_throw_witness :
  fst (server_perform demo_host "/ws" (of_Z 3001) default_origins
         (SrvMessage 1%nat "not json") demo_server) = Ok tt.
Proof.
  exact (proj1 (@server_handlers_never_throw demo_host "/ws" (of_Z 3001) default_origins
                  demo_server (SrvMessage 1%nat "not json") demo_server_reachable)).
Defined.

Lemma emitted_event_reaches_every_open_client_witness :
  frames_to 2%nat (sent (ext (snd (emit (timer_canceled "x" false) demo_server)))) =
  (frames_to 2%nat (sent (ext demo_server)) ++
   (if open_client (ext demo_server) 2%nat then [WsTimerCanceled "x" false] else []))%list.
Proof.
  exact (proj2 (proj2 (proj2
           (@emitted_event_reaches_every_open_client demo_host "/ws" (of_Z 3001)
              default_origins demo_server (timer_canceled "x" false)
              demo_server_reachable))) 2%nat).
Defined.

Lemma cancel_request_is_answered_to_all_witness :
  frames_to 2%nat
    (sent (ext (snd (on_message demo_wire_host 1%nat cancel_frame_text
                       demo_server_created)))) =
  (frames_to 2%nat (sent (ext demo_server_created)) ++
   (if open_client (ext demo_server_created) 2%nat
    then [WsTimerCanceled "timer_" (tracked demo_server_created "timer_")]
    else []))%list.
Proof.
  refine (proj2 (proj2 (proj2 (proj2 (proj2
            (@cancel_request_is_answered_to_all demo_wire_host "/ws" (of_Z 3001)
               default_origins demo_server_created 1%nat cancel_frame_text "timer_"
               demo_server_created_reachable _))))) 2%nat).
  vm_compute. reflexivity.
Defined.

Lemma create_request_is_announced_to_all_witness :
  exists i,
    id i = "timer_" /\
    task i = mkTask notify "tick" VUndefined /\
    mode i = once /\
    map_get (timers demo_server_created) (id i) = Some (mkInternal i 0%nat).
Proof.
  pose proof (@create_request_is_announced_to_all demo_wire_host "/ws" (of_Z 3001)
                default_origins demo_server 1%nat create_frame_text create_frame_payload
                demo_wire_server_reachable) as H.
  assert (Hp : parseClientMessage demo_wire_host create_frame_text =
               Some (ReqTimerCreate create_frame_payload)) by (vm_compute; reflexivity).
  specialize (H Hp). cbv zeta in H.
  change (normalizeTask demo_wire_host (field create_frame_payload "task"))
    with (@Ok TimerTask (mkTask notify "tick" VUndefined)) in H.
  destruct H as (i & Hid & Htask & Hmode & Hk & _).
  exists i. split; [exact Hid |]. split; [exact Htask |]. split; [exact Hmode | exact Hk].
Defined.

Lemma firing_is_announced_to_all_witness :
  fst (host_fire demo_wire_host 0%nat demo_server_created) = Ok tt.
Proof.
  refine (proj1 (@firing_is_announced_to_all demo_wire_host "/ws" (of_Z 3001)
                   default_origins demo_server_created 0%nat
                   (mkHostTimer ByTimeout (of_Z 3979) (OnceHook "timer_"))
                   (mkInternal
                      (mkInfo "timer_" once (of_Z 1014) (of_Z 5000) None None
                         (mkTask notify "tick" VUndefined)) 0%nat)
                   demo_server_created_reachable _ _)).
  - vm_compute. reflexivity.
  - vm_compute. reflexivity.
Defined.

Lemma new_connection_is_greeted_witness :
  frames_to 3%nat
    (sent (ext (snd (on_connection demo_host "/ws" (of_Z 3001) 3%nat demo_server)))) =
  (frames_to 3%nat (sent (ext demo_server)) ++
   (if is_open (readyState (ext demo_server) 3%nat)
    then [WsHello (of_Z (Date_now demo_host (clock_reads demo_server))) "/ws" (of_Z 3001);
          WsTimerList (snapshot demo_server)]
    else []))%list.
Proof.
  exact (proj1 (proj2 (proj2 (proj2 (proj2 (proj2 (proj2 (proj2
           (@new_connection_is_greeted demo_host "/ws" (of_Z 3001) default_origins
              demo_server 3%nat demo_server_reachable))))))))).
Defined.

Lemma strangers_get_no_frames_witness :
  frames_to 3%nat
    (sent (ext (server_run demo_wire_host "/ws" (of_Z 3001) default_origins
                  [SrvMessage 1%nat cancel_frame_text; SrvFire 0%nat]
                  demo_server_created))) =
  frames_to 3%nat (sent (ext demo_server_created)).
Proof.
  refine (proj2 (proj1 (@strangers_get_no_frames demo_wire_host "/ws" (of_Z 3001)
                          default_origins demo_server_created 3%nat
                          [SrvMessage 1%nat cancel_frame_text; SrvFire 0%nat]
                          demo_server_created_reachable _ _))).
  - vm_compute. intros [H | [H | []]]; discriminate.
  - vm_compute. reflexivity.
Defined.

Lemma shutdown_silences_the_server_witness :
  fst (close demo_server) = Ok tt /\
  timers (snd (close demo_server)) = timers demo_server.
Proof.
  pose proof (@shutdown_silences_the_server demo_host "/ws" (of_Z 3001) default_origins
                demo_server demo_server_reachable) as (H1 & H2 & _).
  split; [exact H1 | exact H2].
Defined.

(* ===================================================================== *)
(** ** Further properties: who may connect *)
(* ===================================================================== *)

Lemma existsb_eqb_string_In (x : string) (l : list string) :
  existsb (String.eqb x) l = true <-> In x l.
Proof.
  rewrite existsb_exists. split.
  - intros (y & Hy & Heq). apply String.eqb_eq in Heq. now subst.
  - intros Hx. exists x. split; [exact Hx | apply String.eqb_refl].
Qed.

(** X14. The upgrade gate. A request is let through, and then (the
    handshake done) handled exactly as a new connection, when its URL is
    the server's path and its
    [Origin] header, trimmed, is blank (or absent) or is one of the allowed
    origins; a blank origin passes whatever the list says. Every other
    request is dropped without a trace: no client is added, no frame is
    sent, the clock is not read, and the handler returns normally. *)
Theorem upgrade_is_gated_by_path_and_origin
  (host : Host) (path : string) (port : number) (allowedOrigins : list string)
  (s : state Connections) (ws : nat) (url origin : option string) :
  let trimmed := String_trim host (match origin with Some o => o | None => "" end) in
  let admitted := url = Some path /\ (trimmed = "" \/ In trimmed allowedOrigins) in
  (admitted ->
   on_upgrade host path port allowedOrigins ws url origin s =
   on_connection host path port ws s) /\
  (~ admitted ->
   on_upgrade host path port allowedOrigins ws url origin s = (Ok tt, s)).
Proof.
  intros trimmed admitted. subst admitted. unfold on_upgrade, isOriginAllowed.
  fold trimmed. split.
  - intros [-> Ho]. rewrite String.eqb_refl. simpl.
    destruct (String.eqb trimmed "") eqn:E; [reflexivity |].
    destruct Ho as [Ho | Ho]; [rewrite Ho in E; discriminate |].
    apply existsb_eqb_string_In in Ho. now rewrite Ho.
  - intros Hno. destruct url as [u |]; [| reflexivity].
    destruct (String.eqb u path) eqn:Eu; [| reflexivity].
    apply String.eqb_eq in Eu. subst u. simpl.
    destruct (String.eqb trimmed "") eqn:E.
    + apply String.eqb_eq in E. exfalso. apply Hno. auto.
    + destruct (existsb (String.eqb trimmed) allowedOrigins) eqn:F; [| reflexivity].
      apply existsb_eqb_string_In in F. exfalso. apply Hno. auto.
Qed.

(** X15. The allow-list read from [TIMER_WS_ALLOWED_ORIGINS] is never
    empty and never holds a blank entry: it is the comma-separated pieces
    of the variable, trimmed, without the blank ones, in their order, and
    when that leaves nothing (the variable is unset, empty, or made of
    commas and blanks only) it is the two local origins on port 3000. *)
Theorem parseAllowedOrigins_never_empty (host : Host) (raw : option string) :
  let pieces :=
    filter (fun x => negb (String.eqb x ""))
      (map (String_trim host)
         (split_on "," (match raw with Some r => r | None => "" end))) in
  parseAllowedOrigins host raw <> [] /\
  (forall x, In x (parseAllowedOrigins host raw) -> x <> "") /\
  (pieces = [] -> parseAllowedOrigins host raw = default_origins) /\
  (pieces <> [] -> parseAllowedOrigins host raw = pieces) /\
  (String_trim host "" = "" ->
   parseAllowedOrigins host None = default_origins /\
   parseAllowedOrigins host (Some "") = default_origins /\
   parseAllowedOrigins host (Some ",") = default_origins).
Proof.
  intros pieces. unfold parseAllowedOrigins. fold pieces.
  assert (Hp : forall x, In x pieces -> x <> "").
  { intros x Hin. subst pieces. apply filter_In in Hin. destruct Hin as [_ Hx].
    apply negb_true_iff in Hx. now apply String.eqb_neq. }
  split; [destruct pieces; discriminate |].
  split.
  { destruct pieces as [| p ps] eqn:E; [| rewrite <- E in *; exact Hp].
    intros x [<- | [<- | []]]; discriminate. }
  split; [now intros -> |].
  split; [destruct pieces; congruence |].
  intros Ht. simpl. rewrite Ht. simpl. auto.
Qed.

Lemma parseAllowedOrigins_never_empty_witness :
  parseAllowedOrigins demo_host None = default_origins.
Proof.
  exact (proj1 (proj2 (proj2 (proj2 (proj2
           (@parseAllowedOrigins_never_empty demo_host None)))) eq_refl)).
Defined.

Lemma upgrade_is_gated_by_path_and_origin_witness :
  on_upgrade demo_host "/ws" (of_Z 3001) default_origins 3%nat (Some "/ws")
    (Some "http://evil.example") demo_server = (Ok tt, demo_server).
Proof.
  refine (proj2 (@upgrade_is_gated_by_path_and_origin demo_host "/ws" (of_Z 3001)
                   default_origins demo_server 3%nat (Some "/ws")
                   (Some "http://evil.example")) _).
  vm_compute. intros [_ [H | [H | [H | []]]]]; discriminate.
Defined.

(* ===================================================================== *)
(** ** Further facts: numbers and objects on the wire *)
(* ===================================================================== *)

Lemma field_object (fields : list (string * value)) (k : string) :
  field (VObj fields) k =
  match own_property fields k with Some x => x | None => VUndefined end.
Proof. unfold field. simpl. now destruct (own_property fields k). Qed.

Lemma own_property_set_eq (fields : list (string * value)) (k : string) (v : value) :
  own_property (Route.set_property fields k v) k = Some v.
Proof.
  induction fields as [| [k' v'] fields IH]; simpl.
  - now rewrite String.eqb_refl.
  - destruct (String.eqb k k') eqn:E; simpl; [now rewrite String.eqb_refl | now rewrite E].
Qed.

Lemma own_property_set_ne (fields : list (string * value)) (k k' : string) (v : value) :
  k' <> k ->
  own_property (Route.set_property fields k v) k' = own_property fields k'.
Proof.
  intros Hne. induction fields as [| [k0 v0] fields IH]; simpl.
  - destruct (String.eqb k' k) eqn:E; [| reflexivity].
    apply String.eqb_eq in E. congruence.
  - destruct (String.eqb k k0) eqn:E; simpl.
    + apply String.eqb_eq in E. subst k0.
      destruct (String.eqb k' k) eqn:F; [| reflexivity].
      apply String.eqb_eq in F. congruence.
    + destruct (String.eqb k' k0); [reflexivity | exact IH].
Qed.

(** The token [withRequestId] writes is there to be read, in an object. *)
Lemma withRequestId_token (t : TimerTask) (rid : string) :
  exists fields,
    task_data (Route.withRequestId t rid) = VObj fields /\
    own_property fields "__requestId" = Some (VStr rid).
Proof.
  unfold Route.withRequestId.
  destruct (task_data t) as [ | | b | n | str | z | items | fields]; simpl;
    try (eexists; split; [reflexivity | reflexivity]).
  eexists. split; [reflexivity | apply own_property_set_eq].
Qed.

(** The server reads a task back as it was written. *)
Lemma normalizeTask_json (host : Host) (t : TimerTask) :
  normalizeTask host (json_of_task t) = Ok t.
Proof.
  destruct t as [ty m d]. unfold normalizeTask, json_of_task. simpl.
  destruct ty, d; reflexivity.
Qed.

Lemma json_of_number_of_Z (z : Z) : json_of_number (of_Z z) = VNum (of_Z z).
Proof. reflexivity. Qed.

(** The server's normalisation changes nothing in a payload whose numbers
    are integers and whose period is at least 50, and does not read the
    clock for it. *)
Lemma normalizeTimerCreateInput_settled (host : Host) (n : TimerCreateInput)
  (s : state Connections) :
  settled n -> normalizeTimerCreateInput host (json_of_input n) s = (Ok n, s).
Proof.
  intros Hn.
  rewrite normalizeTimerCreateInput_object by (destruct n as [? ? | ? [?|] ?]; reflexivity).
  destruct n as [runAt t | every startAt t]; simpl in Hn.
  - destruct Hn as [z ->].
    unfold json_of_input. rewrite json_of_number_of_Z.
    unfold after_normalize, input_as_specified. rewrite !field_object.
    cbn -[Math_floor Math_max of_Z normalizeTask json_of_task].
    rewrite normalizeTask_json. now rewrite Math_floor_of_Z.
  - destruct Hn as [(z & -> & Hz) Hstart].
    destruct startAt as [a |]; [destruct Hstart as [za ->] |];
      unfold json_of_input; rewrite ?json_of_number_of_Z;
      unfold after_normalize, input_as_specified; rewrite !field_object;
      cbn -[Math_floor Math_max of_Z normalizeTask json_of_task];
      rewrite normalizeTask_json, ?Math_floor_of_Z, Math_max_50_of_Z;
      replace (Z.max 50 z) with z by lia; reflexivity.
Qed.

Lemma route_task_shape (raw : value) (t : TimerTask) :
  Route.normalizeTimerTask raw = Some t ->
  is_object raw = true /\
  field raw "message" = VStr (task_message t) /\
  task_data t = field raw "data" /\
  task_type t = (if is_string (field raw "type") "log" then log else notify) /\
  (is_string (field raw "type") "log" = true \/ is_string (field raw "type") "notify" = true).
Proof.
  unfold Route.normalizeTimerTask, is_object.
  destruct (truthy raw); simpl; [| discriminate].
  destruct (typeof_object raw); simpl; [| discriminate].
  destruct (field raw "message") as [ | | b | n | m | z | items | fields]; try discriminate.
  destruct (is_string (field raw "type") "log") eqn:E1.
  - intros H. inversion H; subst. simpl. auto 6.
  - destruct (is_string (field raw "type") "notify") eqn:E2; [| discriminate].
    intros H. inversion H; subst. simpl. auto 6.
Qed.

(** What the route lets through, and how it relates to what the server
    would make of the same object. *)
Lemma route_input_shape (raw : value) (n : TimerCreateInput) :
  Route.normalizeTimerCreateInput raw = Some n ->
  is_object raw = true /\
  Route.normalizeTimerTask (field raw "task") = Some (input_task n) /\
  (is_string (field raw "mode") "once" = true \/
   is_string (field raw "mode") "interval" = true) /\
  (forall now, n = input_as_specified now raw (input_task n)) /\
  (is_string (field raw "mode") "once" = true ->
   Number_isFinite (field raw "runAt") = true) /\
  (is_string (field raw "mode") "once" = false ->
   Number_isFinite (field raw "everyMs") = true).
Proof.
  unfold Route.normalizeTimerCreateInput, is_object, input_as_specified.
  destruct (truthy raw); simpl; [| discriminate].
  destruct (typeof_object raw); simpl; [| discriminate].
  destruct (Route.normalizeTimerTask (field raw "task")) as [t |]; [| discriminate].
  destruct (is_string (field raw "mode") "once") eqn:E1.
  - destruct (Number_isFinite (field raw "runAt")) eqn:F; [| discriminate].
    intros H. inversion H; subst. simpl. repeat split; auto. discriminate.
  - destruct (is_string (field raw "mode") "interval") eqn:E2; [| discriminate].
    destruct (Number_isFinite (field raw "everyMs")) eqn:F; [| discriminate].
    intros H. inversion H; subst. simpl. repeat split; auto. discriminate.
Qed.

Lemma route_input_settled (raw : value) (n : TimerCreateInput) :
  Route.normalizeTimerCreateInput raw = Some n -> settled n.
Proof.
  intros H. destruct (route_input_shape _ H) as (_ & _ & _ & Hspec & Honce & Hint).
  rewrite (Hspec (of_Z 0)). apply input_as_specified_settled.
Qed.

Lemma tagged_settled (n : TimerCreateInput) (rid : string) :
  settled n -> settled (Route.tagged n rid).
Proof. destruct n; simpl; auto. Qed.

(** The [timer.created] frame of a timer, read by the wait for a token. *)
Lemma created_predicate_json (rid r : string) (i : TimerInfo) (fields : list (string * value)) :
  task_data (task i) = VObj fields ->
  own_property fields "__requestId" = Some (VStr r) ->
  Route.created_predicate rid (json_of_frame (WsTimerCreated i)) =
  if String.eqb r rid
  then Some (Route.mkCreated (id i) (task_message (task i))
               (match mode i with once => "once" | interval => "interval" end)
               (match everyMs i with
                | Some e => if num_isFinite e then Some e else None
                | None => None
                end))
  else None.
Proof.
  intros Hd Hr. destruct i as [k md created next every last t]. simpl in *.
  destruct t as [ty m d]. simpl in *. subst d.
  destruct every as [e |], last as [a |], md, ty;
    unfold Route.created_predicate, field;
    cbn -[json_of_number]; rewrite Hr;
    cbn -[json_of_number];
    destruct (String.eqb r rid); try reflexivity;
    unfold json_of_number; destruct (num_isFinite e); reflexivity.
Qed.

(* ===================================================================== *)
(** ** Further properties: the chat route and the server, end to end *)
(* ===================================================================== *)

Lemma normalizeTimerCreateInput_needs_object (host : Host) (input : value)
  (s s1 : state Connections) (n : TimerCreateInput) :
  normalizeTimerCreateInput host input s = (Ok n, s1) -> is_object input = true.
Proof.
  destruct input as [ | | b | x | str | z | items | fields]; try reflexivity;
    unfold normalizeTimerCreateInput, bind, lift_result, ret, safeNow; simpl;
    discriminate.
Qed.

Lemma withRequestId_keeps (t : TimerTask) (rid : string) :
  task_type (Route.withRequestId t rid) = task_type t /\
  task_message (Route.withRequestId t rid) = task_message t.
Proof. unfold Route.withRequestId. destruct (task_data t); split; reflexivity. Qed.

(** X16. The route lets a timer through only in full: the payload is an
    object whose [mode] is [once] or [interval], whose task has a string
    message and the type [log] or [notify], and whose [runAt] (one-shot) or
    [everyMs] (interval) is a finite number; where the server substitutes a
    default (the current time, 1000 ms, an empty message, the type
    [notify]) the route answers [null]. What it lets through has integer
    times and a period of at least 50, has the kind the payload names,
    carries the message and the data unchanged, and is exactly what the
    server's [normalizeTimerCreateInput] returns for the same object,
    which then does not throw and does not read the clock. *)
Theorem route_accepts_only_well_formed_timers (raw : value) (n : TimerCreateInput) :
  Route.normalizeTimerCreateInput raw = Some n ->
  is_object raw = true /\
  finite_input n = true /\
  settled n /\
  field (field raw "task") "message" = VStr (task_message (input_task n)) /\
  task_data (input_task n) = field (field raw "task") "data" /\
  (is_string (field (field raw "task") "type") "log" = true \/
   is_string (field (field raw "task") "type") "notify" = true) /\
  (input_mode n = once /\ is_string (field raw "mode") "once" = true /\
   Number_isFinite (field raw "runAt") = true \/
   input_mode n = interval /\ is_string (field raw "mode") "interval" = true /\
   Number_isFinite (field raw "everyMs") = true) /\
  (forall now, n = input_as_specified now raw (input_task n)) /\
  is_object (field raw "task") = true /\
  (is_string (field (field raw "task") "type") "log" = true /\
   task_type (input_task n) = log \/
   is_string (field (field raw "task") "type") "notify" = true /\
   task_type (input_task n) = notify) /\
  (forall (host : Host) (s : state Connections),
      normalizeTask host (field raw "task") = Ok (input_task n) /\
      normalizeTimerCreateInput host raw s = (Ok n, s)).
Proof.
  intros H. pose proof (route_input_settled _ H) as Hset.
  destruct (route_input_shape _ H) as (Hobj & Htask & Hmode & Hspec & Honce & Hint).
  destruct (route_task_shape _ Htask) as (Htobj & Hm & Hd & Hkind & Hty).
  split; [exact Hobj |].
  split; [rewrite (Hspec (of_Z 0)); apply input_as_specified_finite |].
  split; [exact Hset |]. split; [exact Hm |]. split; [exact Hd |]. split; [exact Hty |].
  split.
  { destruct (input_as_specified_task (of_Z 0) raw (input_task n)) as [_ Hmd].
    rewrite <- (Hspec (of_Z 0)) in Hmd. rewrite Hmd.
    destruct (is_string (field raw "mode") "once") eqn:E.
    - left. auto.
    - right. destruct Hmode as [Hmode | Hmode]; [discriminate | auto]. }
  split; [exact Hspec |].
  split; [exact Htobj |].
  split.
  { destruct (is_string (field (field raw "task") "type") "log") eqn:E.
    - left. auto.
    - right. destruct Hty as [Hty | Hty]; [discriminate | auto]. }
  intros host s.
  assert (Hnt : normalizeTask host (field raw "task") = Ok (input_task n)).
  { rewrite normalizeTask_present
      by (intros Hz; rewrite Hz in Htobj; discriminate).
    rewrite Hm. simpl.
    unfold task_as_specified. rewrite <- Hkind, <- Hd.
    now destruct (input_task n). }
  split; [exact Hnt |].
  rewrite normalizeTimerCreateInput_object by exact Hobj.
  rewrite Hnt, <- Hspec. f_equal.
  unfold after_normalize.
  destruct (is_string (field raw "mode") "once") eqn:E; [| now destruct s].
  rewrite (Honce eq_refl). now destruct s.
Qed.

Lemma route_accepts_only_well_formed_timers_witness :
  settled (CreateOnce (of_Z 5000) (mkTask notify "tick" VUndefined)).
Proof.
  refine (proj1 (proj2 (proj2
            (@route_accepts_only_well_formed_timers create_frame_payload
               (CreateOnce (of_Z 5000) (mkTask notify "tick" VUndefined)) _)))).
  vm_compute. reflexivity.
Defined.

(** X17. [withRequestId] always leaves the task with an object as data
    that holds the token under [__requestId], and loses nothing: type and
    message are kept; the properties of an object are all kept, only a
    [__requestId] it had is overwritten; data that was absent gives the
    object with the token alone; any other data (a number, a string,
    [null], an array) is kept under [value]. Tagging again replaces the
    token. *)
Theorem withRequestId_tags_and_keeps (t : TimerTask) (rid : string) :
  let t' := Route.withRequestId t rid in
  task_type t' = task_type t /\
  task_message t' = task_message t /\
  is_object (task_data t') = true /\
  field (task_data t') "__requestId" = VStr rid /\
  match task_data t with
  | VObj _ =>
      forall k, k <> "__requestId" -> field (task_data t') k = field (task_data t) k
  | VUndefined => task_data t' = VObj [("__requestId", VStr rid)]
  | d => task_data t' = VObj [("value", d); ("__requestId", VStr rid)]
  end /\
  forall rid2,
    field (task_data (Route.withRequestId t' rid2)) "__requestId" = VStr rid2.
Proof.
  intros t'. subst t'.
  destruct (withRequestId_keeps t rid) as [Hty Hm].
  destruct (withRequestId_token t rid) as (fields & Hd & Htok).
  split; [exact Hty |]. split; [exact Hm |].
  split; [now rewrite Hd |].
  split; [rewrite Hd, field_object; now rewrite Htok |].
  split.
  - unfold Route.withRequestId.
    destruct (task_data t) as [ | | b | x | str | z | items | fs]; simpl; try reflexivity.
    intros k Hk. rewrite !field_object. now rewrite own_property_set_ne.
  - intros rid2.
    destruct (withRequestId_token (Route.withRequestId t rid) rid2) as (fields2 & Hd2 & Htok2).
    rewrite Hd2, field_object. now rewrite Htok2.
Qed.

(** X18. The server understands every request the route writes: for an
    action [normalizeTimerAction] let through, the frame the route sends,
    parsed as JSON, makes [parseClientMessage] return the matching request
    (the same identifier for a cancellation, the tagged timer for a
    creation), never the parse error. *)
Theorem route_requests_are_understood
  (host : Host) (raw : value) (a : Route.TimerAction) (rid text : string) :
  Route.normalizeTimerAction raw = Some a ->
  String_trim host text <> "" ->
  JSON_parse host (String_trim host text) = Some (json_of_action a rid) ->
  parseClientMessage host text = Some (request_of_action a rid).
Proof.
  intros Ha Hne Hp. unfold parseClientMessage. rewrite Hp.
  apply String.eqb_neq in Hne. rewrite Hne.
  destruct a as [| k | n]; simpl; try reflexivity.
  - assert (Hk : String.eqb k "" = false).
    { revert Ha. unfold Route.normalizeTimerAction.
      destruct (negb (truthy raw) || negb (typeof_object raw)); [discriminate |].
      destruct (is_string (field raw "name") "timer.list"); [discriminate |].
      destruct (is_string (field raw "name") "timer.cancel").
      - destruct (field raw "id") as [ | | b | x | str | z | items | fs]; try discriminate.
        destruct (String.eqb str "") eqn:E; [discriminate |].
        intros H. inversion H; subst. exact E.
      - destruct (is_string (field raw "name") "timer.create"); [| discriminate].
        destruct (Route.normalizeTimerCreateInput (field raw "timer")); discriminate. }
    now rewrite Hk.
  - destruct n as [runAt t | every [a |] t]; reflexivity.
Qed.

Lemma route_requests_are_understood_witness :
  parseClientMessage demo_wire_host cancel_frame_text = Some (ReqTimerCancel "timer_").
Proof.
  refine (@route_requests_are_understood demo_wire_host
            (VObj [("name", VStr "timer.cancel"); ("id", VStr "timer_")])
            (Route.CancelAction "timer_") "r1" cancel_frame_text _ _ _).
  - vm_compute. reflexivity.
  - vm_compute. discriminate.
  - vm_compute. reflexivity.
Defined.

Lemma json_of_number_finite (n : number) :
  num_isFinite n = true -> json_of_number n = VNum n.
Proof. unfold json_of_number. now intros ->. Qed.

(** The server's normalisation of a payload whose numbers are finite, as
    it comes over the wire: floors and the bound on the period, no
    exception, no reading of the clock. *)
Lemma normalizeTimerCreateInput_finite (host : Host) (n : TimerCreateInput)
  (s : state Connections) :
  finite_input n = true ->
  normalizeTimerCreateInput host (json_of_input n) s = (Ok (floored n), s).
Proof.
  intros Hn.
  rewrite normalizeTimerCreateInput_object by (destruct n as [? ? | ? [?|] ?]; reflexivity).
  destruct n as [runAt t | every startAt t]; simpl in Hn.
  - unfold json_of_input. rewrite json_of_number_finite by exact Hn.
    unfold after_normalize, input_as_specified. rewrite !field_object.
    cbn -[Math_floor Math_max of_Z normalizeTask json_of_task].
    rewrite normalizeTask_json, Hn. reflexivity.
  - apply andb_true_iff in Hn. destruct Hn as [He Ha].
    destruct startAt as [a |];
      unfold json_of_input; rewrite !json_of_number_finite by assumption;
      unfold after_normalize, input_as_specified; rewrite !field_object;
      cbn -[Math_floor Math_max of_Z normalizeTask json_of_task];
      rewrite normalizeTask_json, He, ?Ha; reflexivity.
Qed.

Lemma floored_settled (n : TimerCreateInput) : finite_input n = true -> settled (floored n).
Proof.
  destruct n as [runAt t | every startAt t]; cbn [floored settled finite_input]; intros Hn.
  - now apply Math_floor_integer.
  - apply andb_true_iff in Hn. destruct Hn as [He Ha]. split.
    + destruct (@Math_floor_integer every He) as [z ->]. rewrite Math_max_50_of_Z.
      exists (Z.max 50 z). split; [reflexivity | lia].
    + destruct startAt as [a |]; [now apply Math_floor_integer | exact I].
Qed.

Lemma floored_of_settled (n : TimerCreateInput) : settled n -> floored n = n.
Proof.
  destruct n as [runAt t | every startAt t]; cbn [floored settled].
  - intros [z ->]. now rewrite Math_floor_of_Z.
  - intros [(z & -> & Hz) Ha]. rewrite Math_floor_of_Z, Math_max_50_of_Z.
    replace (Z.max 50 z) with z by lia.
    destruct startAt as [a |]; [| reflexivity].
    destruct Ha as [za ->]. now rewrite Math_floor_of_Z.
Qed.

Lemma settled_finite (n : TimerCreateInput) : settled n -> finite_input n = true.
Proof.
  destruct n as [runAt t | every startAt t]; simpl.
  - now intros [z ->].
  - intros [(z & -> & Hz) Ha]. destruct startAt as [a |]; [| reflexivity].
    now destruct Ha as [za ->].
Qed.

Lemma floored_tagged (n : TimerCreateInput) (rid : string) :
  floored (Route.tagged n rid) = Route.tagged (floored n) rid /\
  finite_input (Route.tagged n rid) = finite_input n /\
  input_task (Route.tagged n rid) = Route.withRequestId (input_task n) rid /\
  input_mode (Route.tagged n rid) = input_mode n /\
  input_mode (floored n) = input_mode n /\
  input_task (floored n) = input_task n.
Proof. destruct n; repeat split. Qed.

Section EndToEnd.

Variable host : Host.
Variable path : string.
Variable port : number.
Variable allowedOrigins : list string.

(** A tagged timer with finite numbers, sent to a server: what is made of
    it, who hears of it, and which waits its announcement ends. *)
Lemma tagged_create_round_trip
  (s : state Connections) (ws : nat) (data : string) (n : TimerCreateInput) (rid : string) :
  serving s ->
  finite_input n = true ->
  parseClientMessage host data =
    Some (ReqTimerCreate (json_of_input (Route.tagged n rid))) ->
  let s' := snd (on_message host ws data s) in
  let i := created_info (Route.tagged (floored n) rid) (randomUUID host (id_draws s))
             (of_Z (Date_now host (clock_reads s))) in
  map_get (timers s') (id i) = Some (mkInternal i (next_handle s)) /\
  (forall x, frames_to x (sent (ext s')) =
             (frames_to x (sent (ext s)) ++
              (if open_client (ext s) x then [WsTimerCreated i] else []))%list) /\
  forall r,
    Route.created_predicate r (json_of_frame (WsTimerCreated i)) =
    if String.eqb rid r
    then Some (Route.mkCreated (id i) (task_message (input_task n))
                 (match input_mode n with once => "once" | interval => "interval" end)
                 (match floored n with
                  | CreateOnce _ _ => None
                  | CreateInterval every _ _ => Some every
                  end))
    else None.
Proof.
  intros Hs Hfin Hp s' i.
  destruct (floored_tagged n rid) as (Hft & Hfint & _ & _ & Hmode & Htk).
  destruct (floored_tagged (floored n) rid) as (_ & _ & Htask' & Hmode' & _).
  assert (Hmsg : on_message host ws data s =
                 (Ok tt, snd (createTimer host (Route.tagged (floored n) rid) s)) /\
                 timers (snd (createTimer host (Route.tagged (floored n) rid) s)) =
                   map_set (timers s) (id i) (mkInternal i (next_handle s)) /\
                 ext (snd (createTimer host (Route.tagged (floored n) rid) s)) =
                   broadcast (WsTimerCreated i) (ext s) /\
                 task i = input_task (Route.tagged (floored n) rid) /\
                 mode i = input_mode (Route.tagged (floored n) rid)).
  { unfold on_message. rewrite Hp. unfold try_catch.
    rewrite handleRequest_create, normalizeTimerCreateInput_finite
      by (rewrite Hfint; exact Hfin).
    rewrite Hft.
    destruct (createTimer_effect host (Route.tagged (floored n) rid) s)
      as (i0 & ht & _ & Htk0 & Hmd0 & _ & _ & _ & Ht & _ & _ & _ & _ & _ & Hf & Hx & Hi).
    cbv zeta in *. rewrite server_emit in Hf, Hx by apply Hs. simpl in Hf, Hx.
    fold i in Hi. subst i0. unfold bind.
    destruct (createTimer host (Route.tagged (floored n) rid) s) as [[r | e] s2];
      simpl in *; [| discriminate].
    auto. }
  destruct Hmsg as (Hmsg & Ht & Hx & Htask & Hmd). subst s'. rewrite Hmsg. cbn [snd].
  split; [rewrite Ht; apply map_get_set_eq |].
  split; [eapply broadcast_frames; eauto |].
  rewrite Htask' in Htask. rewrite Hmode', Hmode in Hmd. rewrite Htk in Htask.
  destruct (withRequestId_token (input_task n) rid) as (fields & Hd & Htok).
  destruct (withRequestId_keeps (input_task n) rid) as [_ Hm].
  intros r. rewrite (@created_predicate_json r rid i fields)
    by (try rewrite Htask; assumption).
  destruct (String.eqb rid r); [| reflexivity].
  rewrite Htask, Hm, Hmd. f_equal. f_equal.
  pose proof (floored_settled _ Hfin) as Hset. subst i.
  destruct (floored n) as [runAt t | every startAt t]; simpl in *; [reflexivity |].
  destruct Hset as [(z & -> & Hz) _]. rewrite Math_floor_of_Z, clampMin_50_of_Z by exact Hz.
  reflexivity.
Qed.

(** X19. The route finds its own timer, and only its own. When the
    timer the route let through, tagged with the request's token, reaches a
    server as a [timer.create] frame, the server's normalisation changes
    nothing in it; the timer made is tracked and announced to every open
    client in one [timer.created] frame; read back as JSON, that frame
    satisfies the wait of the request whose token it carries, which
    reports the new identifier, the message, the mode and (for an
    interval timer) the period the route asked for; and it satisfies the
    wait of no request with another token. *)
Theorem created_timer_is_recognised_by_its_request
  (s : state Connections) (ws : nat) (data : string) (raw : value)
  (n : TimerCreateInput) (rid : string) :
  server_reachable host path port allowedOrigins s ->
  Route.normalizeTimerCreateInput raw = Some n ->
  parseClientMessage host data =
    Some (ReqTimerCreate (json_of_input (Route.tagged n rid))) ->
  let s' := snd (on_message host ws data s) in
  let i := created_info (Route.tagged n rid) (randomUUID host (id_draws s))
             (of_Z (Date_now host (clock_reads s))) in
  map_get (timers s') (id i) = Some (mkInternal i (next_handle s)) /\
  (forall x, frames_to x (sent (ext s')) =
             (frames_to x (sent (ext s)) ++
              (if open_client (ext s) x then [WsTimerCreated i] else []))%list) /\
  Route.created_predicate rid (json_of_frame (WsTimerCreated i)) =
    Some (Route.mkCreated (id i) (task_message (input_task n))
            (match input_mode n with once => "once" | interval => "interval" end)
            (match n with
             | CreateOnce _ _ => None
             | CreateInterval every _ _ => Some every
             end)) /\
  (forall rid', rid' <> rid ->
                Route.created_predicate rid' (json_of_frame (WsTimerCreated i)) = None).
Proof.
  intros Hreach Hn Hp s' i.
  pose proof (@server_reachable_serving host path port allowedOrigins s Hreach) as Hs.
  pose proof (route_input_settled _ Hn) as Hset.
  destruct (@tagged_create_round_trip s ws data n rid Hs (settled_finite _ Hset) Hp)
    as (Hk & Hframes & Hpred).
  cbv zeta in *. rewrite (floored_of_settled _ Hset) in Hk, Hframes, Hpred.
  split; [exact Hk |]. split; [exact Hframes |].
  assert (Hev : forall t0 : Route.Created,
             (if String.eqb rid rid then Some t0 else None) = Some t0)
    by (intros t0; now rewrite String.eqb_refl).
  split.
  - rewrite Hpred, Hev. reflexivity.
  - intros rid' Hne. rewrite Hpred.
    destruct (String.eqb rid rid') eqn:E; [| reflexivity].
    apply String.eqb_eq in E. congruence.
Qed.

End EndToEnd.

Lemma created_timer_is_recognised_by_its_request_witness :
  Route.created_predicate "r1"
    (json_of_frame
       (WsTimerCreated
          (created_info
             (Route.tagged (CreateOnce (of_Z 5000) (mkTask notify "tick" VUndefined)) "r1")
             (randomUUID demo_host (id_draws demo_server))
             (of_Z (Date_now demo_host (clock_reads demo_server)))))) =
  Some (Route.mkCreated
          (id (created_info
                 (Route.tagged (CreateOnce (of_Z 5000) (mkTask notify "tick" VUndefined))
                    "r1")
                 (randomUUID demo_host (id_draws demo_server))
                 (of_Z (Date_now demo_host (clock_reads demo_server)))))
          "tick" "once" None).
Proof.
  refine (proj1 (proj2 (proj2
            (@created_timer_is_recognised_by_its_request
               (mkHost (Date_now demo_host) (randomUUID demo_host) (JSON_stringify demo_host)
                  (fun _ =>
                     Some (VObj [("type", VStr "timer.create");
                                 ("timer",
                                  json_of_input
                                    (Route.tagged
                                       (CreateOnce (of_Z 5000)
                                          (mkTask notify "tick" VUndefined)) "r1"))]))
                  (String_trim demo_host) (Number_toString demo_host)
                  (BigInt_toString demo_host))
               "/ws" (of_Z 3001) default_origins demo_server 1%nat "frame"
               create_frame_payload
               (CreateOnce (of_Z 5000) (mkTask notify "tick" VUndefined)) "r1" _ _ _)))).
  - exists (fun _ => OPEN).
    exists [SrvUpgrade 1%nat (Some "/ws") None; SrvUpgrade 2%nat (Some "/ws") None].
    vm_compute. reflexivity.
  - vm_compute. reflexivity.
  - vm_compute. reflexivity.
Defined.

(** X20. Each wait of the route is ended only by the kind of frame it
    waits for. Of the eight frames the server sends, read back as JSON:
    the wait for a list is ended by every [timer.list] frame (the one the
    server sends unasked on connection as well as the reply) and yields as
    many timers as the server listed, and by no other frame; the wait for a
    cancellation is ended by the [timer.canceled] frame of the same
    identifier, yielding its [ok], and by no other frame; the wait for a
    creation is ended by no frame other than a [timer.created]. *)
Theorem waits_end_only_on_their_frames (m : WsServerToClient) :
  Route.list_predicate (json_of_frame m) =
    match m with
    | WsTimerList ts => Some (map json_of_info ts)
    | _ => None
    end /\
  (forall k,
      Route.canceled_predicate k (json_of_frame m) =
      match m with
      | WsTimerCanceled k' ok => if String.eqb k' k then Some ok else None
      | _ => None
      end) /\
  match m with
  | WsTimerCreated _ => True
  | _ => forall rid, Route.created_predicate rid (json_of_frame m) = None
  end /\
  match m with
  | WsTimerList ts =>
      exists timers, Route.list_predicate (json_of_frame m) = Some timers /\
                     length timers = length ts
  | _ => True
  end.
Proof.
  destruct m as [now pth prt | k0 | msg rt | t | k0 ok | t firedAt | ts | k0 msg];
    (split; [| split; [| split]]); try exact I; try intros k; try reflexivity;
    try (destruct k0; reflexivity); try (destruct rt; reflexivity).
  - unfold Route.canceled_predicate, field. simpl.
    destruct (String.eqb k0 k); reflexivity.
  - eexists. split; [reflexivity |]. apply length_map.
Qed.

(** X21. The server's normalisation settles a payload in one pass:
    whenever it returns, the input it returns has integer times and a
    period of at least 50 (so every number is finite), and normalising
    that input again, as it would come back over the wire, returns it
    unchanged and without reading the clock. *)
Theorem server_normalisation_is_idempotent
  (host : Host) (input : value) (s s1 : state Connections) (n : TimerCreateInput) :
  normalizeTimerCreateInput host input s = (Ok n, s1) ->
  settled n /\
  finite_input n = true /\
  forall s2 : state Connections,
    normalizeTimerCreateInput host (json_of_input n) s2 = (Ok n, s2).
Proof.
  intros H. pose proof (normalizeTimerCreateInput_needs_object _ _ _ H) as Hobj.
  rewrite normalizeTimerCreateInput_object in H by exact Hobj.
  destruct (normalizeTask host (field input "task")) as [t' | e]; [| discriminate].
  inversion H as [[Hn Hs1]]. clear H.
  pose proof (input_as_specified_settled (Date_now host (clock_reads s)) input t') as Hset.
  split; [exact Hset |].
  split; [apply input_as_specified_finite |].
  intros s2. now apply normalizeTimerCreateInput_settled.
Qed.

Lemma server_normalisation_is_idempotent_witness :
  settled (CreateOnce (of_Z 1000) (mkTask log "" VUndefined)).
Proof.
  refine (proj1 (@server_normalisation_is_idempotent demo_host demo_payload
                   (startTimerWsServer (fun _ => OPEN))
                   (with_clock_reads 1%nat (startTimerWsServer (fun _ => OPEN)))
                   (CreateOnce (of_Z 1000) (mkTask log "" VUndefined)) _)).
  vm_compute. reflexivity.
Defined.

(* ===================================================================== *)
(** ** Further properties: chat messages and gateway paths *)
(* ===================================================================== *)

Lemma collect_app (xs ys : list value) :
  Chat.collect (xs ++ ys) = (Chat.collect xs ++ Chat.collect ys)%list.
Proof.
  induction xs as [| x xs IH]; simpl; [reflexivity |].
  destruct (Chat.coerce_item x); simpl; now rewrite IH.
Qed.

Lemma coerce_item_source (item : value) (m : Chat.SimpleMessage) :
  Chat.coerce_item item = Some m ->
  is_object item = true /\
  field item "role" = VStr (Chat.role_name (Chat.role m)) /\
  field item "content" = VStr (Chat.content m).
Proof.
  unfold Chat.coerce_item, is_object.
  destruct (truthy item); simpl; [| discriminate].
  destruct (typeof_object item); simpl; [| discriminate].
  destruct (field item "role") as [ | | b | n | r | z | items | fields]; try discriminate.
  destruct (field item "content") as [ | | b | n | c | z | items | fields]; try discriminate.
  destruct (String.eqb r "user") eqn:E1.
  - apply String.eqb_eq in E1. subst r. intros H. inversion H. auto.
  - destruct (String.eqb r "assistant") eqn:E2; [| discriminate].
    apply String.eqb_eq in E2. subst r. intros H. inversion H. auto.
Qed.

Lemma collect_source (items : list value) (m : Chat.SimpleMessage) :
  In m (Chat.collect items) ->
  exists item, In item items /\ Chat.coerce_item item = Some m.
Proof.
  induction items as [| x items IH]; simpl; [tauto |].
  destruct (Chat.coerce_item x) as [m0 |] eqn:E.
  - intros [<- | Hin]; [exists x; auto |].
    destruct (IH Hin) as (item & Hi & Hc). exists item. auto.
  - intros Hin. destruct (IH Hin) as (item & Hi & Hc). exists item. auto.
Qed.

Lemma collect_json (ms : list Chat.SimpleMessage) :
  Chat.collect (map Chat.json_of_message ms) = ms.
Proof.
  induction ms as [| [r c] ms IH]; simpl; [reflexivity |].
  destruct r; simpl; now rewrite IH.
Qed.

(** X22. [coerceMessages] never returns an empty conversation and never
    lets a role other than [user] and [assistant] through. Anything that
    is not an array, and an array without a usable item, gives the one
    greeting from the user. Otherwise the result is the usable items in
    their order: each message comes from an item that is an object with
    that role and that content as strings, the items that are not usable
    (a [system] message among them) are skipped without disturbing the
    others, and a conversation written by a client comes back unchanged. *)
Theorem coerceMessages_keeps_user_and_assistant_only (input : value) :
  Chat.coerceMessages input <> [] /\
  (forall m, In m (Chat.coerceMessages input) ->
     Chat.coerceMessages input = Chat.greeting \/
     exists items item,
       input = VArr items /\ In item items /\ is_object item = true /\
       field item "role" = VStr (Chat.role_name (Chat.role m)) /\
       field item "content" = VStr (Chat.content m)) /\
  (forall xs junk ys,
     Chat.coerce_item junk = None ->
     Chat.coerceMessages (VArr (xs ++ junk :: ys)) = Chat.coerceMessages (VArr (xs ++ ys))) /\
  (forall xs ys,
     Chat.collect xs <> [] -> Chat.collect ys <> [] ->
     Chat.coerceMessages (VArr (xs ++ ys)) =
     (Chat.coerceMessages (VArr xs) ++ Chat.coerceMessages (VArr ys))%list) /\
  (forall ms, ms <> [] -> Chat.coerceMessages (VArr (map Chat.json_of_message ms)) = ms) /\
  (forall c, Chat.coerce_item (VObj [("role", VStr "system"); ("content", VStr c)]) = None).
Proof.
  split.
  { destruct input as [ | | b | n | str | z | items | fields]; simpl; try discriminate.
    destruct (Chat.collect items); discriminate. }
  split.
  { intros m Hin. destruct input as [ | | b | n | str | z | items | fields];
      simpl in *; try (now left).
    destruct (Chat.collect items) as [| m0 ms] eqn:E; [now left |].
    right. rewrite <- E in Hin.
    destruct (collect_source _ _ Hin) as (item & Hi & Hc).
    destruct (coerce_item_source _ Hc) as (Ho & Hr & Hcn).
    exists items, item. auto 6. }
  split.
  { intros xs junk ys Hj. simpl. rewrite !collect_app. simpl. now rewrite Hj. }
  split.
  { intros xs ys Hx Hy. simpl. rewrite collect_app.
    destruct (Chat.collect xs) as [| x xs'] eqn:Ex; [congruence |].
    destruct (Chat.collect ys) as [| y ys'] eqn:Ey; [congruence |]. reflexivity. }
  split.
  { intros ms Hne. simpl. rewrite collect_json. destruct ms; congruence. }
  reflexivity.
Qed.

Lemma strip_trailing_slash_end (s : string) :
  Gateway.strip_trailing_slashes (s ++ "/") = Gateway.strip_trailing_slashes s.
Proof.
  induction s as [| c s IH]; simpl; [reflexivity |]. now rewrite IH.
Qed.

Lemma strip_trailing_no_slash (s : string) :
  Gateway.ends_with_slash (Gateway.strip_trailing_slashes s) = false.
Proof.
  induction s as [| c s IH]; simpl; [reflexivity |].
  destruct (Gateway.strip_trailing_slashes s) as [| c' kept] eqn:E.
  - destruct (Ascii.eqb c "/") eqn:F; simpl; [reflexivity | exact F].
  - simpl in *. exact IH.
Qed.

Lemma strip_leading_no_slash (s : string) :
  Gateway.starts_with_slash (Gateway.strip_leading_slashes s) = false.
Proof.
  induction s as [| c s IH]; simpl; [reflexivity |].
  destruct (Ascii.eqb c "/") eqn:F; [exact IH | simpl; exact F].
Qed.

Lemma starts_with_slash_app (a b : string) :
  Gateway.starts_with_slash a = true -> Gateway.starts_with_slash (a ++ b) = true.
Proof. destruct a; simpl; [discriminate | auto]. Qed.

(** X23. [joinUrlPath] always returns a path that starts with a slash,
    and however many slashes the base ends with and the extra path starts
    with, the two parts are joined by exactly one: slashes at the junction
    do not change the result, the base is used without its trailing
    slashes and the extra path without its leading ones, and an empty
    part adds no slash of its own. *)
Theorem joinUrlPath_joins_with_one_slash (basePath extraPath : string) :
  let a := Gateway.strip_trailing_slashes basePath in
  let b := Gateway.strip_leading_slashes extraPath in
  Gateway.starts_with_slash (Gateway.joinUrlPath basePath extraPath) = true /\
  Gateway.joinUrlPath (basePath ++ "/") extraPath = Gateway.joinUrlPath basePath extraPath /\
  Gateway.joinUrlPath basePath ("/" ++ extraPath) = Gateway.joinUrlPath basePath extraPath /\
  Gateway.ends_with_slash a = false /\
  Gateway.starts_with_slash b = false /\
  Gateway.joinUrlPath basePath extraPath =
    (if String.eqb a "" then "/" ++ b
     else (if Gateway.starts_with_slash a then a else "/" ++ a) ++
          (if String.eqb b "" then "" else "/" ++ b)).
Proof.
  intros a b. unfold Gateway.joinUrlPath. fold a. fold b.
  split.
  { destruct (String.eqb a ""); [reflexivity |].
    destruct (String.eqb b "");
      destruct (Gateway.starts_with_slash a) eqn:E; try reflexivity; try exact E.
    now apply starts_with_slash_app. }
  split; [now rewrite strip_trailing_slash_end |].
  split; [reflexivity |].
  split; [apply strip_trailing_no_slash |].
  split; [apply strip_leading_no_slash |].
  destruct (String.eqb a ""); [reflexivity |].
  destruct (String.eqb b ""); [| reflexivity].
  destruct (Gateway.starts_with_slash a); simpl; [| f_equal];
    symmetry; apply append_empty_r || (induction a; simpl; [reflexivity | now f_equal]).
Qed.

(* ===================================================================== *)
(** ** Further properties of the request correlator *)
(* ===================================================================== *)

Section CorrelatorResolution.

Import Correlator.

Variable host : Host.
Variable timeoutMs : number.
Variable T : Type.
Variable predicate : value -> option T.

Lemma deliver_all_app (evs1 evs2 : list Event) (w : Wait T) :
  deliver_all host timeoutMs predicate (evs1 ++ evs2) w =
  deliver_all host timeoutMs predicate evs2 (deliver_all host timeoutMs predicate evs1 w).
Proof. revert w. induction evs1 as [| ev evs1 IH]; intros w; simpl; auto. Qed.

Lemma deliver_all_no_match (evs : list Event) (w : Wait T) :
  consistent w -> promise w = Pending ->
  Forall (no_match host predicate) evs ->
  deliver_all host timeoutMs predicate evs w = w.
Proof.
  intros Hc Hp Hall. induction Hall as [| ev evs Hev Hall IH]; simpl; [reflexivity |].
  assert (Hsame : deliver host timeoutMs predicate ev w = w).
  { pose proof (@deliver_pending host timeoutMs T predicate ev w Hc Hp) as H.
    destruct ev as [| text | |]; simpl in Hev; try contradiction.
    destruct (JSON_parse host text) as [parsed |]; [| exact H].
    now rewrite Hev in H. }
  now rewrite Hsame.
Qed.

(** X24. A wait is resolved by the first frame its predicate accepts and
    by nothing else before it: frames that are not JSON or that the
    predicate turns down leave the wait as it was, the first accepted
    frame resolves the promise with what the predicate returned, disarms
    the timeout and takes the three listeners off the socket, and nothing
    that arrives later (a second match, an error, a close, the timeout
    that was already cleared) changes the outcome. *)
Theorem wait_resolves_on_first_matching_frame
  (before rest : list Event) (text : string) (parsed : value) (found : T) :
  Forall (no_match host predicate) before ->
  JSON_parse host text = Some parsed ->
  predicate parsed = Some found ->
  deliver_all host timeoutMs predicate (before ++ Message text :: rest) waitFor =
  mkWait (Resolved found) false false false false.
Proof.
  intros Hbefore Hp Hm. rewrite deliver_all_app.
  rewrite (@deliver_all_no_match before waitFor (@waitFor_consistent T) eq_refl Hbefore).
  simpl. unfold onMessage. rewrite Hp, Hm. simpl.
  apply deliver_all_settled; [unfold consistent; simpl; auto | discriminate].
Qed.

End CorrelatorResolution.

Lemma wait_resolves_on_first_matching_frame_witness :
  Correlator.deliver_all demo_reply_host (of_Z 2000) (Route.canceled_predicate "timer_")
    ([Correlator.Message "h"] ++ Correlator.Message "c" :: [Correlator.TimerElapsed])
    Correlator.waitFor =
  Correlator.mkWait (Correlator.Resolved true) false false false false.
Proof.
  refine (@wait_resolves_on_first_matching_frame demo_reply_host (of_Z 2000) bool
            (Route.canceled_predicate "timer_") [Correlator.Message "h"]
            [Correlator.TimerElapsed] "c"
            (json_of_frame (WsTimerCanceled "timer_" true)) true _ _ _).
  - constructor; [vm_compute; reflexivity | constructor].
  - vm_compute. reflexivity.
  - vm_compute. reflexivity.
Defined.

(* ===================================================================== *)
(** ** Further properties: the timer tool of the chat route *)
(* ===================================================================== *)

Lemma Number_isFinite_is_number (v : value) :
  Number_isFinite v = true -> v = VNum (number_of v) /\ num_isFinite (number_of v) = true.
Proof. destruct v; simpl; try discriminate. auto. Qed.

(** What the [timer_create] tool accepts. *)
Lemma validate_timer_create_shape (host : Host) (raw : value) (v : TimerCreateInput) :
  Route.validate_timer_create host raw = Route.Accepted v ->
  finite_input v = true /\
  task_message (input_task v) <> "" /\
  (exists m, field (field raw "task") "message" = VStr m /\
             task_message (input_task v) = String_trim host m) /\
  task_data (input_task v) = field (field raw "task") "data" /\
  (input_mode v = once /\ is_string (field raw "mode") "once" = true \/
   input_mode v = interval /\ is_string (field raw "mode") "interval" = true) /\
  match v with
  | CreateOnce runAt _ => field raw "runAt" = VNum runAt
  | CreateInterval every startAt _ =>
      field raw "everyMs" = VNum every /\
      match startAt with
      | Some a => field raw "startAt" = VNum a
      | None => field raw "startAt" = VUndefined
      end
  end.
Proof.
  unfold Route.validate_timer_create.
  destruct (negb (Route.is_plain_object raw)); [discriminate |].
  destruct (is_string (field raw "mode") "once") eqn:Eonce;
    destruct (is_string (field raw "mode") "interval") eqn:Eint; simpl;
    try discriminate;
    (destruct (negb (Route.is_plain_object (field raw "task"))); [discriminate |]);
    (destruct (negb (is_string (field (field raw "task") "type") "notify") &&
               negb (is_string (field (field raw "task") "type") "log"));
     [discriminate |]);
    (destruct (field (field raw "task") "message")
       as [ | | b | x | m | z | items | fields]; try discriminate);
    (destruct (String.eqb (String_trim host m) "") eqn:Em; [discriminate |]);
    apply String.eqb_neq in Em.
  - destruct (Number_isFinite (field raw "runAt")) eqn:F; [| discriminate].
    destruct (Number_isFinite_is_number _ F) as [Hv Hf].
    intros H. inversion H; subst. simpl. repeat split; eauto.
  - destruct (Number_isFinite (field raw "runAt")) eqn:F; [| discriminate].
    destruct (Number_isFinite_is_number _ F) as [Hv Hf].
    intros H. inversion H; subst. simpl. repeat split; eauto.
  - destruct (Number_isFinite (field raw "everyMs")) eqn:F; simpl; [| discriminate].
    destruct (Number_isFinite_is_number _ F) as [Hv Hf].
    destruct (field raw "startAt") as [ | | b | x | str | z | items | fields] eqn:Ea;
      simpl; try discriminate.
    + intros H. inversion H; subst. simpl. rewrite Hf. repeat split; eauto.
    + destruct (num_isFinite x) eqn:Fx; [| discriminate].
      intros H. inversion H; subst. simpl. rewrite Hf, Fx. repeat split; eauto.
Qed.

(** What [validate] insists on before it looks at the numbers: both the
    value and its task are plain objects, and the task is of the kind its
    [type] names. *)
Lemma validate_timer_create_task (host : Host) (raw : value) (v : TimerCreateInput) :
  Route.validate_timer_create host raw = Route.Accepted v ->
  Route.is_plain_object raw = true /\
  Route.is_plain_object (field raw "task") = true /\
  (is_string (field (field raw "task") "type") "log" = true /\
   task_type (input_task v) = log \/
   is_string (field (field raw "task") "type") "notify" = true /\
   task_type (input_task v) = notify).
Proof.
  unfold Route.validate_timer_create.
  destruct (Route.is_plain_object raw); simpl; [| discriminate].
  destruct (negb (is_string (field raw "mode") "once") &&
            negb (is_string (field raw "mode") "interval")); [discriminate |].
  destruct (Route.is_plain_object (field raw "task")); simpl; [| discriminate].
  destruct (is_string (field (field raw "task") "type") "notify") eqn:En;
    destruct (is_string (field (field raw "task") "type") "log") eqn:El; simpl;
    try discriminate;
    (destruct (field (field raw "task") "message")
       as [ | | b | x | m | z | items | fields]; try discriminate);
    (destruct (String.eqb (String_trim host m) ""); [discriminate |]);
    (destruct (is_string (field raw "mode") "once");
     [destruct (Number_isFinite (field raw "runAt")); [| discriminate] |
      destruct (negb (Number_isFinite (field raw "everyMs"))); [discriminate |];
      destruct (field raw "startAt") as [ | | b' | x' | str | z' | items' | fields'];
      try discriminate;
      try (simpl; destruct (num_isFinite x'); [| discriminate])]);
    intros H; inversion H; subst; simpl; auto.
Qed.

Section ToolPath.

Variable host : Host.
Variable path : string.
Variable port : number.
Variable allowedOrigins : list string.

(** X25. A timer the [timer_create] tool accepted is created and found
    again, with the server's numbers. The validator accepts an object only
    when its mode is [once] or [interval], its task is an object with type
    [notify] or [log] and a message that is not blank, and its numbers are
    finite; what it accepts has that mode and that type, the message
    trimmed, the data and the numbers as given. Sent tagged to a running
    server, such a timer never draws an error frame: the server floors its
    times and floors and raises its period to 50, tracks the timer,
    announces it to every open client, and the announcement satisfies the
    wait of this request and of no other, yielding the new identifier, the
    trimmed message, the mode and, for an interval timer, the period the
    server actually uses. *)
Theorem validated_tool_timer_is_created_and_recognised
  (s : state Connections) (ws : nat) (data : string) (raw : value)
  (v : TimerCreateInput) (rid : string) :
  server_reachable host path port allowedOrigins s ->
  Route.validate_timer_create host raw = Route.Accepted v ->
  parseClientMessage host data =
    Some (ReqTimerCreate (json_of_input (Route.tagged v rid))) ->
  let s' := snd (on_message host ws data s) in
  let i := created_info (Route.tagged (floored v) rid) (randomUUID host (id_draws s))
             (of_Z (Date_now host (clock_reads s))) in
  finite_input v = true /\
  task_message (input_task v) <> "" /\
  (exists m, field (field raw "task") "message" = VStr m /\
             task_message (input_task v) = String_trim host m) /\
  Route.is_plain_object raw = true /\
  Route.is_plain_object (field raw "task") = true /\
  (is_string (field (field raw "task") "type") "log" = true /\
   task_type (input_task v) = log \/
   is_string (field (field raw "task") "type") "notify" = true /\
   task_type (input_task v) = notify) /\
  task_data (input_task v) = field (field raw "task") "data" /\
  (input_mode v = once /\ is_string (field raw "mode") "once" = true \/
   input_mode v = interval /\ is_string (field raw "mode") "interval" = true) /\
  match v with
  | CreateOnce runAt _ => field raw "runAt" = VNum runAt
  | CreateInterval every startAt _ =>
      field raw "everyMs" = VNum every /\
      match startAt with
      | Some a => field raw "startAt" = VNum a
      | None => field raw "startAt" = VUndefined
      end
  end /\
  map_get (timers s') (id i) = Some (mkInternal i (next_handle s)) /\
  (forall x, frames_to x (sent (ext s')) =
             (frames_to x (sent (ext s)) ++
              (if open_client (ext s) x then [WsTimerCreated i] else []))%list) /\
  Route.created_predicate rid (json_of_frame (WsTimerCreated i)) =
    Some (Route.mkCreated (id i) (task_message (input_task v))
            (match input_mode v with once => "once" | interval => "interval" end)
            (match v with
             | CreateOnce _ _ => None
             | CreateInterval every _ _ => Some (Math_max (of_Z 50) (Math_floor every))
             end)) /\
  (forall rid', rid' <> rid ->
                Route.created_predicate rid' (json_of_frame (WsTimerCreated i)) = None).
Proof.
  intros Hreach Hv Hp s' i.
  pose proof (@server_reachable_serving host path port allowedOrigins s Hreach) as Hs.
  destruct (validate_timer_create_shape _ _ Hv) as (Hfin & Hmsg & Hm & Hd & Hmode & Hnum).
  destruct (validate_timer_create_task _ _ Hv) as (Hobj & Htobj & Hkind).
  destruct (@tagged_create_round_trip host s ws data v rid Hs Hfin Hp)
    as (Hk & Hframes & Hpred).
  cbv zeta in *.
  split; [exact Hfin |]. split; [exact Hmsg |]. split; [exact Hm |].
  split; [exact Hobj |]. split; [exact Htobj |]. split; [exact Hkind |].
  split; [exact Hd |]. split; [exact Hmode |]. split; [exact Hnum |].
  split; [exact Hk |]. split; [exact Hframes |].
  split.
  - rewrite Hpred, String.eqb_refl. now destruct v.
  - intros rid' Hne. rewrite Hpred.
    destruct (String.eqb rid rid') eqn:E; [| reflexivity].
    apply String.eqb_eq in E. congruence.
Qed.

End ToolPath.

Lemma validated_tool_timer_is_created_and_recognised_witness :
  finite_input (CreateOnce (of_Z 5000) (mkTask notify "tick" VUndefined)) = true.
Proof.
  refine (proj1
            (@validated_tool_timer_is_created_and_recognised
               (mkHost (Date_now demo_host) (randomUUID demo_host) (JSON_stringify demo_host)
                  (fun _ =>
                     Some (VObj [("type", VStr "timer.create");
                                 ("timer",
                                  json_of_input
                                    (Route.tagged
                                       (CreateOnce (of_Z 5000)
                                          (mkTask notify "tick" VUndefined)) "r1"))]))
                  (String_trim demo_host) (Number_toString demo_host)
                  (BigInt_toString demo_host))
               "/ws" (of_Z 3001) default_origins demo_server 1%nat "frame"
               create_frame_payload
               (CreateOnce (of_Z 5000) (mkTask notify "tick" VUndefined)) "r1" _ _ _)).
  - exists (fun _ => OPEN).
    exists [SrvUpgrade 1%nat (Some "/ws") None; SrvUpgrade 2%nat (Some "/ws") None].
    vm_compute. reflexivity.
  - vm_compute. reflexivity.
  - vm_compute. reflexivity.
Defined.

(* ===================================================================== *)
(** ** Further properties: the memory store *)
(* ===================================================================== *)

Section MemoryFacts.

Variable host : Host.
Variable th : Memory.TextHost.

Local Abbreviation normalizeText := (Memory.normalizeText host th).
Local Abbreviation containsSecretLike := (Memory.containsSecretLike th).
Local Abbreviation addMemory := (Memory.addMemory host th).
Local Abbreviation load_line := (Memory.load_line host th).
Local Abbreviation clean_store := (Memory.clean_store host th).

Implicit Types (l : list Memory.MemoryItem) (st : Memory.Store) (t : string) (k : nat).

Lemma touch_same l k (now : number) :
  map Memory.text (Memory.touch l k now) = map Memory.text l /\
  map Memory.id (Memory.touch l k now) = map Memory.id l /\
  length (Memory.touch l k now) = length l.
Proof.
  revert k. induction l as [| m l IH]; intros k; simpl; [auto |].
  destruct k as [| k]; simpl; [auto |].
  destruct (IH k) as (H1 & H2 & H3). now rewrite H1, H2, H3.
Qed.

Lemma touch_In l k (now : number) (m : Memory.MemoryItem) :
  In m (Memory.touch l k now) ->
  exists m0, In m0 l /\ Memory.text m0 = Memory.text m /\ Memory.id m0 = Memory.id m.
Proof.
  revert k. induction l as [| m1 l IH]; intros k; simpl; [tauto |].
  destruct k as [| k]; simpl.
  - intros [Hm | Hin]; [exists m1; rewrite <- Hm; simpl; auto | exists m; auto].
  - intros [Hm | Hin]; [exists m1; rewrite <- Hm; auto |].
    destruct (IH k Hin) as (m0 & H0 & Ht & Hi). exists m0. auto.
Qed.

Lemma touch_keeps l k (now : number) (m : Memory.MemoryItem) :
  In m l ->
  exists m', In m' (Memory.touch l k now) /\
             Memory.text m' = Memory.text m /\ Memory.id m' = Memory.id m.
Proof.
  revert k. induction l as [| m1 l IH]; intros k; simpl; [tauto |].
  destruct k as [| k]; simpl.
  - intros [Hm | Hin]; [| exists m; auto].
    eexists. split; [left; reflexivity |]. rewrite <- Hm. simpl. auto.
  - intros [Hm | Hin]; [exists m1; rewrite <- Hm; auto |].
    destruct (IH k Hin) as (m' & H0 & Ht & Hi). exists m'. auto.
Qed.

Lemma find_text_Some l t k :
  Memory.find_text l t = Some k ->
  exists m, nth_error l k = Some m /\ Memory.text m = t.
Proof.
  revert k. induction l as [| m l IH]; intros k; simpl; [discriminate |].
  destruct (String.eqb (Memory.text m) t) eqn:E.
  - intros H. inversion H; subst. exists m. apply String.eqb_eq in E. auto.
  - destruct (Memory.find_text l t) as [k' |]; [| discriminate].
    intros H. inversion H; subst. apply (IH k' eq_refl).
Qed.

Lemma find_text_None l t : Memory.find_text l t = None -> ~ In t (map Memory.text l).
Proof.
  induction l as [| m l IH]; simpl; [tauto |].
  destruct (String.eqb (Memory.text m) t) eqn:E; [discriminate |].
  apply String.eqb_neq in E.
  destruct (Memory.find_text l t); [discriminate |]. intros _ [H | H]; tauto.
Qed.

Lemma find_text_present l t : In t (map Memory.text l) -> Memory.find_text l t <> None.
Proof.
  intros Hin H. now apply find_text_None in H.
Qed.

Lemma touch_nth l k (now : number) (m : Memory.MemoryItem) :
  nth_error l k = Some m ->
  nth_error (Memory.touch l k now) k =
  Some (Memory.mkItem (Memory.id m) (Memory.text m) (Memory.tags m) (Memory.createdAt m) now).
Proof.
  revert k. induction l as [| m1 l IH]; intros k; destruct k as [| k]; simpl;
    try discriminate.
  - intros H. inversion H. reflexivity.
  - apply IH.
Qed.

Lemma load_line_clean (line : string) st :
  clean_store st -> Memory.appended st = [] ->
  clean_store (load_line line st) /\ Memory.appended (load_line line st) = [].
Proof.
  intros [Hi Ha] Hnil. unfold Memory.load_line.
  destruct (String.eqb (String_trim host line) ""); [split; [split |]; assumption |].
  destruct (JSON_parse host (String_trim host line)) as [parsed |];
    [| split; [split |]; assumption].
  destruct (negb (truthy parsed) || negb (typeof_object parsed));
    [split; [split |]; assumption |].
  destruct (field parsed "id") as [ | | b | n | k | z | its | fs];
    try (split; [split |]; assumption).
  destruct (field parsed "text") as [ | | b | n | t | z | its | fs];
    try (split; [split |]; assumption).
  cbn [Memory.text].
  destruct (Memory.containsSecretLike th (Memory.normalizeText host th t)) eqn:E;
    (split; [| exact Hnil]); split; cbn [Memory.items Memory.appended];
    try assumption; try (rewrite Hnil; intros m []).
  intros m Hin. apply in_app_or in Hin. destruct Hin as [Hin | [<- | []]]; [auto |].
  cbn [Memory.text]. split; [exact E | now exists t].
Qed.

Lemma ensureLoaded_clean (lines : list string) (clock ids : nat) :
  clean_store (Memory.ensureLoaded host th lines clock ids).
Proof.
  unfold Memory.ensureLoaded.
  assert (Hgen : forall st, clean_store st -> Memory.appended st = [] ->
                            clean_store (fold_left (fun st line => load_line line st)
                                           lines st)).
  { induction lines as [| line lines IH]; intros st Hc Hn; simpl; [exact Hc |].
    destruct (load_line_clean line Hc Hn) as [Hc' Hn']. now apply IH. }
  apply Hgen; [| reflexivity]. split; intros m [].
Qed.

(** [addMemory] in one piece. *)
Lemma addMemory_spec (input : string) (input_tags : option (list string)) st :
  let t := normalizeText input in
  match fst (addMemory input input_tags st) with
  | None =>
      snd (addMemory input input_tags st) = st /\
      (t = "" \/ containsSecretLike t = true)
  | Some m =>
      t <> "" /\ containsSecretLike t = false /\
      Memory.text m = t /\
      In m (Memory.items (snd (addMemory input input_tags st))) /\
      (In t (map Memory.text (Memory.items st)) ->
       map Memory.text (Memory.items (snd (addMemory input input_tags st))) =
         map Memory.text (Memory.items st) /\
       map Memory.id (Memory.items (snd (addMemory input input_tags st))) =
         map Memory.id (Memory.items st) /\
       Memory.appended (snd (addMemory input input_tags st)) = Memory.appended st /\
       Memory.byId (snd (addMemory input input_tags st)) = Memory.byId st /\
       Memory.id_draws (snd (addMemory input input_tags st)) = Memory.id_draws st /\
       Memory.updatedAt m = of_Z (Date_now host (Memory.clock_reads st))) /\
      (~ In t (map Memory.text (Memory.items st)) ->
       Memory.items (snd (addMemory input input_tags st)) = (Memory.items st ++ [m])%list /\
       Memory.appended (snd (addMemory input input_tags st)) =
         (Memory.appended st ++ [m])%list /\
       Memory.id m = randomUUID host (Memory.id_draws st) /\
       Memory.tags m = match input_tags with Some ts => ts | None => [] end)
  end.
Proof.
  intros t. unfold Memory.addMemory. fold t.
  destruct (String.eqb t "") eqn:E1; [apply String.eqb_eq in E1; simpl; auto |].
  apply String.eqb_neq in E1.
  destruct (Memory.containsSecretLike th t) eqn:E2; [simpl; auto |].
  destruct (Memory.find_text (Memory.items st) t) as [k |] eqn:E3.
  - destruct (find_text_Some _ _ E3) as (m0 & Hnth & Htext).
    cbn [fst snd Memory.items Memory.appended Memory.byId Memory.id_draws].
    rewrite (touch_nth _ _ (of_Z (Date_now host (Memory.clock_reads st))) Hnth).
    destruct (touch_same (Memory.items st) k (of_Z (Date_now host (Memory.clock_reads st))))
      as (Ht & Hid & _).
    split; [exact E1 |]. split; [reflexivity |]. split; [exact Htext |].
    split; [eapply nth_error_In; apply touch_nth; exact Hnth |].
    split; [intros _; auto 7 |].
    intros Hout. exfalso. apply Hout. rewrite <- Htext.
    apply in_map. eapply nth_error_In; eauto.
  - cbn [fst snd Memory.items Memory.appended Memory.byId Memory.id_draws Memory.text
           Memory.id Memory.tags].
    split; [exact E1 |]. split; [reflexivity |]. split; [reflexivity |].
    split; [apply in_or_app; right; now left |].
    split; [| auto]. intros Hin. exfalso. now apply (find_text_None _ _ E3).
Qed.

Lemma addMemory_clean (input : string) (input_tags : option (list string)) st :
  clean_store st -> clean_store (snd (addMemory input input_tags st)).
Proof.
  intros [Hi Ha]. unfold Memory.addMemory.
  destruct (String.eqb (Memory.normalizeText host th input) "") eqn:E1;
    [split; assumption |].
  destruct (Memory.containsSecretLike th (Memory.normalizeText host th input)) eqn:E2;
    [split; assumption |].
  destruct (Memory.find_text (Memory.items st) (Memory.normalizeText host th input))
    as [k |] eqn:E3; cbn [fst snd Memory.items Memory.appended].
  - split.
    + intros m Hin. destruct (touch_In _ _ _ _ Hin) as (m0 & H0 & Ht & _).
      rewrite <- Ht. now apply Hi.
    + intros m Hin. destruct (Ha m Hin) as (Hs & Hne & m' & Hm' & Hid & Ht).
      split; [exact Hs |]. split; [exact Hne |].
      destruct (@touch_keeps (Memory.items st) k
                  (of_Z (Date_now host (Memory.clock_reads st))) m' Hm')
        as (m2 & H2 & Ht2 & Hi2).
      exists m2. split; [exact H2 |]. split; congruence.
  - apply String.eqb_neq in E1. split.
    + intros m Hin. apply in_app_or in Hin. destruct Hin as [Hin | [<- | []]]; [auto |].
      cbn [Memory.text]. split; [exact E2 | now exists input].
    + intros m Hin. apply in_app_or in Hin. destruct Hin as [Hin | [<- | []]].
      * destruct (Ha m Hin) as (Hs & Hne & m' & Hm' & Hid & Ht).
        split; [exact Hs |]. split; [exact Hne |]. exists m'.
        split; [apply in_or_app; now left | auto].
      * cbn [Memory.text]. split; [exact E2 |]. split; [exact E1 |].
        eexists. split; [apply in_or_app; right; left; reflexivity | auto].
Qed.

Lemma reachable_clean st : Memory.reachable host th st -> clean_store st.
Proof.
  intros (lines & clock & ids & inputs & ->).
  generalize (ensureLoaded_clean lines clock ids).
  generalize (Memory.ensureLoaded host th lines clock ids).
  induction inputs as [| [t ts] inputs IH]; intros st Hc; simpl; [exact Hc |].
  apply IH. now apply addMemory_clean.
Qed.

End MemoryFacts.

(** X26. The memory store never holds a text that looks like a secret.
    Whatever the file contained when it was loaded and whatever was added
    since (the file operations taken to succeed), every item in memory has
    a normalised text that [containsSecretLike] turns down, and every item
    [addMemory] wrote to the file has such a text, not blank, and is still
    in memory under the same identifier. *)
Theorem memory_never_holds_secret_like_text
  (host : Host) (th : Memory.TextHost) (st : Memory.Store) :
  Memory.reachable host th st ->
  (forall m, In m (Memory.items st) ->
     Memory.containsSecretLike th (Memory.text m) = false /\
     exists raw, Memory.text m = Memory.normalizeText host th raw) /\
  (forall m, In m (Memory.appended st) ->
     Memory.containsSecretLike th (Memory.text m) = false /\
     Memory.text m <> "" /\
     exists m', In m' (Memory.items st) /\
                Memory.id m' = Memory.id m /\ Memory.text m' = Memory.text m).
Proof. intros Hreach. exact (reachable_clean Hreach). Qed.

Lemma memory_never_holds_secret_like_text_witness :
  Memory.containsSecretLike demo_text_host "likes tea" = false.
Proof.
  refine (proj1 (proj1 (@memory_never_holds_secret_like_text demo_host demo_text_host
                          demo_store _)
                   (Memory.mkItem "timer_" "likes tea" [] (of_Z 1000) (of_Z 1007)) _)).
  - exists [], 0%nat, 0%nat, [("likes tea", None)]. vm_compute. reflexivity.
  - vm_compute. left. reflexivity.
Defined.

(** X27. [addMemory] never stores the same text twice and refuses what it
    must not keep. It returns [null] exactly when the normalised text is
    empty or looks like a secret, and then nothing changes. When the
    normalised text is already in memory it returns that item with
    [updatedAt] set to the time just read: no item is added, no identifier
    is drawn, nothing is written to the file. Otherwise it appends one new
    item, with the identifier just drawn and the tags given, to memory and
    to the file. So texts that were pairwise distinct stay so. *)
Theorem addMemory_never_duplicates_a_text
  (host : Host) (th : Memory.TextHost) (input : string)
  (input_tags : option (list string)) (st : Memory.Store) :
  let t := Memory.normalizeText host th input in
  let out := Memory.addMemory host th input input_tags st in
  (fst out = None <-> t = "" \/ Memory.containsSecretLike th t = true) /\
  (fst out = None -> snd out = st) /\
  (forall m, fst out = Some m ->
     Memory.text m = t /\
     In m (Memory.items (snd out)) /\
     (In t (map Memory.text (Memory.items st)) ->
      map Memory.text (Memory.items (snd out)) = map Memory.text (Memory.items st) /\
      map Memory.id (Memory.items (snd out)) = map Memory.id (Memory.items st) /\
      Memory.appended (snd out) = Memory.appended st /\
      Memory.id_draws (snd out) = Memory.id_draws st /\
      Memory.updatedAt m = of_Z (Date_now host (Memory.clock_reads st))) /\
     (~ In t (map Memory.text (Memory.items st)) ->
      Memory.items (snd out) = (Memory.items st ++ [m])%list /\
      Memory.appended (snd out) = (Memory.appended st ++ [m])%list /\
      Memory.id m = randomUUID host (Memory.id_draws st) /\
      Memory.tags m = match input_tags with Some ts => ts | None => [] end)) /\
  (NoDup (map Memory.text (Memory.items st)) ->
   NoDup (map Memory.text (Memory.items (snd out)))).
Proof.
  intros t out. pose proof (addMemory_spec host th input input_tags st) as Hspec.
  cbv zeta in Hspec. fold t in Hspec. fold out in Hspec.
  destruct (fst out) as [m |] eqn:E.
  - destruct Hspec as (Hne & Hsec & Htext & Hin & Hold & Hnew).
    split; [split; [discriminate | intros [H | H]; congruence] |].
    split; [discriminate |].
    split.
    { intros m' Hm'. inversion Hm'; subst m'.
      split; [exact Htext |]. split; [exact Hin |]. split; [| exact Hnew].
      intros Hpresent. destruct (Hold Hpresent) as (H1 & H2 & H3 & _ & H5 & H6). auto 6. }
    intros Hnd.
    destruct (in_dec string_dec t (map Memory.text (Memory.items st))) as [Hpresent | Habsent].
    + destruct (Hold Hpresent) as (H1 & _). now rewrite H1.
    + destruct (Hnew Habsent) as (H1 & _). rewrite H1, map_app. simpl.
      rewrite Htext. now apply NoDup_snoc.
  - destruct Hspec as [Hsame Hwhy].
    split; [split; auto |]. split; [auto |]. split; [discriminate |].
    intros Hnd. now rewrite Hsame.
Qed.
